(** * Grouping engine of the tldraw renderer (TLDWrapper.tsx)

    A shallow embedding of the graph classification, grouping and
    diff-resolution code of [src/tldraw-renderer/src/TLDWrapper.tsx]:
    [checkHclBlockType], [getResourceNameAndType], [addNodeToGroup],
    [getConnectedNodes] and the grouping, pruning and connectivity phases of
    [parseModel].

    JavaScript strings are [string]; arrays are [list]; the insertion-ordered
    [Map<string, NodeGroup>] is an association list with unique keys; a
    thrown [TypeError] is a constructor of [result]. *)

From Stdlib Require Import String Ascii List Bool Arith Lia ZArith Permutation
  DecimalString Sorted.
Import ListNotations.
Set Warnings "-register-all".
Local Open Scope string_scope.
Local Open Scope list_scope.

(** ** Outcomes of effectful code *)

(** The TypeScript code either completes, or aborts with an uncaught
    [TypeError] (a property read on [undefined] or [null]).  [OutOfFuel] only
    arises in the fuel-indexed model of the recursive [getConnectedNodes]. *)
Inductive result (A : Type) : Type :=
| Ok (a : A)
| TypeError
| OutOfFuel.
Arguments Ok {A} a.
Arguments TypeError {A}.
Arguments OutOfFuel {A}.

Definition bind {A B} (c : result A) (k : A -> result B) : result B :=
  match c with
  | Ok a => k a
  | TypeError => TypeError
  | OutOfFuel => OutOfFuel
  end.

Notation "x <- c ;; k" := (bind c (fun x => k))
  (at level 61, c at next level, right associativity).
Notation "' p <- c ;; k" := (bind c (fun x => let p := x in k))
  (at level 61, p pattern, c at next level, right associativity).

(** [Array.prototype.forEach] whose callback mutates a state and may throw. *)
Fixpoint forEachM {A S} (body : A -> S -> result S) (l : list A) (s : S)
  : result S :=
  match l with
  | [] => Ok s
  | x :: rest => s' <- body x s ;; forEachM body rest s'
  end.

(** ** JavaScript string and array primitives *)

(** [s.split(sep)] for a one-character separator: never empty, and
    [""] splits to [[""]]. *)
Fixpoint split (sep : ascii) (s : string) : list string :=
  match s with
  | EmptyString => [EmptyString]
  | String c rest =>
      if Ascii.eqb c sep then EmptyString :: split sep rest
      else match split sep rest with
           | h :: t => String c h :: t
           | [] => [String c EmptyString]
           end
  end.

Definition dot : ascii := "."%char.
Definition space : ascii := " "%char.
Definition comma : ascii := ","%char.

(** [s.startsWith(p)] *)
Definition startsWith (p s : string) : bool := String.prefix p s.

(** [l.join(sep)] *)
Definition join (sep : string) (l : list string) : string := String.concat sep l.

(** [l.slice(n)] *)
Definition slice {A} (n : nat) (l : list A) : list A := skipn n l.

(** [l.includes(x)], also [l.some(s => s === x)] *)
Definition includes (x : string) (l : list string) : bool :=
  existsb (String.eqb x) l.

(** [l.indexOf(x)]; [None] stands for [-1]. *)
Fixpoint indexOf (x : string) (l : list string) : option nat :=
  match l with
  | [] => None
  | y :: rest => if String.eqb y x then Some 0
                 else option_map S (indexOf x rest)
  end.

(** [l.filter((s, index) => f s index)] *)
Fixpoint filteri_from {A} (i : nat) (f : A -> nat -> bool) (l : list A) : list A :=
  match l with
  | [] => []
  | x :: rest => if f x i then x :: filteri_from (S i) f rest
                 else filteri_from (S i) f rest
  end.
Definition filteri {A} (f : A -> nat -> bool) (l : list A) : list A :=
  filteri_from 0 f l.

(** ASCII white space removed by [String.prototype.trim]. *)
Definition isSpace (c : ascii) : bool :=
  let n := nat_of_ascii c in
  Nat.eqb n 32 || (Nat.leb 9 n && Nat.leb n 13).

Fixpoint trimStart (s : string) : string :=
  match s with
  | EmptyString => EmptyString
  | String c rest => if isSpace c then trimStart rest else s
  end.

Fixpoint trimEnd (s : string) : string :=
  match s with
  | EmptyString => EmptyString
  | String c rest =>
      match trimEnd rest with
      | EmptyString => if isSpace c then EmptyString else String c EmptyString
      | r => String c r
      end
  end.

(** [s.trim()] *)
Definition trim (s : string) : string := trimEnd (trimStart s).

(** ** JSON values of the plan document *)

(** The loosely typed [after] mapping of a change record.  [JUndef] is a
    missing property. *)
Inductive JsVal : Type :=
| JUndef
| JNull
| JBool (b : bool)
| JNum (z : Z)
| JStr (s : string)
| JArr (l : list JsVal)
| JObj (props : list (string * JsVal)).

(** Truthiness, as tested by [&&], [||], [!] and [if]. *)
Definition truthy (v : JsVal) : bool :=
  match v with
  | JUndef | JNull => false
  | JBool b => b
  | JNum z => negb (Z.eqb z 0)
  | JStr s => negb (s =? "")
  | JArr _ | JObj _ => true
  end.

(** [a || b] on values *)
Definition js_or (a b : JsVal) : JsVal := if truthy a then a else b.

Fixpoint lookupProp (k : string) (props : list (string * JsVal)) : JsVal :=
  match props with
  | [] => JUndef
  | (k', v) :: rest => if k' =? k then v else lookupProp k rest
  end.

(** The property read [v[k]]: a [TypeError] on [undefined] and [null], the
    own property of an object.  Plan attributes are read by Terraform
    argument names, so indices and [length] of arrays and strings and
    inherited prototype members are not modelled: such reads give
    [undefined]. *)
Definition js_get (v : JsVal) (k : string) : result JsVal :=
  match v with
  | JUndef | JNull => TypeError
  | JObj props => Ok (lookupProp k props)
  | _ => Ok JUndef
  end.

(** ** Data model *)

Module NodeModel.
(** A graph node of the external DOT parser; only its id is read. *)
Record t := mk { id : string }.
End NodeModel.

(** An edge with its two ordered endpoints [targets[0]] and [targets[1]]. *)
Record EdgeModel := { targets0 : string; targets1 : string }.

Record SubgraphModel := {
  nodes : list NodeModel.t;
  edges : list EdgeModel
}.

Record RootGraphModel := { subgraphs : list SubgraphModel }.

Record Change := { actions : list string; after : JsVal }.
Record ResourceChange := { address : string; change : Change }.
Record Plan := { resource_changes : list ResourceChange }.

Module Row.
(** One parsed row of the mapping table, by column header. *)
Record t := mk {
  mainDiagramBlocks : string;   (* "Main Diagram Blocks" *)
  missingResources : string;    (* "Missing Resources" *)
  dataSources : string;         (* "Data Sources" *)
  serviceName : string;         (* "Service Name" *)
  iconPath : string;            (* "Icon Path" *)
  simplifiedCategory : string;  (* "Simplified Category" *)
  argumentsForName : string     (* "Arguments For Name" *)
}.
End Row.

(** An entry of [NodeGroup.nodes]. *)
Record Member := {
  nodeModel : NodeModel.t;
  resourceChanges : list ResourceChange
}.

Module NodeGroup.
Record t := mk {
  nodes : list Member;
  id : string;
  mainNode : NodeModel.t;
  connectionsOut : list string;
  connectionsIn : list string;
  name : JsVal;
  type : string;
  category : string;
  iconPath : string;
  serviceName : string;
  moduleName : string;
  state : string
}.

Definition with_nodes (f : list Member -> list Member) (g : t) : t :=
  mk (f (nodes g)) (id g) (mainNode g) (connectionsOut g) (connectionsIn g)
     (name g) (type g) (category g) (iconPath g) (serviceName g)
     (moduleName g) (state g).

Definition with_state (s : string) (g : t) : t :=
  mk (nodes g) (id g) (mainNode g) (connectionsOut g) (connectionsIn g)
     (name g) (type g) (category g) (iconPath g) (serviceName g)
     (moduleName g) s.

Definition push_out (k : string) (g : t) : t :=
  mk (nodes g) (id g) (mainNode g) (connectionsOut g ++ [k]) (connectionsIn g)
     (name g) (type g) (category g) (iconPath g) (serviceName g)
     (moduleName g) (state g).

Definition push_in (k : string) (g : t) : t :=
  mk (nodes g) (id g) (mainNode g) (connectionsOut g) (connectionsIn g ++ [k])
     (name g) (type g) (category g) (iconPath g) (serviceName g)
     (moduleName g) (state g).
End NodeGroup.

(** ** The group map *)

(** [Map<string, NodeGroup>]: entries in insertion order, keys unique. *)
Definition GroupMap := list (string * NodeGroup.t).

Fixpoint map_get (k : string) (m : GroupMap) : option NodeGroup.t :=
  match m with
  | [] => None
  | (k', g) :: rest => if k' =? k then Some g else map_get k rest
  end.

(** [m.set(k, g)]: an existing key keeps its position, a new one goes last. *)
Fixpoint map_set (k : string) (g : NodeGroup.t) (m : GroupMap) : GroupMap :=
  match m with
  | [] => [(k, g)]
  | (k', g') :: rest =>
      if k' =? k then (k, g) :: rest else (k', g') :: map_set k g rest
  end.

(** [m.delete(k)] *)
Definition map_delete (k : string) (m : GroupMap) : GroupMap :=
  filter (fun e => negb (fst e =? k)) m.

(** In-place mutation of the group object held under key [k].  Every group
    object is created by one [set] and lives under one key, so a mutation
    through a reference to the object is a mutation of that entry. *)
Definition map_mutate (k : string) (f : NodeGroup.t -> NodeGroup.t)
  (m : GroupMap) : GroupMap :=
  map (fun e => if fst e =? k then (fst e, f (snd e)) else e) m.

Definition keys (m : GroupMap) : list string := map fst m.
Definition values (m : GroupMap) : list NodeGroup.t := map snd m.

(** ** Block classifier *)

Module Block.
Record t := mk {
  processedBlockId : string;
  isData : bool;
  isVariable : bool;
  isResource : bool;
  isLocal : bool;
  isOutput : bool;
  isProvider : bool;
  isModule : bool;
  isResourceWithName : bool;
  moduleName : string
}.
End Block.

Definition checkHclBlockType (blockId : string) : Block.t :=
  let '(moduleName, blockId) :=
    if startsWith "module." blockId
    then (nth 1 (split dot blockId) "", join "." (slice 2 (split dot blockId)))
    else ("", blockId) in
  (* !blockId && moduleName, as a truth value *)
  let isModule := (blockId =? "") && negb (moduleName =? "") in
  let isData := startsWith "data." blockId in
  let isVariable := startsWith "var." blockId in
  let isLocal := startsWith "local." blockId in
  let isOutput := startsWith "output." blockId in
  let isProvider := startsWith "provider[" blockId in
  let isResource := startsWith "aws_" blockId in
  let splitBlockId := split dot blockId in
  let isResourceWithName := isResource && Nat.ltb 1 (List.length splitBlockId) in
  let blockId :=
    if negb isResource && negb isModule
    then join "." (slice 1 splitBlockId) else blockId in
  Block.mk blockId isData isVariable isResource isLocal isOutput isProvider
           isModule isResourceWithName moduleName.

(** [resourceType] is the first dot segment starting with [aws_];
    [resourceName] is the first segment whose predecessor equals the type,
    cut at its first space.  When a type is found and no segment follows it,
    [filter(...)[0]] is [undefined] and [.split] throws. *)
Definition getResourceNameAndType (blockId : string)
  : result (option string * option string) :=
  let parts := split dot blockId in
  match filter (startsWith "aws_") parts with
  | [] => Ok (None, None)
  | resourceType :: _ =>
      match filteri (fun _ index =>
                       Nat.ltb 0 index &&
                       (nth (index - 1) parts "" =? resourceType)) parts with
      | [] => TypeError
      | s :: _ => Ok (Some resourceType, Some (hd "" (split space s)))
      end
  end.

(** ** Plan diff resolver *)

(** The change records of an address: [resource.address === addr] or
    [resource.address.startsWith(addr + "[")]; none without a plan. *)
Definition changesOf (planJsonObj : option Plan) (addr : string)
  : list ResourceChange :=
  match planJsonObj with
  | None => []
  | Some p =>
      filter (fun resource =>
                (address resource =? addr) ||
                startsWith (addr ++ "[") (address resource))
             (resource_changes p)
  end.

(** [["no-op", "read"].includes(s)] *)
Definition lowState (s : string) : bool := includes s ["no-op"; "read"].

(** One step of the fold of [addNodeToGroup] (lines 183-188). *)
Definition foldMain (generalState : string) (resourceChange : ResourceChange)
  : string :=
  let newState := join "-" (actions (change resourceChange)) in
  if negb (newState =? generalState) then
    if lowState newState && lowState generalState then "read"
    else if lowState generalState then newState else "update"
  else newState.

(** The general state of a main node, computed during seeding. *)
Definition generalStateMain (resourceChanges : list ResourceChange) : string :=
  fold_left foldMain resourceChanges "no-op".

(** One step of the fold of [getConnectedNodes] (lines 536-540). *)
Definition foldSatellite (generalState : string) (resourceChange : ResourceChange)
  : string :=
  let newState := join "-" (actions (change resourceChange)) in
  if negb (newState =? generalState) then
    if lowState newState && lowState generalState then "read" else "update"
  else newState.

(** The general state of an absorbed node, computed during expansion. *)
Definition generalStateSatellite (resourceChanges : list ResourceChange) : string :=
  fold_left foldSatellite resourceChanges "no-op".

(** ** Mapping table *)

Definition Table := list Row.t.

(** The column a seed is looked up in: [row[mainBlock ? "Main Diagram Blocks"
    : "Missing Resources"]]. *)
Definition seedColumn (mainBlock : bool) (row : Row.t) : string :=
  if mainBlock then Row.mainDiagramBlocks row else Row.missingResources row.

Definition rowMatches (mainBlock : bool) (resourceType : string) (row : Row.t)
  : bool :=
  includes resourceType (split comma (seedColumn mainBlock row)).

(** [nameAttribute] of lines 192-194. *)
Definition nameAttributeOf (mainBlock : bool) (resourceType : string)
  (row : Row.t) : string :=
  let resourceIndex :=
    if mainBlock
    then indexOf resourceType (split comma (Row.mainDiagramBlocks row))
    else None in
  let attributesArray := split comma (Row.argumentsForName row) in
  match resourceIndex with
  | None => "name"
  | Some i =>
      match nth_error attributesArray i with
      | Some a => if (a =? "") || (a =? "-") then "name" else a
      | None => "name"
      end
  end.

(** Display-name resolution of lines 196-206.  The second read
    [change?.after[seg0][seg1]] has no guard on [after] nor on
    [after[seg0]]. *)
Definition resolveName (nameAttribute : string)
  (resourceChanges : list ResourceChange) (resourceName : string)
  : result JsVal :=
  name <- match resourceChanges with
          | [] => Ok (JStr "")
          | first :: _ =>
              let a := after (change first) in
              if truthy a then
                byAttr <- js_get a nameAttribute ;;
                if truthy byAttr then Ok byAttr else js_get a "name"
              else Ok a
          end ;;
  if truthy name then Ok name
  else
    match resourceChanges with
    | first :: _ =>
        let path := split dot nameAttribute in
        if Nat.eqb (List.length path) 2 then
          inner <- js_get (after (change first)) (nth 0 path "") ;;
          js_get inner (nth 1 path "")
        else Ok (JStr resourceName)
    | [] => Ok (JStr resourceName)
    end.

(** ** Grouping engine *)

(** [addNodeToGroup]; [computeTerraformPlan] holds exactly when
    [planJsonObj] is defined, so the plan is one optional argument. *)
Definition addNodeToGroup (node : NodeModel.t) (nodeGroups : GroupMap)
  (mainBlock : bool) (jsonArray : Table) (planJsonObj : option Plan)
  : result GroupMap :=
  match nth_error (split space (NodeModel.id node)) 1 with
  | None => Ok nodeGroups
  | Some centralPart =>
      if centralPart =? "" then Ok nodeGroups else
      let b := checkHclBlockType centralPart in
      if Block.isResourceWithName b then
        ' (resourceType, resourceName) <-
            getResourceNameAndType (Block.processedBlockId b) ;;
        match resourceType, resourceName with
        | Some resourceType, Some resourceName =>
            if resourceName =? "" then Ok nodeGroups else
            let resourceChanges := changesOf planJsonObj centralPart in
            let generalState := generalStateMain resourceChanges in
            forEachM
              (fun row nodeGroups =>
                 if rowMatches mainBlock resourceType row then
                   let nameAttribute :=
                     nameAttributeOf mainBlock resourceType row in
                   name <- resolveName nameAttribute resourceChanges
                                       resourceName ;;
                   Ok (map_set centralPart
                         (NodeGroup.mk
                            [ {| nodeModel := node;
                                 resourceChanges := resourceChanges |} ]
                            centralPart
                            node
                            [] []
                            name
                            resourceType
                            (Row.simplifiedCategory row)
                            (trim (Row.iconPath row))
                            (Row.serviceName row)
                            (Block.moduleName b)
                            (if Nat.ltb 0 (List.length resourceChanges)
                             then generalState else "no-op"))
                         nodeGroups)
                 else Ok nodeGroups)
              jsonArray nodeGroups
        | _, _ => Ok nodeGroups
        end
      else Ok nodeGroups
  end.

(** [Array.from(nodeGroups.values()).some(group => group.nodes.some(n =>
    n.nodeModel.id === id))]: the claimed check. *)
Definition isNodePresent (nodeGroups : GroupMap) (nodeId : string) : bool :=
  existsb (fun group =>
             existsb (fun n => NodeModel.id (nodeModel n) =? nodeId)
                     (NodeGroup.nodes group))
          (values nodeGroups).

(** The table test of lines 519-523. *)
Definition absorbable (jsonArray : Table) (groupType resourceType : string)
  : bool :=
  existsb (fun row =>
             includes groupType (split comma (Row.mainDiagramBlocks row)) &&
             (includes resourceType (split comma (Row.missingResources row)) ||
              includes resourceType (split comma (Row.dataSources row))))
          jsonArray.

(** [e.targets[first ? 0 : 1].id] *)
Definition endpoint (first : bool) (e : EdgeModel) : string :=
  if first then targets0 e else targets1 e.

(** The mutation of lines 542-548: push the member, then fold its state. *)
Definition absorb (newNode : NodeModel.t) (resourceChanges : list ResourceChange)
  (planJsonObj : option Plan) (nodeGroup : NodeGroup.t) : NodeGroup.t :=
  let generalState := generalStateSatellite resourceChanges in
  let pushed :=
    NodeGroup.with_nodes
      (fun ns => ns ++ [ {| nodeModel := newNode;
                            resourceChanges := resourceChanges |} ])
      nodeGroup in
  NodeGroup.with_state
    (if negb (NodeGroup.state nodeGroup =? "no-op") ||
        (match planJsonObj with None => true | Some _ => false end)
     then NodeGroup.state nodeGroup
     else if negb (generalState =? "no-op") then "update" else generalState)
    pushed.

(** The callback of the [forEach] of [getConnectedNodes] (lines 504-556):
    what is done for one edge that touches the traversed node.  [recur]
    stands for the two recursive calls of lines 549-550. *)
Definition examineEdge
  (recur : NodeModel.t -> GroupMap -> bool -> result GroupMap)
  (key : string) (subgraph : SubgraphModel) (start : bool)
  (jsonArray : Table) (planJsonObj : option Plan)
  (edge : EdgeModel) (nodeGroups : GroupMap) : result GroupMap :=
  let edgeToId := endpoint (negb start) edge in
  match nth_error (split space edgeToId) 1 with
  | None => Ok nodeGroups
  | Some centralPart =>
      if centralPart =? "" then Ok nodeGroups else
      let b := checkHclBlockType centralPart in
      if Block.isResourceWithName b || Block.isData b then
        ' (resourceType, resourceName) <-
            getResourceNameAndType (Block.processedBlockId b) ;;
        match resourceType, resourceName, map_get key nodeGroups with
        | Some resourceType, Some resourceName, Some nodeGroup =>
            if negb (resourceName =? "") &&
               negb (isNodePresent nodeGroups edgeToId) &&
               absorbable jsonArray (NodeGroup.type nodeGroup) resourceType
            then
              match find (fun n => NodeModel.id n =? edgeToId)
                         (nodes subgraph) with
              | None => Ok nodeGroups
              | Some newNode =>
                  let resourceChanges := changesOf planJsonObj centralPart in
                  let nodeGroups :=
                    map_mutate key (absorb newNode resourceChanges planJsonObj)
                               nodeGroups in
                  nodeGroups <- recur newNode nodeGroups start ;;
                  recur newNode nodeGroups (negb start)
              end
            else Ok nodeGroups
        | _, _, _ => Ok nodeGroups
        end
      else Ok nodeGroups
  end.

(** [getConnectedNodes], with the group object named by its key in the map
    and the JavaScript call stack bounded by [fuel]. *)
Fixpoint getConnectedNodes (fuel : nat) (node : NodeModel.t) (key : string)
  (nodeGroups : GroupMap) (subgraph : SubgraphModel) (start : bool)
  (jsonArray : Table) (planJsonObj : option Plan) {struct fuel}
  : result GroupMap :=
  match fuel with
  | O => OutOfFuel
  | S fuel' =>
      forEachM
        (examineEdge
           (fun newNode nodeGroups start' =>
              getConnectedNodes fuel' newNode key nodeGroups subgraph start'
                                jsonArray planJsonObj)
           key subgraph start jsonArray planJsonObj)
        (filter (fun e => endpoint start e =? NodeModel.id node)
                (edges subgraph))
        nodeGroups
  end.

(** Seeding (lines 279-283): every node of every top-level subgraph. *)
Definition seedGroups (model : RootGraphModel) (jsonArray : Table)
  (planJsonObj : option Plan) : result GroupMap :=
  forEachM
    (fun subgraph nodeGroups =>
       forEachM (fun node nodeGroups =>
                   addNodeToGroup node nodeGroups true jsonArray planJsonObj)
                (nodes subgraph) nodeGroups)
    (subgraphs model) [].

(** Expansion of one group (the callback of lines 285-288). *)
Definition expandGroup (fuel : nat) (subgraph : SubgraphModel)
  (jsonArray : Table) (planJsonObj : option Plan) (key : string)
  (nodeGroups : GroupMap) : result GroupMap :=
  match map_get key nodeGroups with
  | None => Ok nodeGroups
  | Some nodeGroup =>
      nodeGroups <- getConnectedNodes fuel (NodeGroup.mainNode nodeGroup) key
                      nodeGroups subgraph true jsonArray planJsonObj ;;
      getConnectedNodes fuel (NodeGroup.mainNode nodeGroup) key
        nodeGroups subgraph false jsonArray planJsonObj
  end.

(** Expansion (lines 285-288) over [model.subgraphs[0]].  The map gains no
    key while it is traversed, so the traversal visits the keys it starts
    with; with no subgraph there is no group and nothing is read. *)
Definition expandGroups (fuel : nat) (model : RootGraphModel)
  (jsonArray : Table) (planJsonObj : option Plan) (nodeGroups : GroupMap)
  : result GroupMap :=
  match subgraphs model with
  | [] => Ok nodeGroups
  | subgraph :: _ =>
      forEachM (expandGroup fuel subgraph jsonArray planJsonObj)
               (keys nodeGroups) nodeGroups
  end.

(** Stack depth that the expansion of [model] can need. *)
Definition fuelFor (model : RootGraphModel) : nat :=
  match subgraphs model with
  | [] => 1
  | subgraph :: _ => S (List.length (nodes subgraph))
  end.

(** Seeding followed by expansion: the grouping of [parseModel] without the
    detailed mode. *)
Definition groupNodes (model : RootGraphModel) (jsonArray : Table)
  (planJsonObj : option Plan) : result GroupMap :=
  nodeGroups <- seedGroups model jsonArray planJsonObj ;;
  expandGroups (fuelFor model) model jsonArray planJsonObj nodeGroups.

(** The callback of the first sweep of pruning (lines 306-311): the group
    under [key] is deleted when its first member has no change record. *)
Definition pruneStep (key : string) (nodeGroups : GroupMap) : result GroupMap :=
  match map_get key nodeGroups with
  | None => Ok nodeGroups
  | Some nodeGroup =>
      match NodeGroup.nodes nodeGroup with
      | [] => TypeError
      | first :: _ =>
          if Nat.eqb (List.length (resourceChanges first)) 0
          then Ok (map_delete key nodeGroups)
          else Ok nodeGroups
      end
  end.

(** Plan-based pruning (lines 304-318), run when a plan is given and the
    show-inactive flag is off: the sweep over [Array.from(nodeGroups.keys())],
    then the filter of the members of every remaining group. *)
Definition pruneInactive (nodeGroups : GroupMap) : result GroupMap :=
  nodeGroups <- forEachM pruneStep (keys nodeGroups) nodeGroups ;;
  Ok (map (fun e =>
             (fst e,
              NodeGroup.with_nodes
                (filter (fun n => Nat.ltb 0 (List.length (resourceChanges n))))
                (snd e)))
          nodeGroups).

(** The owner of a node id: [Array.from(nodeGroups).filter(([id, group]) =>
    group.nodes.some(n => n.nodeModel.id === nodeId))[0]]. *)
Definition ownerOf (nodeGroups : GroupMap) (nodeId : string)
  : option (string * NodeGroup.t) :=
  hd_error
    (filter (fun e =>
               existsb (fun n => NodeModel.id (nodeModel n) =? nodeId)
                       (NodeGroup.nodes (snd e)))
            nodeGroups).

(** One edge of the connectivity resolver (lines 350-372).  [fromGroup] and
    [toGroup] are entry pairs of two separate [Array.from(nodeGroups)]
    calls, each of which allocates its pairs anew, so the reference test
    [fromGroup !== toGroup] holds whenever both are defined. *)
Definition connectEdge (edge : EdgeModel) (nodeGroups : GroupMap) : GroupMap :=
  match ownerOf nodeGroups (targets0 edge), ownerOf nodeGroups (targets1 edge) with
  | Some fromGroup, Some toGroup =>
      let fromGroupKey := fst fromGroup in
      let toGroupKey := fst toGroup in
      if negb (includes toGroupKey (NodeGroup.connectionsOut (snd fromGroup))) &&
         negb (includes fromGroupKey (NodeGroup.connectionsIn (snd toGroup)))
      then map_mutate toGroupKey (NodeGroup.push_in fromGroupKey)
             (map_mutate fromGroupKey (NodeGroup.push_out toGroupKey) nodeGroups)
      else nodeGroups
  | _, _ => nodeGroups
  end.

(** The connectivity resolver over the edges of [model.subgraphs[0]]. *)
Definition computeConnections (subgraph : SubgraphModel) (nodeGroups : GroupMap)
  : GroupMap :=
  fold_left (fun st edge => connectEdge edge st) (edges subgraph) nodeGroups.

(** ** Observations and invariants *)

(** The composite action tag of a record: [change.actions.join("-")]. *)
Definition tagOf (resourceChange : ResourceChange) : string :=
  join "-" (actions (change resourceChange)).

(** The connections of every group, in map order. *)
Definition connections (nodeGroups : GroupMap)
  : list (string * list string * list string) :=
  map (fun e => (fst e, NodeGroup.connectionsOut (snd e),
                 NodeGroup.connectionsIn (snd e))) nodeGroups.

(** The member ids of one group, in order. *)
Definition memberIdsOf (group : NodeGroup.t) : list string :=
  map (fun n => NodeModel.id (nodeModel n)) (NodeGroup.nodes group).

(** The member ids of every group, in map order. *)
Definition memberIds (nodeGroups : GroupMap) : list string :=
  flat_map memberIdsOf (values nodeGroups).





(** The classification of a node id as a resource: [isResource] of its
    block reference. *)
Definition resourceId (nodeId : string) : bool :=
  match nth_error (split space nodeId) 1 with
  | Some centralPart => Block.isResource (checkHclBlockType centralPart)
  | None => false
  end.

(** The classification that seeding and absorption accept: a resource with
    type and name, or a data block. *)
Definition groupableId (nodeId : string) : bool :=
  match nth_error (split space nodeId) 1 with
  | Some centralPart =>
      Block.isResourceWithName (checkHclBlockType centralPart) ||
      Block.isData (checkHclBlockType centralPart)
  | None => false
  end.

(** The first member of every group is its main node. *)
Definition mainFirst (e : string * NodeGroup.t) : Prop :=
  exists rcs others,
    NodeGroup.nodes (snd e) =
    {| nodeModel := NodeGroup.mainNode (snd e); resourceChanges := rcs |}
      :: others.

(** The map right after seeding: every group holds its main node only, and
    is keyed by the block reference of that node. *)
Definition seeded (e : string * NodeGroup.t) : Prop :=
  (exists rcs,
      NodeGroup.nodes (snd e) =
      [ {| nodeModel := NodeGroup.mainNode (snd e); resourceChanges := rcs |} ])
  /\ nth_error (split space (NodeModel.id (NodeGroup.mainNode (snd e)))) 1
     = Some (fst e)
  /\ Block.isResourceWithName (checkHclBlockType (fst e)) = true.

(** The invariant of seeding. *)
Definition SeedInv (st : GroupMap) : Prop :=
  NoDup (keys st) /\ Forall seeded st.

(** The partition invariant of the grouped map. *)
Definition GroupsInv (st : GroupMap) : Prop :=
  NoDup (keys st)
  /\ NoDup (memberIds st)
  /\ Forall (fun i => groupableId i = true) (memberIds st)
  /\ Forall mainFirst st.

(** No key is listed twice in a [connectionsOut]. *)
Definition singleEdges (st : GroupMap) : Prop :=
  forall k g, map_get k st = Some g -> NoDup (NodeGroup.connectionsOut g).

(** ** What pruning is to achieve *)

(** A member with at least one change record. *)
Definition hasChanges (m : Member) : bool :=
  Nat.ltb 0 (List.length (resourceChanges m)).

(** The first member of the group, its main node, has a change record. *)
Definition mainHasChanges (group : NodeGroup.t) : bool :=
  match NodeGroup.nodes group with
  | first :: _ => negb (Nat.eqb (List.length (resourceChanges first)) 0)
  | [] => false
  end.

(** Pruning as the specification words it: drop the groups whose main node
    has no change record, then drop the members without change records from
    the groups that remain. *)
Definition pruneSpec (nodeGroups : GroupMap) : GroupMap :=
  map (fun e => (fst e, NodeGroup.with_nodes (filter hasChanges) (snd e)))
      (filter (fun e => mainHasChanges (snd e)) nodeGroups).

(** ** Sample inputs *)

(** The node with id [i]. *)
Definition node (i : string) : NodeModel.t := NodeModel.mk i.

(** A row for instances, with a satellite type, a data source and a
    two-segment name attribute. *)
Definition instanceRow : Row.t :=
  Row.mk "aws_instance" "aws_security_group" "aws_ami"
         "EC2" " icons/ec2.png " "Compute" "tags.Name".

(** A row that lists [aws_subnet] as a main type. *)
Definition subnetRow : Row.t :=
  Row.mk "aws_vpc,aws_subnet" "" "" "VPC" "icons/vpc.png" "Networking" "".

(** A table in which two rows list [aws_instance] as a main type. *)
Definition overlappingTable : Table :=
  [ Row.mk "aws_instance" "" "" "EC2" "icons/ec2.png" "Compute" "-";
    Row.mk "aws_lambda_function,aws_instance" "" "" "Lambda"
           "icons/lambda.png" "Serverless" "-,tags.Name" ].

(** An instance that references its security group and an image data
    source; the security group references the instance back. *)
Definition sampleGraph : RootGraphModel :=
  {| subgraphs :=
       [ {| nodes := [ node "n1 aws_instance.web";
                       node "n2 aws_security_group.sg";
                       node "n3 data.aws_ami.ubuntu" ];
            edges := [ {| targets0 := "n1 aws_instance.web";
                          targets1 := "n2 aws_security_group.sg" |};
                       {| targets0 := "n1 aws_instance.web";
                          targets1 := "n3 data.aws_ami.ubuntu" |};
                       {| targets0 := "n2 aws_security_group.sg";
                          targets1 := "n1 aws_instance.web" |} ] |} ] |}.

(** A main node with an edge to a data block id that has no name segment. *)
Definition regionGraph : RootGraphModel :=
  {| subgraphs :=
       [ {| nodes := [ node "n1 aws_instance.web"; node "n2 data.aws_region" ];
            edges := [ {| targets0 := "n1 aws_instance.web";
                          targets1 := "n2 data.aws_region" |} ] |} ] |}.


(** A graph with a resource type that no table row lists. *)
Definition widgetGraph : RootGraphModel :=
  {| subgraphs :=
       [ {| nodes := [ node "n1 aws_unknown_widget.x" ]; edges := [] |} ] |}.

(** A plan that creates the instance. *)
Definition createPlan : Plan :=
  {| resource_changes :=
       [ {| address := "aws_instance.web";
            change := {| actions := ["create"]; after := JObj [("name", JStr "web-1")] |} |} ] |}.

(** A plan that destroys the instance: Terraform reports [after: null]. *)
Definition deletePlan : Plan :=
  {| resource_changes :=
       [ {| address := "aws_instance.web";
            change := {| actions := ["delete"]; after := JNull |} |} ] |}.

(** A change record with the given actions. *)
Definition record (acts : list string) : ResourceChange :=
  {| address := "aws_instance.web";
     change := {| actions := acts; after := JNull |} |}.

(** A grouped map with a plan: the instance is created, its security group
    is unchanged and absent from the plan, the bucket is not in the plan. *)
Definition plannedGroups : GroupMap :=
  [ ("aws_instance.web",
     NodeGroup.mk
       [ {| nodeModel := node "n1 aws_instance.web";
            resourceChanges := resource_changes createPlan |};
         {| nodeModel := node "n2 aws_security_group.sg";
            resourceChanges := [] |} ]
       "aws_instance.web" (node "n1 aws_instance.web") [] [] (JStr "web-1")
       "aws_instance" "Compute" "icons/ec2.png" "EC2" "" "create");
    ("aws_s3_bucket.logs",
     NodeGroup.mk
       [ {| nodeModel := node "n4 aws_s3_bucket.logs"; resourceChanges := [] |} ]
       "aws_s3_bucket.logs" (node "n4 aws_s3_bucket.logs") [] [] (JStr "logs")
       "aws_s3_bucket" "Storage" "icons/s3.png" "S3" "" "no-op") ].

(** ** Detailed mode *)

(** The detailed mode of [parseModel] (lines 290-301): every node of
    [model.subgraphs[0]] that no group holds is offered to [addNodeToGroup]
    with [mainBlock = false]. *)
Definition addOrphans (subgraph : SubgraphModel) (jsonArray : Table)
  (planJsonObj : option Plan) (nodeGroups : GroupMap) : result GroupMap :=
  forEachM
    (fun node nodeGroups =>
       if negb (isNodePresent nodeGroups (NodeModel.id node))
       then addNodeToGroup node nodeGroups false jsonArray planJsonObj
       else Ok nodeGroups)
    (nodes subgraph) nodeGroups.

(** ** Categories and tags *)

(** The sweep [Array.from(nodeGroups.keys()).forEach(key => { const g =
    nodeGroups.get(key); if (g && drop(g)) nodeGroups.delete(key) })] shared
    by the category filter (lines 322-327) and the tag filter (lines
    332-343). *)
Definition deleteWhere (drop : NodeGroup.t -> bool) (nodeGroups : GroupMap)
  : GroupMap :=
  fold_left
    (fun nodeGroups key =>
       match map_get key nodeGroups with
       | Some nodeGroup =>
           if drop nodeGroup then map_delete key nodeGroups else nodeGroups
       | None => nodeGroups
       end)
    (keys nodeGroups) nodeGroups.

(** The first loop of [findAndSetCategories] (lines 235-241). *)
Definition collectCategories (nodeGroups : GroupMap) : list string :=
  fold_left
    (fun catList nodeGroup =>
       if includes (NodeGroup.category nodeGroup) catList then catList
       else catList ++ [NodeGroup.category nodeGroup])
    (values nodeGroups) [].

(** [catList.sort((a, b) => a < b ? -1 : a > b ? 1 : 0)].  The comparator is
    a total order, so every stable sort gives the list computed here by
    insertion; [String.ltb] is the order of [<] on strings of ASCII
    characters. *)
Fixpoint insertSorted (x : string) (l : list string) : list string :=
  match l with
  | [] => [x]
  | y :: rest => if String.ltb x y then x :: l else y :: insertSorted x rest
  end.

Definition sortStrings (l : list string) : list string :=
  fold_left (fun sorted x => insertSorted x sorted) l [].

(** [findAndSetCategories]: the value stored in [categoriesRef]. *)
Definition findAndSetCategories (nodeGroups : GroupMap) : list string :=
  sortStrings (collectCategories nodeGroups).

(** The category filter of [parseModel] (lines 322-327). *)
Definition filterCategories (deselected : list string) (nodeGroups : GroupMap)
  : GroupMap :=
  deleteWhere (fun g => includes (NodeGroup.category g) deselected) nodeGroups.

Module Tag.
Record t := mk { name : string; value : JsVal }.
End Tag.

(** The key of index [i] of an array or string. *)
Definition indexKey (i : nat) : string :=
  NilZero.string_of_uint (Nat.to_uint i).

(** [Object.entries(v)] of a value that is neither [undefined] nor [null].
    The properties of a [JObj] are held in enumeration order; arrays and
    strings enumerate their indices; numbers and booleans have no entry. *)
Definition objectEntries (v : JsVal) : list (string * JsVal) :=
  match v with
  | JObj props => props
  | JArr l => combine (map indexKey (seq 0 (List.length l))) l
  | JStr s =>
      let chars := list_ascii_of_string s in
      combine (map indexKey (seq 0 (List.length chars)))
              (map (fun c => JStr (String c EmptyString)) chars)
  | _ => []
  end.

(** [resourceChange.change?.after?.tags_all] *)
Definition tagsAllOf (resourceChange : ResourceChange) : JsVal :=
  match after (change resourceChange) with
  | JObj props => lookupProp "tags_all" props
  | _ => JUndef
  end.

(** [Object.entries(resourceChange.change?.after?.tags_all || {})] *)
Definition tagEntries (resourceChange : ResourceChange)
  : list (string * JsVal) :=
  if truthy (tagsAllOf resourceChange)
  then objectEntries (tagsAllOf resourceChange) else [].

(** The tags that [findAndSetTags] collects from one group (lines 256-268). *)
Definition tagsOfGroup (nodeGroup : NodeGroup.t) : list Tag.t :=
  flat_map
    (fun n =>
       flat_map (fun resourceChange =>
                   map (fun kv => Tag.mk (fst kv) (snd kv))
                       (tagEntries resourceChange))
                (resourceChanges n))
    (NodeGroup.nodes nodeGroup).

(** [findAndSetTags]: the value stored in [tagsRef]. *)
Definition findAndSetTags (nodeGroups : GroupMap) : list Tag.t :=
  flat_map tagsOfGroup (values nodeGroups).

(** The test of the tag filter on one group (lines 334-340). *)
Definition hasSelectedTag (selectedTags : list string) (nodeGroup : NodeGroup.t)
  : bool :=
  existsb
    (fun n =>
       existsb (fun resourceChange =>
                  truthy (tagsAllOf resourceChange) &&
                  existsb (fun kv => includes (fst kv) selectedTags)
                          (tagEntries resourceChange))
               (resourceChanges n))
    (NodeGroup.nodes nodeGroup).

(** The tag filter of [parseModel] (lines 330-344). *)
Definition filterTags (selectedTags : list string) (nodeGroups : GroupMap)
  : GroupMap :=
  if Nat.ltb 0 (List.length selectedTags)
  then deleteWhere (fun g => negb (hasSelectedTag selectedTags g)) nodeGroups
  else nodeGroups.

(** ** The whole pass *)

(** The state that [parseModel] reads besides its arguments: the two mode
    flags ([storedData?.detailed || detailed] and [storedData?.showInactive
    || showInactive]) and the two selections held in refs. *)
Record Ambient := {
  detailed : bool;
  showInactive : bool;
  deselectedCategories : list string;
  selectedTags : list string
}.

(** What a pass leaves behind: the group map handed to [computeLayout], and
    the contents of [categoriesRef] and [tagsRef]. *)
Record Parsed := {
  groups : GroupMap;
  categories : list string;
  tags : list Tag.t
}.

(** Grouping (lines 277-301): seeding, expansion and, in the detailed mode,
    the orphans of [model.subgraphs[0]]. *)
Definition groupPhase (model : RootGraphModel) (jsonArray : Table)
  (planJsonObj : option Plan) (ambient : Ambient) : result GroupMap :=
  nodeGroups <- groupNodes model jsonArray planJsonObj ;;
  if detailed ambient then
    match subgraphs model with
    | [] => TypeError
    | subgraph :: _ => addOrphans subgraph jsonArray planJsonObj nodeGroups
    end
  else Ok nodeGroups.

(** The gate of pruning (line 304). *)
Definition prunePhase (planJsonObj : option Plan) (ambient : Ambient)
  (nodeGroups : GroupMap) : result GroupMap :=
  if negb (showInactive ambient) &&
     (match planJsonObj with Some _ => true | None => false end)
  then pruneInactive nodeGroups else Ok nodeGroups.

(** [parseModel] up to the call of [computeLayout] (lines 273-372), for a
    plan document that is already parsed. *)
Definition parseModel (model : RootGraphModel) (jsonArray : Table)
  (planJsonObj : option Plan) (ambient : Ambient) : result Parsed :=
  nodeGroups <- groupPhase model jsonArray planJsonObj ambient ;;
  nodeGroups <- prunePhase planJsonObj ambient nodeGroups ;;
  let categories := findAndSetCategories nodeGroups in
  let nodeGroups := filterCategories (deselectedCategories ambient) nodeGroups in
  let tags := findAndSetTags nodeGroups in
  let nodeGroups := filterTags (selectedTags ambient) nodeGroups in
  match subgraphs model with
  | [] => TypeError
  | subgraph :: _ =>
      Ok {| groups := computeConnections subgraph nodeGroups;
            categories := categories;
            tags := tags |}
  end.

(** ** Selections and shape ids *)

(** [toggleCategory] and [toggleTag] (lines 639-659): the new content of the
    selection. *)
Definition toggle (x : string) (selection : list string) : list string :=
  if includes x selection
  then filter (fun y => negb (y =? x)) selection
  else selection ++ [x].

(** The tag names offered by the layer menu (lines 705-707):
    [tags.map(tag => tag.name).filter((tag, index, self) =>
    self.indexOf(tag) === index)]. *)
Definition tagNames (tags : list Tag.t) : list string :=
  let self := map Tag.name tags in
  filteri (fun tag index =>
             match indexOf tag self with
             | Some i => Nat.eqb i index
             | None => false
             end)
          self.

Definition colon : ascii := ":"%char.

(** The id of the shape drawn for a group or a module frame (lines 418 and
    438): ["shape:" + id + ":" + date]. *)
Definition shapeIdOf (groupId date : string) : string :=
  "shape:" ++ groupId ++ ":" ++ date.

(** [shapeId.split(":")[1]] of [handleShapeSelectionChange] (line 589);
    [None] is [undefined]. *)
Definition groupIdOfShape (shapeId : string) : option string :=
  nth_error (split colon shapeId) 1.

(** The argument of [nodeChangesToString] in [handleShapeSelectionChange]
    (lines 591-595): the change records of the members of the first stored
    group with the id of the shape.  Reading [.nodes] of a missing group
    throws. *)
Definition selectedChanges (storedNodeGroups : list NodeGroup.t)
  (shapeId : string) : result (list ResourceChange) :=
  match filter (fun nodeGroup =>
                  match groupIdOfShape shapeId with
                  | Some i => NodeGroup.id nodeGroup =? i
                  | None => false
                  end)
               storedNodeGroups with
  | [] => TypeError
  | nodeGroup :: _ =>
      Ok (flat_map resourceChanges (NodeGroup.nodes nodeGroup))
  end.

(** What a selection does to the sidebar. *)
Inductive Sidebar : Type :=
| Hidden
    (** [setSidebarWidth(0); setDiffText("")] *)
| Changes (records : list ResourceChange)
    (** [setSidebarWidth(30)] and [setDiffText] of the text that
        [nodeChangesToString] makes of [records] *)
| Untouched.
    (** no setter is called *)

(** [handleShapeSelectionChange] (lines 583-600).  [planJson] is
    [storedData?.planJson], [None] when no data or no plan is stored;
    [storedNodeGroups] is [None] while the state is [undefined]. *)
Definition handleShapeSelectionChange (planJson : option Plan)
  (storedNodeGroups : option (list NodeGroup.t)) (shapeId : string)
  : result Sidebar :=
  if (match planJson with Some _ => false | None => true end)
     || (shapeId =? "")
  then Ok Hidden
  else
    match storedNodeGroups with
    | Some nodeGroups =>
        records <- selectedChanges nodeGroups shapeId ;;
        Ok (Changes records)
    | None => Ok Untouched
    end.

(** ** Further observations *)

(** [c] occurs in [s]. *)
Fixpoint contains (c : ascii) (s : string) : bool :=
  match s with
  | EmptyString => false
  | String c' rest => Ascii.eqb c' c || contains c rest
  end.

(** The number of kinds that a classification reports. *)
Definition kindCount (b : Block.t) : nat :=
  List.length
    (filter (fun flag => flag)
            [ Block.isData b; Block.isVariable b; Block.isLocal b;
              Block.isOutput b; Block.isProvider b; Block.isResource b;
              Block.isModule b ]).

(** A group as a run without a plan leaves it: state [no-op] and no change
    record on any member. *)
Definition planless (e : string * NodeGroup.t) : Prop :=
  NodeGroup.state (snd e) = "no-op"
  /\ Forall (fun m => resourceChanges m = []) (NodeGroup.nodes (snd e)).

(** A group record that agrees with its key, before connections are
    computed. *)
Definition recordOk (e : string * NodeGroup.t) : Prop :=
  NodeGroup.id (snd e) = fst e
  /\ nth_error (split space (NodeModel.id (NodeGroup.mainNode (snd e)))) 1
     = Some (fst e)
  /\ Block.isResourceWithName (checkHclBlockType (fst e)) = true
  /\ NodeGroup.moduleName (snd e) = Block.moduleName (checkHclBlockType (fst e))
  /\ hd_error (split dot (Block.processedBlockId (checkHclBlockType (fst e))))
     = Some (NodeGroup.type (snd e))
  /\ NodeGroup.connectionsOut (snd e) = []
  /\ NodeGroup.connectionsIn (snd e) = [].

(** A member with a change record whose tag is not [no-op]. *)
Definition memberChanged (m : Member) : bool :=
  existsb (fun rc => negb (tagOf rc =? "no-op")) (resourceChanges m).

(** [g'] is [g] after absorbing [added], in this order: members are only
    appended, the descriptive fields are kept, and the state moves from
    [no-op] to [update] exactly when an absorbed member is changed. *)
Definition extendsBy (subgraph : SubgraphModel) (added : list Member)
  (g g' : NodeGroup.t) : Prop :=
  NodeGroup.nodes g' = NodeGroup.nodes g ++ added
  /\ Forall (fun m => In (nodeModel m) (nodes subgraph)) added
  /\ NodeGroup.id g' = NodeGroup.id g
  /\ NodeGroup.mainNode g' = NodeGroup.mainNode g
  /\ NodeGroup.name g' = NodeGroup.name g
  /\ NodeGroup.type g' = NodeGroup.type g
  /\ NodeGroup.category g' = NodeGroup.category g
  /\ NodeGroup.iconPath g' = NodeGroup.iconPath g
  /\ NodeGroup.serviceName g' = NodeGroup.serviceName g
  /\ NodeGroup.moduleName g' = NodeGroup.moduleName g
  /\ NodeGroup.connectionsOut g' = NodeGroup.connectionsOut g
  /\ NodeGroup.connectionsIn g' = NodeGroup.connectionsIn g
  /\ NodeGroup.state g' =
     if (NodeGroup.state g =? "no-op") && existsb memberChanged added
     then "update" else NodeGroup.state g.

(** Every group of [st] is extended in [st'], under the same keys. *)
Definition expansionOf (subgraph : SubgraphModel) (st st' : GroupMap) : Prop :=
  keys st' = keys st
  /\ forall k g, map_get k st = Some g ->
       exists added g', map_get k st' = Some g' /\ extendsBy subgraph added g g'.

(** A group whose id classifies as a resource with a name. *)
Definition groupIdOk (g : NodeGroup.t) : Prop :=
  Block.isResourceWithName (checkHclBlockType (NodeGroup.id g)) = true.

(** Groups with tags in the plan: the instance is tagged [env] and [team],
    the bucket [env] only, the queue has no tag. *)
Definition taggedGroups : GroupMap :=
  [ ("aws_instance.web",
     NodeGroup.mk
       [ {| nodeModel := node "n1 aws_instance.web";
            resourceChanges :=
              [ {| address := "aws_instance.web";
                   change :=
                     {| actions := ["create"];
                        after := JObj [("tags_all",
                                        JObj [("env", JStr "prod");
                                              ("team", JStr "core")])] |} |} ]
         |} ]
       "aws_instance.web" (node "n1 aws_instance.web") [] [] (JStr "web")
       "aws_instance" "Compute" "icons/ec2.png" "EC2" "" "create");
    ("aws_s3_bucket.logs",
     NodeGroup.mk
       [ {| nodeModel := node "n4 aws_s3_bucket.logs";
            resourceChanges :=
              [ {| address := "aws_s3_bucket.logs";
                   change :=
                     {| actions := ["update"];
                        after := JObj [("tags_all",
                                        JObj [("env", JStr "dev")])] |} |} ]
         |} ]
       "aws_s3_bucket.logs" (node "n4 aws_s3_bucket.logs") [] [] (JStr "logs")
       "aws_s3_bucket" "Storage" "icons/s3.png" "S3" "" "update");
    ("aws_sqs_queue.jobs",
     NodeGroup.mk
       [ {| nodeModel := node "n6 aws_sqs_queue.jobs";
            resourceChanges :=
              [ {| address := "aws_sqs_queue.jobs";
                   change := {| actions := ["delete"]; after := JNull |} |} ]
         |} ]
       "aws_sqs_queue.jobs" (node "n6 aws_sqs_queue.jobs") [] [] (JStr "jobs")
       "aws_sqs_queue" "Application Integration" "icons/sqs.png" "SQS" ""
       "delete") ].

(** The key of the group that owns a node id. *)
Definition ownerKey (nodeGroups : GroupMap) (nodeId : string) : option string :=
  option_map fst (ownerOf nodeGroups nodeId).

(** A group with its connections taken off. *)
Definition sansConnections (g : NodeGroup.t) : NodeGroup.t :=
  NodeGroup.mk (NodeGroup.nodes g) (NodeGroup.id g) (NodeGroup.mainNode g)
               [] [] (NodeGroup.name g) (NodeGroup.type g)
               (NodeGroup.category g) (NodeGroup.iconPath g)
               (NodeGroup.serviceName g) (NodeGroup.moduleName g)
               (NodeGroup.state g).

(** The map without its connections: what the connectivity resolver must
    not touch. *)
Definition frameOf (nodeGroups : GroupMap) : GroupMap :=
  map (fun e => (fst e, sansConnections (snd e))) nodeGroups.

(** No group has a connection. *)
Definition unconnected (nodeGroups : GroupMap) : Prop :=
  Forall (fun e => NodeGroup.connectionsOut (snd e) = []
                   /\ NodeGroup.connectionsIn (snd e) = []) nodeGroups.

(** One of the edges [done] leads from a member of group [a] to a member of
    group [b] of [st0]. *)
Definition linkedBy (st0 : GroupMap) (done : list EdgeModel) (a b : string)
  : Prop :=
  exists e, In e done
            /\ ownerKey st0 (targets0 e) = Some a
            /\ ownerKey st0 (targets1 e) = Some b.

(** The connections of [s] record exactly the links of [done] over the
    groups of [st0]. *)
Definition connectedAs (st0 : GroupMap) (done : list EdgeModel) (s : GroupMap)
  : Prop :=
  frameOf s = frameOf st0
  /\ forall a ga,
       map_get a s = Some ga ->
       forall b,
         (In b (NodeGroup.connectionsOut ga) <-> linkedBy st0 done a b)
         /\ (In b (NodeGroup.connectionsIn ga) <-> linkedBy st0 done b a).

(** What the phases before the resolver keep. *)
Definition preConnected (st : GroupMap) : Prop :=
  NoDup (keys st) /\ NoDup (memberIds st) /\ Forall recordOk st.

(** What a completed pass guarantees for a group and its key: the id is the
    key, it classifies as a resource with a name, and the category is not
    deselected. *)
Definition presentable (deselected : list string) (k : string)
  (g : NodeGroup.t) : Prop :=
  NodeGroup.id g = k
  /\ groupIdOk g
  /\ ~ In (NodeGroup.category g) deselected.

(** Two instances joined by edges in both directions, and a bucket. *)
Definition pairGraph : SubgraphModel :=
  {| nodes := [ node "n1 aws_instance.web"; node "n2 aws_instance.db";
                node "n4 aws_s3_bucket.logs" ];
     edges := [ {| targets0 := "n1 aws_instance.web";
                   targets1 := "n2 aws_instance.db" |};
                {| targets0 := "n1 aws_instance.web";
                   targets1 := "n2 aws_instance.db" |};
                {| targets0 := "n2 aws_instance.db";
                   targets1 := "n1 aws_instance.web" |} ] |}.

Definition plainGroup (k nodeId category : string) : NodeGroup.t :=
  NodeGroup.mk [ {| nodeModel := node nodeId; resourceChanges := [] |} ]
               k (node nodeId) [] [] (JStr k) "aws_instance" category
               "icons/ec2.png" "EC2" "" "no-op".

Definition pairGroups : GroupMap :=
  [ ("aws_instance.web", plainGroup "aws_instance.web" "n1 aws_instance.web" "Compute");
    ("aws_instance.db", plainGroup "aws_instance.db" "n2 aws_instance.db" "Compute");
    ("aws_s3_bucket.logs", plainGroup "aws_s3_bucket.logs" "n4 aws_s3_bucket.logs" "Storage") ].

(** A plan that leaves the instance as it is and updates its security
    group. *)
Definition satellitePlan : Plan :=
  {| resource_changes :=
       [ {| address := "aws_instance.web";
            change := {| actions := ["no-op"];
                         after := JObj [("name", JStr "web-1")] |} |};
         {| address := "aws_security_group.sg";
            change := {| actions := ["update"];
                         after := JObj [("name", JStr "sg-1")] |} |} ] |}.

(** The sample graph right after seeding under [satellitePlan]. *)
Definition seededSample : GroupMap :=
  Eval vm_compute in
    match seedGroups sampleGraph [instanceRow] (Some satellitePlan) with
    | Ok st => st
    | _ => []
    end.

(** The instance group of [seededSample]. *)
Definition seededInstance : NodeGroup.t :=
  Eval vm_compute in
    match map_get "aws_instance.web" seededSample with
    | Some g => g
    | None => plainGroup "" "" ""
    end.

(** [seededSample] after expansion. *)
Definition expandedSample : GroupMap :=
  Eval vm_compute in
    match expandGroups (fuelFor sampleGraph) sampleGraph [instanceRow]
                       (Some satellitePlan) seededSample with
    | Ok st => st
    | _ => []
    end.

(** The first subgraph of the sample graph. *)
Definition sampleSubgraph : SubgraphModel :=
  Eval vm_compute in
    match subgraphs sampleGraph with
    | sg :: _ => sg
    | [] => {| nodes := []; edges := [] |}
    end.

(** The sample graph with one more security group that no edge touches. *)
Definition orphanGraph : RootGraphModel :=
  {| subgraphs :=
       [ {| nodes := nodes sampleSubgraph
                       ++ [ node "n5 aws_security_group.spare" ];
            edges := edges sampleSubgraph |} ] |}.

(** The ambient state of a first render. *)
Definition firstRender : Ambient :=
  {| detailed := false; showInactive := false;
     deselectedCategories := []; selectedTags := [] |}.

(** A group without what the plan contributes: the change records of its
    members, its display name and its state. *)
Definition erasePlan (g : NodeGroup.t) : NodeGroup.t :=
  NodeGroup.mk
    (map (fun m => {| nodeModel := nodeModel m; resourceChanges := [] |})
         (NodeGroup.nodes g))
    (NodeGroup.id g) (NodeGroup.mainNode g)
    (NodeGroup.connectionsOut g) (NodeGroup.connectionsIn g)
    (JStr "") (NodeGroup.type g) (NodeGroup.category g)
    (NodeGroup.iconPath g) (NodeGroup.serviceName g)
    (NodeGroup.moduleName g) "no-op".

(** The map without what the plan contributes. *)
Definition planFree (nodeGroups : GroupMap) : GroupMap :=
  map (fun e => (fst e, erasePlan (snd e))) nodeGroups.

(** * Properties *)

(** ** Sanity checks of the embedding *)

Example split_example :
  split dot "module.vpc.aws_subnet.this" = ["module"; "vpc"; "aws_subnet"; "this"].
Proof. reflexivity. Qed.

Example split_empty : split dot "" = [""].
Proof. reflexivity. Qed.

Example classify_data :
  Block.processedBlockId (checkHclBlockType "data.aws_ami.ubuntu") = "aws_ami.ubuntu"
  /\ Block.isData (checkHclBlockType "data.aws_ami.ubuntu") = true
  /\ Block.isResource (checkHclBlockType "data.aws_ami.ubuntu") = false.
Proof. repeat split. Qed.

Example name_and_type_example :
  getResourceNameAndType "aws_subnet.this (expand)" = Ok (Some "aws_subnet", Some "this").
Proof. reflexivity. Qed.

Example scenario_with_plan :
  option_map (fun st => map (fun e => (fst e, List.length (NodeGroup.nodes (snd e)), NodeGroup.state (snd e))) st)
    (match groupNodes sampleGraph [instanceRow] (Some createPlan) with Ok st => Some st | _ => None end)
  = Some [("aws_instance.web", 3, "create")].
Proof. vm_compute. reflexivity. Qed.

Example scenario_without_plan :
  exists st,
    groupNodes sampleGraph [instanceRow] None = Ok st
    /\ keys st = ["aws_instance.web"]
    /\ map NodeGroup.state (values st) = ["no-op"]
    /\ memberIds st = [ "n1 aws_instance.web"; "n2 aws_security_group.sg";
                        "n3 data.aws_ami.ubuntu" ].
Proof. eexists. split; [vm_compute; reflexivity|]. repeat split. Qed.

Example scenario_unmapped_type :
  groupNodes widgetGraph [instanceRow] None = Ok [].
Proof. reflexivity. Qed.

(** ** Generic facts *)

Lemma bind_Ok_inv {A B} (c : result A) (k : A -> result B) (b : B) :
  bind c k = Ok b -> exists a, c = Ok a /\ k a = Ok b.
Proof. destruct c; simpl; intros H; try discriminate. eauto. Qed.

Lemma forEachM_app {A S} (body : A -> S -> result S) (l1 l2 : list A) (s : S) :
  forEachM body (l1 ++ l2) s = bind (forEachM body l1 s) (forEachM body l2).
Proof.
  revert s. induction l1 as [|x l1 IH]; intros s; simpl; [reflexivity|].
  destruct (body x s); simpl; auto.
Qed.

Lemma forEachM_skip {A S} (body : A -> S -> result S) (l : list A) (s : S) :
  Forall (fun x => forall s', body x s' = Ok s') l -> forEachM body l s = Ok s.
Proof.
  induction 1 as [|x l Hx _ IH]; simpl; [reflexivity|].
  rewrite Hx. simpl. exact IH.
Qed.

(** A loop invariant for [forEach]: a property kept by every completed
    iteration holds when the loop completes. *)
Lemma forEachM_invariant {A S} (P : S -> Prop) (body : A -> S -> result S)
  (l : list A) :
  (forall x s s', In x l -> P s -> body x s = Ok s' -> P s') ->
  forall s s', P s -> forEachM body l s = Ok s' -> P s'.
Proof.
  induction l as [|x l IH]; simpl; intros Hbody s s' Hs Hrun.
  - injection Hrun as <-. exact Hs.
  - apply bind_Ok_inv in Hrun as (s1 & H1 & H2).
    apply (IH (fun y t t' Hy => Hbody y t t' (or_intror Hy)) s1 s'); auto.
    apply (Hbody x s s1); auto.
Qed.

Lemma map_get_set_same (k : string) (g : NodeGroup.t) (m : GroupMap) :
  map_get k (map_set k g m) = Some g.
Proof.
  induction m as [|[k' g'] m IH]; simpl.
  - rewrite String.eqb_refl. reflexivity.
  - destruct (k' =? k) eqn:E; simpl.
    + rewrite String.eqb_refl. reflexivity.
    + rewrite E. exact IH.
Qed.

(** ** The state fold of seeding *)

Lemma lowState_cases (s : string) :
  lowState s = (s =? "no-op") || (s =? "read").
Proof. unfold lowState, includes. simpl. rewrite orb_false_r. reflexivity. Qed.

Lemma foldMain_same (g : string) (r : ResourceChange) :
  tagOf r = g -> foldMain g r = g.
Proof.
  intros E. unfold foldMain. fold (tagOf r). rewrite E, String.eqb_refl.
  reflexivity.
Qed.

Lemma foldMain_nonlow_differs (g : string) (r : ResourceChange) :
  lowState g = false -> tagOf r <> g -> foldMain g r = "update".
Proof.
  intros Hg Hne. unfold foldMain. fold (tagOf r).
  apply String.eqb_neq in Hne. rewrite Hne, Hg, andb_false_r. reflexivity.
Qed.

Lemma foldMain_low_low (g : string) (r : ResourceChange) :
  lowState g = true -> lowState (tagOf r) = true -> tagOf r <> g ->
  foldMain g r = "read".
Proof.
  intros Hg Hr Hne. unfold foldMain. fold (tagOf r).
  apply String.eqb_neq in Hne. rewrite Hne, Hg, Hr. reflexivity.
Qed.

Lemma foldMain_low_overridden (g : string) (r : ResourceChange) :
  lowState g = true -> lowState (tagOf r) = false -> foldMain g r = tagOf r.
Proof.
  intros Hg Hr. unfold foldMain. fold (tagOf r).
  rewrite Hg, Hr. simpl. destruct (tagOf r =? g); reflexivity.
Qed.

(** From a state that is neither [no-op] nor [read], the fold keeps the state
    while every record repeats it and gives [update] otherwise. *)
Lemma fold_from_nonlow (rs : list ResourceChange) :
  forall g, lowState g = false ->
  fold_left foldMain rs g =
  if forallb (fun x => tagOf x =? g) rs then g else "update".
Proof.
  induction rs as [|r rs IH]; intros g Hg; simpl; [reflexivity|].
  destruct (tagOf r =? g) eqn:E.
  - apply String.eqb_eq in E. rewrite (foldMain_same g r E). simpl.
    apply IH; exact Hg.
  - apply String.eqb_neq in E. rewrite (foldMain_nonlow_differs g r Hg E).
    simpl. rewrite (IH "update" eq_refl).
    destruct (forallb _ rs); reflexivity.
Qed.

(** Over records that are all [no-op] or [read], the fold from a low state
    keeps it while every record repeats it and gives [read] otherwise. *)
Lemma fold_over_low (rs : list ResourceChange) :
  forall g, lowState g = true ->
  Forall (fun x => lowState (tagOf x) = true) rs ->
  fold_left foldMain rs g =
  if forallb (fun x => tagOf x =? g) rs then g else "read".
Proof.
  induction rs as [|r rs IH]; intros g Hg Hrs; simpl; [reflexivity|].
  inversion Hrs as [|? ? Hr Hrs']; subst.
  destruct (tagOf r =? g) eqn:E.
  - apply String.eqb_eq in E. rewrite (foldMain_same g r E). simpl.
    apply IH; assumption.
  - apply String.eqb_neq in E. rewrite (foldMain_low_low g r Hg Hr E).
    simpl. rewrite (IH "read" eq_refl Hrs').
    destruct (forallb _ rs); reflexivity.
Qed.

Lemma fold_over_low_is_low (rs : list ResourceChange) (g : string) :
  lowState g = true ->
  Forall (fun x => lowState (tagOf x) = true) rs ->
  lowState (fold_left foldMain rs g) = true.
Proof.
  intros Hg Hrs. rewrite (fold_over_low rs g Hg Hrs).
  destruct (forallb _ rs); [exact Hg | reflexivity].
Qed.

(** C2, as the specification words it, fails: a [create] record followed by a
    [no-op] record folds to [update], not [create]. *)
Lemma C2_create_then_noop_is_not_create :
  generalStateMain [record ["create"]; record ["no-op"]] <> "create".
Proof. vm_compute. discriminate. Qed.

(** C2 (amended): the fold is order-sensitive.  Leading [no-op]/[read]
    records are overridden by the first record [r] with another tag; from
    then on identical tags repeat as themselves and any record with a
    different tag, [no-op] and [read] included, gives [update].  Records that
    are all [no-op]/[read] give [no-op] when all are [no-op] and [read]
    otherwise.  So [no-op] then [create] is [create] while [create] then
    [no-op] is [update]; [no-op] and [read] give [read] and [create] and
    [delete] give [update] in either order. *)
Theorem C2_fold_precedence
  (lows : list ResourceChange) (r : ResourceChange) (rest : list ResourceChange)
  (Hlows : Forall (fun x => lowState (tagOf x) = true) lows)
  (Hr : lowState (tagOf r) = false) :
  generalStateMain lows =
    (if forallb (fun x => tagOf x =? "no-op") lows then "no-op" else "read")
  /\ generalStateMain (lows ++ r :: rest) =
       (if forallb (fun x => tagOf x =? tagOf r) rest then tagOf r else "update")
  /\ generalStateMain [record ["no-op"]; record ["create"]] = "create"
  /\ generalStateMain [record ["create"]; record ["no-op"]] = "update"
  /\ generalStateMain [record ["no-op"]; record ["read"]] = "read"
  /\ generalStateMain [record ["read"]; record ["no-op"]] = "read"
  /\ generalStateMain [record ["create"]; record ["delete"]] = "update"
  /\ generalStateMain [record ["delete"]; record ["create"]] = "update"
  /\ generalStateMain [record ["create"]; record ["create"]] = "create".
Proof.
  split; [|split; [|repeat split]].
  - unfold generalStateMain. apply fold_over_low; [reflexivity | exact Hlows].
  - unfold generalStateMain. rewrite fold_left_app. simpl.
    rewrite foldMain_low_overridden;
      [| apply fold_over_low_is_low; [reflexivity | exact Hlows] | exact Hr].
    apply fold_from_nonlow; exact Hr.
Qed.

Lemma C2_fold_precedence_witness :
  generalStateMain [record ["no-op"]; record ["read"]] = "read"
  /\ generalStateMain
       ([record ["no-op"]; record ["read"]] ++
        record ["delete"; "create"] :: [record ["delete"; "create"]])
     = "delete-create".
Proof.
  assert (Hlows : Forall (fun x => lowState (tagOf x) = true)
                         [record ["no-op"]; record ["read"]])
    by (repeat constructor).
  destruct (C2_fold_precedence [record ["no-op"]; record ["read"]]
              (record ["delete"; "create"]) [record ["delete"; "create"]]
              Hlows eq_refl) as (H1 & H2 & _).
  split; [exact H1 | exact H2].
Defined.

(** ** The two state folds *)

(** C3: the two folds differ.  On the single record [create] the fold of
    seeding gives [create] and the fold of expansion gives [update]: the
    latter lacks the branch in which a [no-op]/[read] state is overridden by
    the incoming tag. *)
Theorem C3_folds_diverge :
  generalStateMain [record ["create"]] = "create"
  /\ generalStateSatellite [record ["create"]] = "update"
  /\ generalStateMain [record ["create"]] <> generalStateSatellite [record ["create"]].
Proof. repeat split. vm_compute. discriminate. Qed.

(** ** Seeding one node *)

(** The last element of a list that passes a test splits the list. *)
Lemma last_match_split {A} (p : A -> bool) (l : list A) :
  existsb p l = true ->
  exists before x rest,
    l = before ++ x :: rest /\ p x = true /\ Forall (fun y => p y = false) rest.
Proof.
  induction l as [|a l IH]; simpl; intros H; [discriminate|].
  destruct (existsb p l) eqn:E.
  - destruct (IH eq_refl) as (before & x & rest & -> & Hx & Hrest).
    exists (a :: before), x, rest. auto.
  - rewrite orb_false_r in H. exists [], a, l. repeat split; auto.
    apply Forall_forall. intros y Hy.
    destruct (p y) eqn:Ey; [|reflexivity].
    assert (existsb p l = true) by (apply existsb_exists; eauto). congruence.
Qed.

(** What [addNodeToGroup] stores for a node that passes its tests when [row]
    is the last row of the table that lists the type: the group is built
    from [row], whatever the rows before it stored. *)
Lemma addNodeToGroup_last_row
  (n : NodeModel.t) (st st' : GroupMap) (mainBlock : bool)
  (before rest : Table) (row : Row.t) (planJsonObj : option Plan)
  (centralPart resourceType resourceName : string) :
  nth_error (split space (NodeModel.id n)) 1 = Some centralPart ->
  centralPart <> "" ->
  Block.isResourceWithName (checkHclBlockType centralPart) = true ->
  getResourceNameAndType (Block.processedBlockId (checkHclBlockType centralPart))
    = Ok (Some resourceType, Some resourceName) ->
  resourceName <> "" ->
  rowMatches mainBlock resourceType row = true ->
  Forall (fun r => rowMatches mainBlock resourceType r = false) rest ->
  addNodeToGroup n st mainBlock (before ++ row :: rest) planJsonObj = Ok st' ->
  exists name,
    resolveName (nameAttributeOf mainBlock resourceType row)
                (changesOf planJsonObj centralPart) resourceName = Ok name
    /\ map_get centralPart st' =
       Some (NodeGroup.mk
               [ {| nodeModel := n;
                    resourceChanges := changesOf planJsonObj centralPart |} ]
               centralPart n [] [] name resourceType
               (Row.simplifiedCategory row) (trim (Row.iconPath row))
               (Row.serviceName row)
               (Block.moduleName (checkHclBlockType centralPart))
               (if Nat.ltb 0 (List.length (changesOf planJsonObj centralPart))
                then generalStateMain (changesOf planJsonObj centralPart)
                else "no-op")).
Proof.
  intros Hcp Hne Hres Hnt Hname Hrow Hrest Hrun.
  unfold addNodeToGroup in Hrun. rewrite Hcp in Hrun.
  apply String.eqb_neq in Hne, Hname. rewrite Hne, Hres, Hnt in Hrun.
  simpl in Hrun. rewrite Hname in Hrun.
  rewrite forEachM_app in Hrun.
  apply bind_Ok_inv in Hrun as (st1 & _ & Hrun).
  simpl in Hrun. rewrite Hrow in Hrun.
  apply bind_Ok_inv in Hrun as (st2 & H2 & Hrun).
  apply bind_Ok_inv in H2 as (name & Hn & H2).
  injection H2 as <-.
  rewrite forEachM_skip in Hrun.
  - injection Hrun as <-. exists name. split; [exact Hn|].
    apply map_get_set_same.
  - eapply Forall_impl; [|exact Hrest]. intros r Hr s'. simpl.
    rewrite Hr. reflexivity.
Qed.

(** C5, as the specification words it, fails: with two rows listing
    [aws_instance], the first matching row is the [Compute] row and the
    seeded group is in category [Serverless]. *)
Lemma C5_first_matching_row_does_not_win :
  exists st g first,
    addNodeToGroup (node "n1 aws_instance.web") [] true overlappingTable None
      = Ok st
    /\ map_get "aws_instance.web" st = Some g
    /\ find (rowMatches true "aws_instance") overlappingTable = Some first
    /\ NodeGroup.category g <> Row.simplifiedCategory first
    /\ NodeGroup.serviceName g <> Row.serviceName first
    /\ NodeGroup.iconPath g <> trim (Row.iconPath first).
Proof.
  eexists. eexists. eexists.
  split; [vm_compute; reflexivity|].
  split; [vm_compute; reflexivity|].
  split; [vm_compute; reflexivity|].
  repeat split; vm_compute; discriminate.
Qed.

(** C5 (amended): when a resource type is listed in the relevant column of
    several rows, the last matching row in table order determines the
    category, service name, icon path and name attribute of the seeded
    group. *)
Theorem C5_last_matching_row_wins
  (n : NodeModel.t) (st st' : GroupMap)
  (before rest : Table) (row : Row.t) (planJsonObj : option Plan)
  (centralPart resourceType resourceName : string)
  (Hcentral : nth_error (split space (NodeModel.id n)) 1 = Some centralPart)
  (Hnonempty : centralPart <> "")
  (Hresource : Block.isResourceWithName (checkHclBlockType centralPart) = true)
  (Htype : getResourceNameAndType
             (Block.processedBlockId (checkHclBlockType centralPart))
           = Ok (Some resourceType, Some resourceName))
  (Hname : resourceName <> "")
  (Hrow : rowMatches true resourceType row = true)
  (Hlast : Forall (fun r => rowMatches true resourceType r = false) rest)
  (Hrun : addNodeToGroup n st true (before ++ row :: rest) planJsonObj = Ok st') :
  exists g,
    map_get centralPart st' = Some g
    /\ NodeGroup.category g = Row.simplifiedCategory row
    /\ NodeGroup.serviceName g = Row.serviceName row
    /\ NodeGroup.iconPath g = trim (Row.iconPath row)
    /\ resolveName (nameAttributeOf true resourceType row)
                   (changesOf planJsonObj centralPart) resourceName
       = Ok (NodeGroup.name g).
Proof.
  destruct (addNodeToGroup_last_row n st st' true before rest row planJsonObj
              centralPart resourceType resourceName
              Hcentral Hnonempty Hresource Htype Hname Hrow Hlast Hrun)
    as (name & Hn & Hget).
  eexists. split; [exact Hget|]. simpl. auto.
Qed.

Lemma C5_last_matching_row_wins_witness :
  exists g,
    map_get "aws_instance.web"
      [("aws_instance.web",
        NodeGroup.mk
          [ {| nodeModel := node "n1 aws_instance.web"; resourceChanges := [] |} ]
          "aws_instance.web" (node "n1 aws_instance.web") [] [] (JStr "web")
          "aws_instance" "Serverless" "icons/lambda.png" "Lambda" "" "no-op")]
      = Some g
    /\ NodeGroup.category g = "Serverless"
    /\ NodeGroup.serviceName g = "Lambda"
    /\ NodeGroup.iconPath g = "icons/lambda.png"
    /\ resolveName "tags.Name" [] "web" = Ok (NodeGroup.name g).
Proof.
  apply (C5_last_matching_row_wins (node "n1 aws_instance.web") [] _
           [Row.mk "aws_instance" "" "" "EC2" "icons/ec2.png" "Compute" "-"] []
           (Row.mk "aws_lambda_function,aws_instance" "" "" "Lambda"
                   "icons/lambda.png" "Serverless" "-,tags.Name")
           None "aws_instance.web" "aws_instance" "web").
  - reflexivity.
  - discriminate.
  - reflexivity.
  - reflexivity.
  - discriminate.
  - reflexivity.
  - constructor.
  - vm_compute. reflexivity.
Defined.

(** ** Module attachment *)

(** C7: the node id ["n1 module.vpc.aws_subnet.this"] is classified with
    module name [vpc] and residual id [aws_subnet.this], a resource with
    type [aws_subnet] and name [this]; whenever seeding stores a group for
    it, the group is keyed by the block reference and carries module name
    [vpc]. *)
Theorem C7_module_attachment
  (st st' : GroupMap) (jsonArray : Table) (planJsonObj : option Plan)
  (Hrow : existsb (rowMatches true "aws_subnet") jsonArray = true)
  (Hrun : addNodeToGroup (node "n1 module.vpc.aws_subnet.this") st true
            jsonArray planJsonObj = Ok st') :
  let b := checkHclBlockType "module.vpc.aws_subnet.this" in
  nth_error (split space "n1 module.vpc.aws_subnet.this") 1
    = Some "module.vpc.aws_subnet.this"
  /\ Block.moduleName b = "vpc"
  /\ Block.processedBlockId b = "aws_subnet.this"
  /\ Block.isResource b = true
  /\ Block.isResourceWithName b = true
  /\ getResourceNameAndType (Block.processedBlockId b)
     = Ok (Some "aws_subnet", Some "this")
  /\ exists g,
       map_get "module.vpc.aws_subnet.this" st' = Some g
       /\ NodeGroup.mainNode g = node "n1 module.vpc.aws_subnet.this"
       /\ NodeGroup.moduleName g = "vpc".
Proof.
  intros b. do 6 (split; [reflexivity|]).
  destruct (last_match_split _ _ Hrow) as (before & row & rest & -> & Hm & Hl).
  destruct (addNodeToGroup_last_row (node "n1 module.vpc.aws_subnet.this")
              st st' true before rest row planJsonObj
              "module.vpc.aws_subnet.this" "aws_subnet" "this")
    as (name & _ & Hget); auto; try discriminate.
  eexists. split; [exact Hget|]. split; reflexivity.
Qed.

Lemma C7_module_attachment_witness :
  exists g,
    map_get "module.vpc.aws_subnet.this"
      [("module.vpc.aws_subnet.this",
        NodeGroup.mk
          [ {| nodeModel := node "n1 module.vpc.aws_subnet.this";
               resourceChanges := [] |} ]
          "module.vpc.aws_subnet.this" (node "n1 module.vpc.aws_subnet.this")
          [] [] (JStr "this") "aws_subnet" "Networking" "icons/vpc.png" "VPC"
          "vpc" "no-op")] = Some g
    /\ NodeGroup.mainNode g = node "n1 module.vpc.aws_subnet.this"
    /\ NodeGroup.moduleName g = "vpc".
Proof.
  apply (C7_module_attachment [] _ [subnetRow] None).
  - reflexivity.
  - vm_compute. reflexivity.
Defined.

(** ** Uncaught errors *)

(** C9: name resolution is not total.  For a mapping row whose attribute
    path has two segments ([tags.Name]) and a first change record whose
    [after] is [null] (a destroyed resource), or whose [after] lacks [tags]
    and [name], the second read [after[seg0][seg1]] throws, and seeding the
    node aborts. *)
Theorem C9_name_resolution_throws :
  nameAttributeOf true "aws_instance" instanceRow = "tags.Name"
  /\ resolveName "tags.Name" (resource_changes deletePlan) "web" = TypeError
  /\ resolveName "tags.Name"
       [ {| address := "aws_instance.web";
            change := {| actions := ["create"];
                         after := JObj [("ami", JStr "ami-1")] |} |} ] "web"
     = TypeError
  /\ addNodeToGroup (node "n1 aws_instance.web") [] true [instanceRow]
       (Some deletePlan) = TypeError.
Proof. repeat split. Qed.

(** C10: extracting the resource name of a data block with a bare
    [aws_]-prefixed type throws.  Central part [data.aws_region] is a Data
    block with residual id [aws_region]; [getResourceNameAndType] finds the
    type, finds no segment after it and reads [.split] of [undefined]; the
    expansion that examines such a neighbour aborts. *)
Theorem C10_bare_data_type_throws :
  Block.isData (checkHclBlockType "data.aws_region") = true
  /\ Block.isResourceWithName (checkHclBlockType "data.aws_region") = false
  /\ Block.processedBlockId (checkHclBlockType "data.aws_region") = "aws_region"
  /\ getResourceNameAndType "aws_region" = TypeError
  /\ groupNodes regionGraph [instanceRow] None = TypeError.
Proof. repeat split. Qed.

(** ** Termination of the expansion *)



Lemma getResourceNameAndType_total (blockId : string) :
  getResourceNameAndType blockId <> OutOfFuel.
Proof.
  unfold getResourceNameAndType.
  destruct (filter _ _); [discriminate|].
  destruct (filteri _ _); discriminate.
Qed.







(** The three ways the examination of an edge can go, whatever the recursive
    calls do: nothing happens, the name extraction throws, or the far
    endpoint is an unclaimed graph node that is absorbed before the two
    recursive calls. *)
Lemma examineEdge_cases (key : string) (sg : SubgraphModel) (start : bool)
  (jsonArray : Table) (planJsonObj : option Plan) (edge : EdgeModel)
  (st : GroupMap) :
  (forall recur,
      examineEdge recur key sg start jsonArray planJsonObj edge st = Ok st)
  \/ (forall recur,
         examineEdge recur key sg start jsonArray planJsonObj edge st = TypeError)
  \/ exists centralPart g newNode,
       nth_error (split space (endpoint (negb start) edge)) 1 = Some centralPart
       /\ Block.isResourceWithName (checkHclBlockType centralPart)
          || Block.isData (checkHclBlockType centralPart) = true
       /\ map_get key st = Some g
       /\ isNodePresent st (endpoint (negb start) edge) = false
       /\ find (fun n => NodeModel.id n =? endpoint (negb start) edge) (nodes sg)
          = Some newNode
       /\ forall recur,
            examineEdge recur key sg start jsonArray planJsonObj edge st =
            bind (recur newNode
                    (map_mutate key
                       (absorb newNode (changesOf planJsonObj centralPart)
                               planJsonObj) st) start)
                 (fun st1 => recur newNode st1 (negb start)).
Proof.
  unfold examineEdge.
  destruct (nth_error _ 1) as [centralPart|]; [|auto].
  destruct (centralPart =? ""); [auto|].
  destruct (Block.isResourceWithName _ || Block.isData _) eqn:Hkind; [|auto].
  destruct (getResourceNameAndType _) as [[[rt|] [rn|]]| |] eqn:E; simpl; auto.
  - destruct (map_get key st) as [g|] eqn:Hg; [|auto].
    destruct (negb (rn =? "")); simpl; [|auto].
    destruct (isNodePresent st _) eqn:Hp; simpl; [auto|].
    destruct (absorbable _ _ _); [|auto].
    destruct (find _ (nodes sg)) as [newNode|] eqn:Hf; [|auto].
    right. right. exists centralPart, g, newNode. auto 10.
  - apply getResourceNameAndType_total in E. contradiction.
Qed.











(** ** Completion of the expansion *)









(** ** The partition invariant *)

Lemma keys_map_set_in (k : string) (g : NodeGroup.t) (st : GroupMap) (x : string) :
  In x (keys (map_set k g st)) -> x = k \/ In x (keys st).
Proof.
  induction st as [|[k' g'] st IH]; simpl.
  - intros [H|[]]; auto.
  - destruct (k' =? k) eqn:E; simpl.
    + apply String.eqb_eq in E. subst. tauto.
    + intros [H|H]; auto. apply IH in H. tauto.
Qed.

Lemma keys_map_set_NoDup (k : string) (g : NodeGroup.t) (st : GroupMap) :
  NoDup (keys st) -> NoDup (keys (map_set k g st)).
Proof.
  induction st as [|[k' g'] st IH]; simpl; intros Hnd.
  - constructor; [tauto|constructor].
  - inversion Hnd as [|? ? Hnotin Hnd']; subst.
    destruct (k' =? k) eqn:E; simpl.
    + apply String.eqb_eq in E. subst. constructor; assumption.
    + constructor; [|auto]. intros Hin.
      apply keys_map_set_in in Hin as [->|Hin]; [|contradiction].
      rewrite String.eqb_refl in E. discriminate.
Qed.

Lemma Forall_map_set (P : string * NodeGroup.t -> Prop) (k : string)
  (g : NodeGroup.t) (st : GroupMap) :
  Forall P st -> P (k, g) -> Forall P (map_set k g st).
Proof.
  induction st as [|[k' g'] st IH]; simpl; intros Hall Hnew.
  - constructor; [exact Hnew|constructor].
  - inversion Hall; subst. destruct (k' =? k); constructor; auto.
Qed.

Lemma keys_map_mutate (k : string) (f : NodeGroup.t -> NodeGroup.t)
  (st : GroupMap) :
  keys (map_mutate k f st) = keys st.
Proof.
  unfold keys, map_mutate. rewrite map_map. apply map_ext.
  intros [k' g]. simpl. destruct (k' =? k); reflexivity.
Qed.

Lemma map_mutate_absent (k : string) (f : NodeGroup.t -> NodeGroup.t)
  (st : GroupMap) :
  ~ In k (keys st) -> map_mutate k f st = st.
Proof.
  induction st as [|[k' g] st IH]; simpl; intros Hk; [reflexivity|].
  destruct (k' =? k) eqn:E.
  - apply String.eqb_eq in E. tauto.
  - f_equal. apply IH. tauto.
Qed.

Lemma map_get_in_keys (k : string) (st : GroupMap) (g : NodeGroup.t) :
  map_get k st = Some g -> In k (keys st).
Proof.
  induction st as [|[k' g'] st IH]; simpl; [discriminate|].
  destruct (k' =? k) eqn:E; intros H.
  - apply String.eqb_eq in E. auto.
  - auto.
Qed.

Lemma memberIds_cons (k : string) (g : NodeGroup.t) (st : GroupMap) :
  memberIds ((k, g) :: st) = memberIdsOf g ++ memberIds st.
Proof. reflexivity. Qed.

Lemma isNodePresent_In (st : GroupMap) (i : string) :
  isNodePresent st i = true <-> In i (memberIds st).
Proof.
  unfold isNodePresent, memberIds. rewrite existsb_exists, in_flat_map.
  split; intros (g & Hg & H); exists g; split; auto.
  - apply existsb_exists in H as (m & Hm & E). apply String.eqb_eq in E.
    apply in_map_iff. eauto.
  - apply in_map_iff in H as (m & E & Hm). apply existsb_exists.
    exists m. split; [exact Hm|]. apply String.eqb_eq. exact E.
Qed.

(** Absorption adds exactly one id to the members of the map. *)
Lemma memberIds_absorb (key : string) (n : NodeModel.t)
  (rcs : list ResourceChange) (planJsonObj : option Plan) (st : GroupMap)
  (g : NodeGroup.t) :
  NoDup (keys st) -> map_get key st = Some g ->
  Permutation (memberIds (map_mutate key (absorb n rcs planJsonObj) st))
              (NodeModel.id n :: memberIds st).
Proof.
  induction st as [|[k g'] st IH]; simpl; intros Hnd Hget; [discriminate|].
  inversion Hnd as [|? ? Hnotin Hnd']; subst.
  destruct (k =? key) eqn:E.
  - apply String.eqb_eq in E. subst k.
    rewrite (map_mutate_absent key _ st Hnotin).
    rewrite !memberIds_cons. unfold memberIdsOf at 1. simpl.
    rewrite map_app. simpl. fold (memberIdsOf g').
    rewrite <- app_assoc. simpl. symmetry. apply Permutation_middle.
  - rewrite !memberIds_cons.
    rewrite (IH Hnd' Hget). symmetry. apply Permutation_middle.
Qed.

Lemma Forall_map_mutate (P : string * NodeGroup.t -> Prop) (k : string)
  (f : NodeGroup.t -> NodeGroup.t) (st : GroupMap) :
  (forall g, P (k, g) -> P (k, f g)) ->
  Forall P st -> Forall P (map_mutate k f st).
Proof.
  intros Hf. induction 1 as [|[k' g] st Hg _ IH]; simpl; constructor; auto.
  destruct (k' =? k) eqn:E; [|exact Hg].
  apply String.eqb_eq in E. subst. simpl. auto.
Qed.

Lemma GroupsInv_absorb (key : string) (n : NodeModel.t)
  (rcs : list ResourceChange) (planJsonObj : option Plan) (st : GroupMap)
  (g : NodeGroup.t) :
  GroupsInv st -> map_get key st = Some g ->
  isNodePresent st (NodeModel.id n) = false ->
  groupableId (NodeModel.id n) = true ->
  GroupsInv (map_mutate key (absorb n rcs planJsonObj) st).
Proof.
  intros (Hk & Hnd & Hkind & Hmain) Hget Hp Hg.
  pose proof (memberIds_absorb key n rcs planJsonObj st g Hk Hget) as Hperm.
  repeat split.
  - rewrite keys_map_mutate. exact Hk.
  - apply (Permutation_NoDup (Permutation_sym Hperm)).
    constructor; [|exact Hnd]. intros Hin.
    apply isNodePresent_In in Hin. congruence.
  - apply (Permutation_Forall (Permutation_sym Hperm)).
    constructor; assumption.
  - apply Forall_map_mutate; [|exact Hmain].
    intros g0 (rcs0 & others & Hn). unfold mainFirst. simpl in *.
    rewrite Hn. simpl. eauto.
Qed.

(** Every call of [getConnectedNodes] that completes keeps the invariant. *)
Lemma getConnectedNodes_GroupsInv (sg : SubgraphModel) (key : string)
  (jsonArray : Table) (planJsonObj : option Plan) :
  forall fuel n st start st',
    GroupsInv st ->
    getConnectedNodes fuel n key st sg start jsonArray planJsonObj = Ok st' ->
    GroupsInv st'.
Proof.
  induction fuel as [|fuel IH]; intros n st start st' Hinv Hrun;
    [discriminate|].
  simpl in Hrun. revert st st' Hinv Hrun. apply forEachM_invariant.
  intros edge s s' _ Hs Hstep.
  destruct (examineEdge_cases key sg start jsonArray planJsonObj edge s)
    as [H|[H|(cp & g & newNode & Hcp & Hkind & Hg & Hp & Hf & H)]];
    rewrite H in Hstep; [congruence|discriminate|].
  apply find_some in Hf as [_ Hid]. apply String.eqb_eq in Hid.
  apply bind_Ok_inv in Hstep as (s1 & H1 & H2).
  apply IH in H2; [exact H2|]. apply IH in H1; [exact H1|].
  apply (GroupsInv_absorb key newNode _ planJsonObj s g); auto.
  - rewrite Hid. exact Hp.
  - unfold groupableId. rewrite Hid, Hcp. exact Hkind.
Qed.

Lemma expandGroups_GroupsInv (fuel : nat) (model : RootGraphModel)
  (jsonArray : Table) (planJsonObj : option Plan) (st st' : GroupMap) :
  GroupsInv st ->
  expandGroups fuel model jsonArray planJsonObj st = Ok st' -> GroupsInv st'.
Proof.
  unfold expandGroups. destruct (subgraphs model) as [|sg ?].
  - intros H E. injection E as <-. exact H.
  - apply forEachM_invariant. intros key s s' _ Hs. unfold expandGroup.
    destruct (map_get key s) as [g|]; [|congruence].
    intros Hrun. apply bind_Ok_inv in Hrun as (s1 & H1 & H2).
    eapply getConnectedNodes_GroupsInv; [|exact H2].
    eapply getConnectedNodes_GroupsInv; [|exact H1]. exact Hs.
Qed.

Lemma addNodeToGroup_SeedInv (n : NodeModel.t) (st st' : GroupMap)
  (mainBlock : bool) (jsonArray : Table) (planJsonObj : option Plan) :
  SeedInv st ->
  addNodeToGroup n st mainBlock jsonArray planJsonObj = Ok st' ->
  SeedInv st'.
Proof.
  unfold addNodeToGroup.
  destruct (nth_error _ 1) as [centralPart|] eqn:Hcp; [|congruence].
  destruct (centralPart =? ""); [congruence|].
  destruct (Block.isResourceWithName _) eqn:Hres; [|congruence].
  destruct (getResourceNameAndType _) as [[[rt|] [rn|]]| |]; simpl;
    try congruence.
  destruct (rn =? ""); [congruence|].
  apply forEachM_invariant. intros row s s' _ (Hk & Hall).
  destruct (rowMatches _ _ _);
    [|intros E; injection E as <-; split; assumption].
  intros Hrun. apply bind_Ok_inv in Hrun as (name & _ & E).
  injection E as <-. split.
  - apply keys_map_set_NoDup. exact Hk.
  - apply Forall_map_set; [exact Hall|].
    split; [|split]; simpl; eauto.
Qed.

Lemma seedGroups_SeedInv (model : RootGraphModel) (jsonArray : Table)
  (planJsonObj : option Plan) (st : GroupMap) :
  seedGroups model jsonArray planJsonObj = Ok st -> SeedInv st.
Proof.
  unfold seedGroups.
  apply (forEachM_invariant SeedInv).
  - intros sg s s' _ Hs. apply (forEachM_invariant SeedInv); [|exact Hs].
    intros n t t' _. apply addNodeToGroup_SeedInv.
  - split; constructor.
Qed.

Lemma seeded_members (st : GroupMap) (i : string) :
  Forall seeded st -> In i (memberIds st) ->
  exists k, nth_error (split space i) 1 = Some k /\ In k (keys st)
            /\ Block.isResourceWithName (checkHclBlockType k) = true.
Proof.
  induction 1 as [|[k g] st ((rcs & Hn) & Hcp & Hres) _ IH]; simpl;
    [tauto|].
  rewrite memberIds_cons, in_app_iff. unfold memberIdsOf. simpl in *.
  rewrite Hn. simpl. intros [[<-|[]]|Hin].
  - exists k. auto.
  - destruct (IH Hin) as (k' & ? & ? & ?). exists k'. auto.
Qed.

Lemma SeedInv_GroupsInv (st : GroupMap) : SeedInv st -> GroupsInv st.
Proof.
  intros (Hk & Hall). split; [exact Hk|]. split; [|split].
  - induction Hall as [|[k g] st Hs Hall IH]; [constructor|].
    inversion Hk as [|? ? Hnotin Hk']; subst.
    rewrite memberIds_cons. destruct Hs as ((rcs & Hn) & Hcp & _).
    unfold memberIdsOf. cbn [snd fst] in *. rewrite Hn.
    cbn [map nodeModel app].
    constructor; [|auto]. intros Hin.
    destruct (seeded_members st _ Hall Hin) as (k' & Hcp' & Hin' & _).
    rewrite Hcp in Hcp'. injection Hcp' as <-. contradiction.
  - apply Forall_forall. intros i Hin.
    destruct (seeded_members st i Hall Hin) as (k & Hcp & _ & Hres).
    unfold groupableId. rewrite Hcp, Hres. reflexivity.
  - eapply Forall_impl; [|exact Hall].
    intros [k g] ((rcs & Hn) & _). exists rcs, []. exact Hn.
Qed.

Lemma groupNodes_GroupsInv (model : RootGraphModel) (jsonArray : Table)
  (planJsonObj : option Plan) (st : GroupMap) :
  groupNodes model jsonArray planJsonObj = Ok st -> GroupsInv st.
Proof.
  unfold groupNodes. intros Hrun.
  apply bind_Ok_inv in Hrun as (s0 & Hseed & Hexp).
  eapply expandGroups_GroupsInv; [|exact Hexp].
  apply SeedInv_GroupsInv. eapply seedGroups_SeedInv. exact Hseed.
Qed.

(** C1, as the specification words it, fails: the sample graph absorbs the
    data block [n3 data.aws_ami.ubuntu] into the instance group, and that
    node is not classified as a resource. *)
Lemma C1_data_node_is_member :
  exists st,
    groupNodes sampleGraph [instanceRow] None = Ok st
    /\ In "n3 data.aws_ami.ubuntu" (memberIds st)
    /\ resourceId "n3 data.aws_ami.ubuntu" = false
    /\ ~ Forall (fun i => resourceId i = true) (memberIds st).
Proof.
  eexists. split; [vm_compute; reflexivity|].
  split; [simpl; tauto|]. split; [reflexivity|].
  intros Hall. rewrite Forall_forall in Hall.
  specialize (Hall "n3 data.aws_ami.ubuntu"). simpl in Hall.
  assert (resourceId "n3 data.aws_ami.ubuntu" = true) by (apply Hall; tauto).
  discriminate.
Qed.

(** C1 (amended): after grouping completes and before any filter runs, for
    every graph, table and plan (without the detailed mode), the keys of the
    map are distinct, each node id occurs in the member lists of the groups
    at most once over the whole map, and every member id belongs to a node
    classified as a resource with type and name or as a data block. *)
Theorem C1_partition_invariant
  (model : RootGraphModel) (jsonArray : Table) (planJsonObj : option Plan)
  (st : GroupMap)
  (Hrun : groupNodes model jsonArray planJsonObj = Ok st) :
  NoDup (keys st)
  /\ NoDup (memberIds st)
  /\ Forall (fun i => groupableId i = true) (memberIds st).
Proof.
  destruct (groupNodes_GroupsInv model jsonArray planJsonObj st Hrun)
    as (Hk & Hnd & Hkind & _).
  auto.
Qed.

Lemma C1_partition_invariant_witness :
  exists st,
    groupNodes sampleGraph [instanceRow] (Some createPlan) = Ok st
    /\ NoDup (keys st)
    /\ NoDup (memberIds st)
    /\ Forall (fun i => groupableId i = true) (memberIds st).
Proof.
  eexists. split; [vm_compute; reflexivity|].
  apply (C1_partition_invariant sampleGraph [instanceRow] (Some createPlan)).
  vm_compute. reflexivity.
Defined.

(** ** Plan-based pruning *)

Lemma keys_filter_NoDup (p : string * NodeGroup.t -> bool) (st : GroupMap) :
  NoDup (keys st) -> NoDup (keys (filter p st)).
Proof.
  induction st as [|e st IH]; simpl; intros Hnd; [constructor|].
  inversion Hnd as [|? ? Hnotin Hnd']; subst.
  destruct (p e); simpl; auto. constructor; auto.
  intros Hin. apply Hnotin. unfold keys in *.
  apply in_map_iff in Hin as (e' & E & Hin). apply filter_In in Hin as [Hin _].
  apply in_map_iff. eauto.
Qed.

Lemma map_get_In (k : string) (g : NodeGroup.t) (st : GroupMap) :
  NoDup (keys st) -> In (k, g) st -> map_get k st = Some g.
Proof.
  induction st as [|[k' g'] st IH]; simpl; intros Hnd Hin; [tauto|].
  inversion Hnd as [|? ? Hnotin Hnd']; subst.
  destruct Hin as [E|Hin].
  - injection E as -> ->. rewrite String.eqb_refl. reflexivity.
  - destruct (k' =? k) eqn:E; [|auto].
    apply String.eqb_eq in E. subst. exfalso. apply Hnotin.
    unfold keys. apply in_map_iff. exists (k, g). auto.
Qed.

Lemma map_get_absent (k : string) (st : GroupMap) :
  map_get k st = None -> ~ In k (keys st).
Proof.
  induction st as [|[k' g'] st IH]; simpl; [tauto|].
  destruct (k' =? k) eqn:E; [discriminate|].
  apply String.eqb_neq in E. intros H [E'|Hin]; [congruence|].
  exact (IH H Hin).
Qed.

Lemma pruneStep_filter (key : string) (st : GroupMap) :
  NoDup (keys st) -> Forall mainFirst st ->
  pruneStep key st =
  Ok (filter (fun e => negb (fst e =? key) || mainHasChanges (snd e)) st).
Proof.
  intros Hnd Hmain. unfold pruneStep.
  destruct (map_get key st) as [g|] eqn:Hget.
  - assert (Hsame : forall e, In e st -> fst e = key -> snd e = g).
    { intros [k' g'] Hin E. simpl in *. subst k'.
      apply (map_get_In _ _ _ Hnd) in Hin. congruence. }
    assert (Hin : In (key, g) st).
    { clear -Hget. induction st as [|[k' g'] st IH]; simpl in *; [discriminate|].
      destruct (k' =? key) eqn:E; [|auto].
      apply String.eqb_eq in E. injection Hget as ->. subst. auto. }
    rewrite Forall_forall in Hmain.
    destruct (Hmain _ Hin) as (rcs & others & Hn). simpl in Hn.
    rewrite Hn. simpl.
    destruct (Nat.eqb (List.length rcs) 0) eqn:Elen; f_equal.
    + unfold map_delete. apply filter_ext_in. intros e He.
      destruct (fst e =? key) eqn:E; simpl; [|reflexivity].
      apply String.eqb_eq in E. rewrite (Hsame e He E).
      unfold mainHasChanges. rewrite Hn. simpl. rewrite Elen. reflexivity.
    + symmetry. apply forallb_filter_id. apply forallb_forall. intros e He.
      destruct (fst e =? key) eqn:E; simpl; [|reflexivity].
      apply String.eqb_eq in E. rewrite (Hsame e He E).
      unfold mainHasChanges. rewrite Hn. simpl. rewrite Elen. reflexivity.
  - f_equal. symmetry. apply forallb_filter_id. apply forallb_forall.
    intros e He. destruct (fst e =? key) eqn:E; simpl; [|reflexivity].
    apply String.eqb_eq in E. exfalso.
    apply (map_get_absent _ _ Hget). unfold keys. apply in_map_iff. eauto.
Qed.

Lemma filter_filter {A} (p q : A -> bool) (l : list A) :
  filter p (filter q l) = filter (fun x => q x && p x) l.
Proof.
  induction l as [|x l IH]; simpl; [reflexivity|].
  destruct (q x); simpl; [destruct (p x)|]; rewrite IH; reflexivity.
Qed.

Lemma Forall_filter {A} (P : A -> Prop) (p : A -> bool) (l : list A) :
  Forall P l -> Forall P (filter p l).
Proof.
  induction 1 as [|x l Hx _ IH]; simpl; [constructor|].
  destruct (p x); auto.
Qed.

Lemma pruneSweep_filter (ks : list string) :
  forall st, NoDup (keys st) -> Forall mainFirst st ->
  forEachM pruneStep ks st =
  Ok (filter (fun e =>
                forallb (fun k => negb (fst e =? k) || mainHasChanges (snd e)) ks)
             st).
Proof.
  induction ks as [|k ks IH]; intros st Hnd Hmain; simpl.
  - f_equal. symmetry. apply forallb_filter_id. apply forallb_forall. auto.
  - rewrite (pruneStep_filter k st Hnd Hmain). simpl.
    rewrite IH; [| apply keys_filter_NoDup; exact Hnd
                 | apply Forall_filter; exact Hmain ].
    rewrite filter_filter. reflexivity.
Qed.

Lemma map_get_pruneSpec (k : string) (st : GroupMap) :
  NoDup (keys st) ->
  map_get k (pruneSpec st) =
  match map_get k st with
  | Some g => if mainHasChanges g
              then Some (NodeGroup.with_nodes (filter hasChanges) g)
              else None
  | None => None
  end.
Proof.
  unfold pruneSpec.
  induction st as [|[k' g'] st IH]; simpl; intros Hnd; [reflexivity|].
  inversion Hnd as [|? ? Hnotin Hnd']; subst.
  destruct (mainHasChanges g') eqn:Em; simpl.
  - destruct (k' =? k); [rewrite Em; reflexivity|auto].
  - rewrite (IH Hnd'). destruct (k' =? k) eqn:E; [|reflexivity].
    rewrite Em. apply String.eqb_eq in E. subst k'.
    destruct (map_get k st) as [g|] eqn:Hget; [|reflexivity].
    apply map_get_in_keys in Hget. contradiction.
Qed.

(** The two sweeps of pruning compute [pruneSpec]. *)
Lemma pruneInactive_pruneSpec (st : GroupMap) :
  NoDup (keys st) -> Forall mainFirst st ->
  pruneInactive st = Ok (pruneSpec st).
Proof.
  intros Hkeys Hmain. unfold pruneInactive.
  rewrite (pruneSweep_filter (keys st) st Hkeys Hmain). simpl.
  unfold pruneSpec. do 2 f_equal. apply filter_ext_in. intros e He.
  destruct (mainHasChanges (snd e)) eqn:Em.
  - apply forallb_forall. intros k _. apply orb_true_r.
  - apply not_true_is_false. intros Hall.
    rewrite forallb_forall in Hall.
    specialize (Hall (fst e)). rewrite String.eqb_refl in Hall.
    simpl in Hall. assert (false = true); [|discriminate].
    apply Hall. unfold keys. apply in_map. exact He.
Qed.

(** C8: with a plan and the show-inactive flag off, the pruning step of the
    pass removes exactly the groups whose main node has no change record
    and, from every surviving group, exactly the members whose change-record
    list is empty; a group whose main node has a change record survives with
    all its changed members, in their order. *)
Theorem C8_pruning_exact
  (plan : Plan) (ambient : Ambient) (st : GroupMap)
  (Hflag : showInactive ambient = false)
  (Hkeys : NoDup (keys st))
  (Hmain : Forall mainFirst st) :
  prunePhase (Some plan) ambient st = Ok (pruneSpec st)
  /\ (forall k g,
         map_get k st = Some g ->
         map_get k (pruneSpec st) =
         if mainHasChanges g
         then Some (NodeGroup.with_nodes (filter hasChanges) g)
         else None)
  /\ (forall k, map_get k st = None -> map_get k (pruneSpec st) = None)
  /\ (forall g m,
         In m (NodeGroup.nodes (NodeGroup.with_nodes (filter hasChanges) g))
         <-> In m (NodeGroup.nodes g) /\ resourceChanges m <> []).
Proof.
  split; [|split; [|split]].
  - unfold prunePhase. rewrite Hflag. simpl.
    apply pruneInactive_pruneSpec; assumption.
  - intros k g Hget. rewrite (map_get_pruneSpec k st Hkeys), Hget. reflexivity.
  - intros k Hget. rewrite (map_get_pruneSpec k st Hkeys), Hget. reflexivity.
  - intros g m. simpl. rewrite filter_In. unfold hasChanges.
    destruct (resourceChanges m); simpl; split; intros [H1 H2]; split; auto;
      try discriminate; congruence.
Qed.

Lemma C8_pruning_exact_witness :
  prunePhase (Some createPlan) firstRender plannedGroups
  = Ok (pruneSpec plannedGroups)
  /\ keys (pruneSpec plannedGroups) = ["aws_instance.web"]
  /\ memberIds (pruneSpec plannedGroups) = ["n1 aws_instance.web"].
Proof.
  assert (Hkeys : NoDup (keys plannedGroups)).
  { repeat constructor; simpl; intuition discriminate. }
  assert (Hmain : Forall mainFirst plannedGroups).
  { repeat constructor; eexists; eexists; reflexivity. }
  destruct (C8_pruning_exact createPlan firstRender plannedGroups
              eq_refl Hkeys Hmain) as (H & _).
  split; [exact H|]. split; reflexivity.
Defined.

(** The map that grouping produces meets the conditions under which pruning
    is characterised. *)
Corollary pruneInactive_after_grouping
  (model : RootGraphModel) (jsonArray : Table) (planJsonObj : option Plan)
  (st : GroupMap) :
  groupNodes model jsonArray planJsonObj = Ok st ->
  pruneInactive st = Ok (pruneSpec st).
Proof.
  intros Hrun.
  destruct (groupNodes_GroupsInv model jsonArray planJsonObj st Hrun)
    as (Hk & _ & _ & Hmain).
  apply pruneInactive_pruneSpec; assumption.
Qed.

(** ** Connectivity resolver *)

Lemma includes_In (x : string) (l : list string) :
  includes x l = true <-> In x l.
Proof.
  unfold includes. rewrite existsb_exists. split.
  - intros (y & Hy & E). apply String.eqb_eq in E. subst. exact Hy.
  - intros H. exists x. split; [exact H|apply String.eqb_refl].
Qed.

Lemma ownerOf_In (st : GroupMap) (i : string) (e : string * NodeGroup.t) :
  ownerOf st i = Some e -> In e st.
Proof.
  unfold ownerOf. intros H.
  destruct (filter _ st) as [|e' l] eqn:E; simpl in H; [discriminate|].
  injection H as ->.
  assert (Hin : In e (filter
                        (fun e0 => existsb
                                     (fun n => NodeModel.id (nodeModel n) =? i)
                                     (NodeGroup.nodes (snd e0))) st))
    by (rewrite E; left; reflexivity).
  apply filter_In in Hin. tauto.
Qed.

Lemma map_get_mutate (k k' : string) (f : NodeGroup.t -> NodeGroup.t)
  (st : GroupMap) :
  map_get k (map_mutate k' f st) =
  match map_get k st with
  | Some g => Some (if k =? k' then f g else g)
  | None => None
  end.
Proof.
  induction st as [|[k0 g0] st IH]; simpl; [reflexivity|].
  destruct (k0 =? k') eqn:E0; simpl; destruct (k0 =? k) eqn:E1; auto.
  - apply String.eqb_eq in E0, E1. subst. rewrite String.eqb_refl. reflexivity.
  - apply String.eqb_eq in E1. subst. rewrite E0. reflexivity.
Qed.

Lemma connectEdge_singleEdges (edge : EdgeModel) (st : GroupMap) :
  NoDup (keys st) -> singleEdges st -> singleEdges (connectEdge edge st).
Proof.
  intros Hnd Hsingle. unfold connectEdge.
  destruct (ownerOf st (targets0 edge)) as [[fk fg]|] eqn:Hfrom; [|exact Hsingle].
  destruct (ownerOf st (targets1 edge)) as [[tk tg]|] eqn:Hto; [|exact Hsingle].
  simpl.
  destruct (includes tk (NodeGroup.connectionsOut fg)) eqn:Hout;
    simpl; [exact Hsingle|].
  destruct (includes fk (NodeGroup.connectionsIn tg)); simpl; [exact Hsingle|].
  intros k g. rewrite !map_get_mutate.
  destruct (map_get k st) as [g0|] eqn:Hget; [|discriminate].
  intros E. injection E as <-.
  assert (Hg0 := Hsingle k g0 Hget).
  assert (Hown : k = fk -> g0 = fg).
  { intros ->. apply ownerOf_In in Hfrom.
    apply (map_get_In _ _ _ Hnd) in Hfrom. congruence. }
  destruct (k =? fk) eqn:Ef.
  - apply String.eqb_eq in Ef. specialize (Hown Ef). subst g0.
    assert (Hnew : NoDup (NodeGroup.connectionsOut fg ++ [tk])).
    { apply (Permutation_NoDup (Permutation_cons_append _ tk)).
      constructor; [|exact Hg0]. intros Hin.
      apply includes_In in Hin. congruence. }
    destruct (k =? tk); exact Hnew.
  - destruct (k =? tk); exact Hg0.
Qed.

Lemma keys_connectEdge (edge : EdgeModel) (st : GroupMap) :
  keys (connectEdge edge st) = keys st.
Proof.
  unfold connectEdge.
  destruct (ownerOf st (targets0 edge)) as [[fk fg]|]; [|reflexivity].
  destruct (ownerOf st (targets1 edge)) as [[tk tg]|]; [|reflexivity].
  destruct (_ && _); [|reflexivity].
  rewrite !keys_map_mutate. reflexivity.
Qed.

(** The part of C4 that the code keeps: a group never lists another group
    twice, however many edges join them. *)
Lemma computeConnections_singleEdges (sg : SubgraphModel) (st : GroupMap) :
  NoDup (keys st) -> singleEdges st -> singleEdges (computeConnections sg st).
Proof.
  unfold computeConnections. generalize (edges sg). intros es. revert st.
  induction es as [|edge es IH]; intros st Hnd Hsingle; simpl; [exact Hsingle|].
  apply IH.
  - rewrite keys_connectEdge. exact Hnd.
  - apply connectEdge_singleEdges; assumption.
Qed.

(** An edge inside one group whose key is not yet listed makes the group
    list itself. *)
Lemma connectEdge_self_loop (edge : EdgeModel) (st : GroupMap) (k : string)
  (g : NodeGroup.t) :
  ownerOf st (targets0 edge) = Some (k, g) ->
  ownerOf st (targets1 edge) = Some (k, g) ->
  includes k (NodeGroup.connectionsOut g) = false ->
  includes k (NodeGroup.connectionsIn g) = false ->
  NoDup (keys st) ->
  exists g', map_get k (connectEdge edge st) = Some g'
             /\ In k (NodeGroup.connectionsOut g')
             /\ In k (NodeGroup.connectionsIn g').
Proof.
  intros Hfrom Hto Hout Hin Hnd. unfold connectEdge.
  rewrite Hfrom, Hto. simpl. rewrite Hout, Hin. simpl.
  rewrite !map_get_mutate.
  apply ownerOf_In in Hfrom. apply (map_get_In _ _ _ Hnd) in Hfrom.
  rewrite Hfrom, String.eqb_refl. eexists. split; [reflexivity|].
  simpl. rewrite !in_app_iff. simpl. auto.
Qed.

(** C4: the resolver records self-loops.  The sample graph groups into one
    group holding [n1], [n2] and [n3]; its edges all join members of that
    group, and the group ends up named in its own [connectionsOut] and
    [connectionsIn]. *)
Theorem C4_self_loop_recorded :
  exists sg st,
    subgraphs sampleGraph = [sg]
    /\ groupNodes sampleGraph [instanceRow] None = Ok st
    /\ memberIds st = [ "n1 aws_instance.web"; "n2 aws_security_group.sg";
                        "n3 data.aws_ami.ubuntu" ]
    /\ connections (computeConnections sg st)
       = [("aws_instance.web", ["aws_instance.web"], ["aws_instance.web"])].
Proof.
  eexists. eexists. split; [reflexivity|].
  split; [vm_compute; reflexivity|].
  split; vm_compute; reflexivity.
Qed.

(** * Further properties of the code *)

(** ** Strings *)

Lemma split_not_nil (sep : ascii) (s : string) : split sep s <> [].
Proof.
  destruct s as [|c s]; simpl; [discriminate|].
  destruct (Ascii.eqb c sep); [discriminate|].
  destruct (split sep s); discriminate.
Qed.

(** Joining the pieces of a split with the separator gives the string
    back. *)
Lemma join_split (sep : ascii) (s : string) :
  join (String sep EmptyString) (split sep s) = s.
Proof.
  unfold join. induction s as [|c s IH]; simpl; [reflexivity|].
  destruct (Ascii.eqb c sep) eqn:E.
  - apply Ascii.eqb_eq in E. subst c.
    destruct (split sep s) as [|h t] eqn:Hs;
      [exfalso; exact (split_not_nil _ _ Hs)|].
    simpl in *. rewrite IH. reflexivity.
  - destruct (split sep s) as [|h t] eqn:Hs;
      [exfalso; exact (split_not_nil _ _ Hs)|].
    simpl in *. destruct t; simpl in *; rewrite <- IH; reflexivity.
Qed.

Lemma split_app_sep (sep : ascii) (a b : string) :
  contains sep a = false ->
  split sep (a ++ String sep b) = a :: split sep b.
Proof.
  induction a as [|c a IH]; simpl; intros H.
  - rewrite Ascii.eqb_refl. reflexivity.
  - apply orb_false_elim in H as [Hc Ha]. rewrite Hc, (IH Ha). reflexivity.
Qed.

Lemma split_no_sep (sep : ascii) (s : string) :
  contains sep s = false -> split sep s = [s].
Proof.
  induction s as [|c s IH]; simpl; intros H; [reflexivity|].
  apply orb_false_elim in H as [Hc Hs]. rewrite Hc, (IH Hs). reflexivity.
Qed.

Lemma startsWith_app (p s : string) : startsWith p (p ++ s) = true.
Proof.
  unfold startsWith. induction p as [|a p IH]; simpl.
  - destruct s; reflexivity.
  - destruct (ascii_dec a a); [exact IH|congruence].
Qed.

Lemma startsWith_first (a c : ascii) (p s : string) :
  startsWith (String a p) (String c s) = true -> c = a.
Proof.
  unfold startsWith. simpl. destruct (ascii_dec a c); [auto|discriminate].
Qed.

Lemma startsWith_nonempty (a : ascii) (p s : string) :
  startsWith (String a p) s = true -> exists c s', s = String c s'.
Proof. destruct s; [discriminate|eauto]. Qed.

(** A prefix without the separator is a prefix of the first piece. *)
Lemma startsWith_hd_split (sep : ascii) (p : string) :
  contains sep p = false ->
  forall s, startsWith p s = true ->
            startsWith p (hd "" (split sep s)) = true.
Proof.
  unfold startsWith. induction p as [|a p IH]; intros Hp s H.
  - destruct (hd "" (split sep s)); reflexivity.
  - simpl in Hp. apply orb_false_elim in Hp as [Ha Hp].
    destruct s as [|c s]; [discriminate|]. simpl in H.
    destruct (ascii_dec a c) as [<-|]; [|discriminate].
    simpl. rewrite Ha.
    specialize (IH Hp s H).
    destruct (split sep s) as [|h t] eqn:Hs;
      [exfalso; exact (split_not_nil _ _ Hs)|].
    simpl in *. destruct (ascii_dec a a); [exact IH|congruence].
Qed.

(** ** Block classifier *)

(** The block id that [checkHclBlockType] classifies once a module prefix,
    if any, is taken off. *)
Lemma checkHclBlockType_flags (blockId : string) :
  exists inner moduleName,
    let b := checkHclBlockType blockId in
    Block.moduleName b = moduleName
    /\ Block.isData b = startsWith "data." inner
    /\ Block.isVariable b = startsWith "var." inner
    /\ Block.isLocal b = startsWith "local." inner
    /\ Block.isOutput b = startsWith "output." inner
    /\ Block.isProvider b = startsWith "provider[" inner
    /\ Block.isResource b = startsWith "aws_" inner
    /\ Block.isModule b = (inner =? "") && negb (moduleName =? "")
    /\ Block.isResourceWithName b =
       startsWith "aws_" inner && Nat.ltb 1 (List.length (split dot inner))
    /\ (Block.isResource b = true -> Block.processedBlockId b = inner).
Proof.
  unfold checkHclBlockType.
  destruct (startsWith "module." blockId).
  - exists (join "." (slice 2 (split dot blockId))),
           (nth 1 (split dot blockId) "").
    cbv zeta. cbn [Block.moduleName Block.isData Block.isVariable Block.isLocal
                   Block.isOutput Block.isProvider Block.isResource
                   Block.isModule Block.isResourceWithName
                   Block.processedBlockId].
    repeat split. intros ->. reflexivity.
  - exists blockId, "".
    cbv zeta. cbn [Block.moduleName Block.isData Block.isVariable Block.isLocal
                   Block.isOutput Block.isProvider Block.isResource
                   Block.isModule Block.isResourceWithName
                   Block.processedBlockId].
    repeat split. intros ->. reflexivity.
Qed.

(** X1: the classifier is unambiguous.  For every block id at most one of
    the kinds data, variable, local, output, provider, resource and module
    is reported. *)
Theorem checkHclBlockType_exclusive (blockId : string) :
  kindCount (checkHclBlockType blockId) <= 1.
Proof.
  destruct (checkHclBlockType_flags blockId)
    as (inner & m & _ & Hd & Hv & Hl & Ho & Hp & Hr & Hm & _).
  unfold kindCount. cbv zeta in *. rewrite Hd, Hv, Hl, Ho, Hp, Hr, Hm.
  destruct inner as [|c inner].
  - simpl. destruct (negb (m =? "")); simpl; lia.
  - replace (String c inner =? "") with false by reflexivity.
    repeat match goal with
           | |- context [startsWith ?p (String c inner)] =>
               let E := fresh "E" in
               destruct (startsWith p (String c inner)) eqn:E;
               [apply startsWith_first in E|]
           end;
      simpl; try lia; congruence.
Qed.

Lemma split_module_prefix (m rest : string) :
  contains dot m = false ->
  split dot ("module." ++ m ++ "." ++ rest)%string = "module" :: m :: split dot rest.
Proof.
  intros Hm.
  change ("module." ++ m ++ "." ++ rest)%string
    with ("module" ++ String dot (m ++ String dot rest))%string.
  rewrite split_app_sep by reflexivity.
  rewrite split_app_sep by exact Hm. reflexivity.
Qed.

(** X2: a module prefix is transparent.  For a module name [m] without a
    dot and a rest that is not itself in a module, the block id
    [module.m.rest] gets module name [m] and the residual id and every kind
    flag of [rest]; it denotes the module itself exactly when the rest is
    empty and the name is not. *)
Theorem checkHclBlockType_module_prefix (m rest : string)
  (Hm : contains dot m = false)
  (Hrest : startsWith "module." rest = false) :
  let outer := checkHclBlockType ("module." ++ m ++ "." ++ rest)%string in
  let inner := checkHclBlockType rest in
  Block.moduleName outer = m
  /\ Block.processedBlockId outer = Block.processedBlockId inner
  /\ Block.isData outer = Block.isData inner
  /\ Block.isVariable outer = Block.isVariable inner
  /\ Block.isLocal outer = Block.isLocal inner
  /\ Block.isOutput outer = Block.isOutput inner
  /\ Block.isProvider outer = Block.isProvider inner
  /\ Block.isResource outer = Block.isResource inner
  /\ Block.isResourceWithName outer = Block.isResourceWithName inner
  /\ Block.isModule outer = (rest =? "") && negb (m =? "")
  /\ Block.isModule inner = false.
Proof.
  unfold checkHclBlockType.
  rewrite Hrest.
  replace (startsWith "module." ("module." ++ m ++ "." ++ rest)%string) with true
    by (symmetry; apply startsWith_app).
  rewrite (split_module_prefix m rest Hm).
  unfold slice. cbn [nth skipn].
  replace (join "." (split dot rest)) with rest
    by (symmetry; apply (join_split dot rest)).
  cbv zeta.
  cbn [Block.moduleName Block.isData Block.isVariable Block.isLocal
       Block.isOutput Block.isProvider Block.isResource Block.isModule
       Block.isResourceWithName Block.processedBlockId].
  repeat split; try (rewrite andb_false_r; reflexivity).
  destruct rest as [|c rest]; [|reflexivity].
  simpl. destruct (negb (m =? "")); reflexivity.
Qed.

Lemma checkHclBlockType_module_prefix_witness :
  Block.moduleName (checkHclBlockType ("module." ++ "vpc" ++ "." ++ "aws_subnet.this")%string)
    = "vpc"
  /\ Block.processedBlockId
       (checkHclBlockType ("module." ++ "vpc" ++ "." ++ "aws_subnet.this")%string)
     = Block.processedBlockId (checkHclBlockType "aws_subnet.this").
Proof.
  destruct (checkHclBlockType_module_prefix "vpc" "aws_subnet.this"
              eq_refl eq_refl) as (H1 & H2 & _).
  split; [exact H1|exact H2].
Defined.

(** X3: blocks of nested modules are never grouped.  When the rest after
    [module.m.] starts with [module.] again, the classifier reports no kind
    at all, so a node with such a block reference is neither a seed nor
    absorbed. *)
Theorem checkHclBlockType_nested_module (m rest : string) (graphId : string)
  (Hm : contains dot m = false)
  (Hgraph : contains space graphId = false)
  (Hrest : startsWith "module." rest = true) :
  let b := checkHclBlockType ("module." ++ m ++ "." ++ rest)%string in
  kindCount b = 0
  /\ Block.isResourceWithName b = false
  /\ (contains space (m ++ "." ++ rest)%string = false ->
      groupableId (graphId ++ " module." ++ m ++ "." ++ rest)%string = false).
Proof.
  assert (Hflags :
            let b := checkHclBlockType ("module." ++ m ++ "." ++ rest)%string in
            kindCount b = 0 /\ Block.isResourceWithName b = false
            /\ Block.isData b = false).
  { unfold checkHclBlockType.
    replace (startsWith "module." ("module." ++ m ++ "." ++ rest)%string) with true
      by (symmetry; apply startsWith_app).
    rewrite (split_module_prefix m rest Hm).
    unfold slice. cbn [nth skipn].
  replace (join "." (split dot rest)) with rest
    by (symmetry; apply (join_split dot rest)).
    destruct (startsWith_nonempty _ _ _ Hrest) as (c & rest' & ->).
    apply startsWith_first in Hrest. subst c.
    unfold kindCount. cbv zeta.
    cbn [Block.moduleName Block.isData Block.isVariable Block.isLocal
         Block.isOutput Block.isProvider Block.isResource Block.isModule
         Block.isResourceWithName Block.processedBlockId].
    repeat split. }
  cbv zeta in *. destruct Hflags as (Hk & Hr & Hd).
  split; [exact Hk|]. split; [exact Hr|].
  intros Hsp. unfold groupableId.
  change (graphId ++ " module." ++ m ++ "." ++ rest)%string
    with (graphId ++ String space ("module." ++ m ++ "." ++ rest))%string.
  rewrite split_app_sep by exact Hgraph.
  rewrite split_no_sep by exact Hsp.
  cbn [nth_error]. rewrite Hr, Hd. reflexivity.
Qed.

Lemma checkHclBlockType_nested_module_witness :
  Block.isResourceWithName
    (checkHclBlockType ("module." ++ "a" ++ "." ++ "module.b.aws_subnet.this")%string)
  = false
  /\ groupableId ("n1" ++ " module." ++ "a" ++ "." ++ "module.b.aws_subnet.this")%string
     = false.
Proof.
  destruct (checkHclBlockType_nested_module "a" "module.b.aws_subnet.this" "n1"
              eq_refl eq_refl eq_refl) as (_ & H1 & H2).
  split; [exact H1 | exact (H2 eq_refl)].
Defined.

(** ** Name and type extraction *)

Lemma getResourceNameAndType_typed (s p0 p1 : string) (rest : list string) :
  startsWith "aws_" s = true ->
  split dot s = p0 :: p1 :: rest ->
  getResourceNameAndType s = Ok (Some p0, Some (hd "" (split space p1))).
Proof.
  intros Hs Hsplit.
  pose proof (startsWith_hd_split dot "aws_" eq_refl s Hs) as Hp0.
  unfold getResourceNameAndType. rewrite Hsplit in *. simpl in Hp0.
  cbn [filter]. rewrite Hp0.
  unfold filteri. cbn [filteri_from Nat.ltb Nat.leb andb Nat.sub nth].
  rewrite String.eqb_refl. reflexivity.
Qed.

(** The extraction on a residual id that classifies as a resource with a
    name. *)
Lemma getResourceNameAndType_on_resource (centralPart : string)
  (Hres : Block.isResourceWithName (checkHclBlockType centralPart) = true) :
  exists resourceType second others,
    split dot (Block.processedBlockId (checkHclBlockType centralPart))
      = resourceType :: second :: others
    /\ startsWith "aws_" resourceType = true
    /\ getResourceNameAndType
         (Block.processedBlockId (checkHclBlockType centralPart))
       = Ok (Some resourceType, Some (hd "" (split space second))).
Proof.
  destruct (checkHclBlockType_flags centralPart)
    as (inner & m & _ & _ & _ & _ & _ & _ & Hr & _ & Hrn & Hproc).
  cbv zeta in *. rewrite Hrn in Hres.
  apply andb_prop in Hres as [Haws Hlen].
  rewrite Hproc by (rewrite Hr; exact Haws).
  destruct (split dot inner) as [|p0 [|p1 rest]] eqn:Hsplit;
    try discriminate.
  exists p0, p1, rest. split; [reflexivity|]. split.
  - pose proof (startsWith_hd_split dot "aws_" eq_refl inner Haws) as H.
    rewrite Hsplit in H. exact H.
  - apply (getResourceNameAndType_typed inner p0 p1 rest Haws Hsplit).
Qed.

(** X4: name extraction is safe on the seeding path.  Whenever the
    classifier reports a resource with a name, [getResourceNameAndType] of
    the residual id does not throw: the type is the first dot segment and
    the name is the second one up to its first space. *)
Theorem getResourceNameAndType_resource_with_name (centralPart : string)
  (Hres : Block.isResourceWithName (checkHclBlockType centralPart) = true) :
  exists resourceType second others,
    split dot (Block.processedBlockId (checkHclBlockType centralPart))
      = resourceType :: second :: others
    /\ startsWith "aws_" resourceType = true
    /\ getResourceNameAndType
         (Block.processedBlockId (checkHclBlockType centralPart))
       = Ok (Some resourceType, Some (hd "" (split space second))).
Proof. exact (getResourceNameAndType_on_resource centralPart Hres). Qed.

Lemma getResourceNameAndType_resource_with_name_witness :
  exists resourceType second others,
    split dot (Block.processedBlockId
                 (checkHclBlockType "module.vpc.aws_subnet.this"))
      = resourceType :: second :: others
    /\ startsWith "aws_" resourceType = true
    /\ getResourceNameAndType
         (Block.processedBlockId (checkHclBlockType "module.vpc.aws_subnet.this"))
       = Ok (Some resourceType, Some (hd "" (split space second))).
Proof.
  apply (getResourceNameAndType_resource_with_name "module.vpc.aws_subnet.this").
  reflexivity.
Defined.

(** X5: a block id of one segment either has no type or makes the
    extraction throw.  Without a dot, an id that starts with [aws_] throws
    and every other id yields neither type nor name. *)
Theorem getResourceNameAndType_single_segment (blockId : string)
  (Hdot : contains dot blockId = false) :
  getResourceNameAndType blockId =
  if startsWith "aws_" blockId then TypeError else Ok (None, None).
Proof.
  unfold getResourceNameAndType. rewrite (split_no_sep dot blockId Hdot).
  cbn [filter]. destruct (startsWith "aws_" blockId); reflexivity.
Qed.

Lemma getResourceNameAndType_single_segment_witness :
  getResourceNameAndType "aws_caller_identity" = TypeError
  /\ getResourceNameAndType "root" = Ok (None, None).
Proof.
  split.
  - exact (getResourceNameAndType_single_segment "aws_caller_identity" eq_refl).
  - exact (getResourceNameAndType_single_segment "root" eq_refl).
Defined.

(** ** Display names *)

Lemma js_get_truthy (v : JsVal) (k : string) :
  truthy v = true -> exists w, js_get v k = Ok w.
Proof. destruct v; simpl; intros H; try discriminate; eauto. Qed.

(** Resolution off the two-segment path. *)
Lemma resolveName_off_dotted_path
  (nameAttribute : string) (rcs : list ResourceChange) (resourceName : string)
  (Hsafe : Nat.eqb (List.length (split dot nameAttribute)) 2 = false
           \/ rcs = []) :
  exists v,
    resolveName nameAttribute rcs resourceName = Ok v
    /\ (truthy v = true \/ v = JStr resourceName).
Proof.
  unfold resolveName. destruct rcs as [|first rcs'].
  - simpl. eauto.
  - destruct Hsafe as [Hsafe|]; [|discriminate].
    rewrite Hsafe.
    destruct (truthy (after (change first))) eqn:Ta.
    + destruct (js_get_truthy _ nameAttribute Ta) as (w & ->). simpl.
      destruct (truthy w) eqn:Tw; simpl.
      * rewrite Tw. eauto.
      * destruct (js_get_truthy _ "name" Ta) as (w2 & ->). simpl.
        destruct (truthy w2) eqn:Tw2; eauto.
    + simpl. rewrite Ta. eauto.
Qed.

(** X6: name resolution is safe off the dotted path.  When the attribute
    path does not have exactly two segments, or the node has no change
    record, resolution does not throw; it yields a truthy attribute value
    of the first record or falls back to the resource name. *)
Theorem resolveName_safe
  (nameAttribute : string) (rcs : list ResourceChange) (resourceName : string)
  (Hsafe : Nat.eqb (List.length (split dot nameAttribute)) 2 = false
           \/ rcs = []) :
  exists v,
    resolveName nameAttribute rcs resourceName = Ok v
    /\ (truthy v = true \/ v = JStr resourceName).
Proof. exact (resolveName_off_dotted_path nameAttribute rcs resourceName Hsafe). Qed.

Lemma resolveName_safe_witness :
  exists v, resolveName "name" (resource_changes deletePlan) "web" = Ok v
            /\ (truthy v = true \/ v = JStr "web").
Proof.
  apply (resolveName_safe "name" (resource_changes deletePlan) "web").
  left. reflexivity.
Defined.


(** ** Seeding without errors *)




(** ** Invariants of the grouping phase *)

(** The group that [addNodeToGroup] stores for [n] under [centralPart]. *)
Lemma addNodeToGroup_invariant (P : GroupMap -> Prop) (n : NodeModel.t)
  (mainBlock : bool) (jsonArray : Table) (planJsonObj : option Plan) :
  (forall centralPart resourceType resourceName row name s,
      nth_error (split space (NodeModel.id n)) 1 = Some centralPart ->
      Block.isResourceWithName (checkHclBlockType centralPart) = true ->
      getResourceNameAndType
        (Block.processedBlockId (checkHclBlockType centralPart))
      = Ok (Some resourceType, Some resourceName) ->
      P s ->
      P (map_set centralPart
           (NodeGroup.mk
              [ {| nodeModel := n;
                   resourceChanges := changesOf planJsonObj centralPart |} ]
              centralPart n [] [] name resourceType
              (Row.simplifiedCategory row) (trim (Row.iconPath row))
              (Row.serviceName row)
              (Block.moduleName (checkHclBlockType centralPart))
              (if Nat.ltb 0 (List.length (changesOf planJsonObj centralPart))
               then generalStateMain (changesOf planJsonObj centralPart)
               else "no-op"))
           s)) ->
  forall st st',
    P st -> addNodeToGroup n st mainBlock jsonArray planJsonObj = Ok st' ->
    P st'.
Proof.
  intros Hset. unfold addNodeToGroup.
  destruct (nth_error _ 1) as [centralPart|] eqn:Hcp; [|congruence].
  destruct (centralPart =? ""); [congruence|].
  destruct (Block.isResourceWithName _) eqn:Hres; [|congruence].
  destruct (getResourceNameAndType _) as [[[rt|] [rn|]]| |] eqn:Hnt; simpl;
    try congruence.
  destruct (rn =? ""); [congruence|].
  apply forEachM_invariant. intros row s s' _ Hs.
  destruct (rowMatches _ _ _); [|congruence].
  intros Hrun. apply bind_Ok_inv in Hrun as (name & _ & E).
  injection E as <-. eapply Hset; eauto.
Qed.

(** An invariant kept by every [set] of seeding and every absorption is kept
    by [getConnectedNodes]. *)
Lemma getConnectedNodes_invariant (P : GroupMap -> Prop) (sg : SubgraphModel)
  (key : string) (jsonArray : Table) (planJsonObj : option Plan) :
  (forall s g newNode centralPart edgeToId,
      P s -> map_get key s = Some g ->
      isNodePresent s edgeToId = false ->
      NodeModel.id newNode = edgeToId ->
      In newNode (nodes sg) ->
      nth_error (split space edgeToId) 1 = Some centralPart ->
      groupableId edgeToId = true ->
      P (map_mutate key
           (absorb newNode (changesOf planJsonObj centralPart) planJsonObj) s)) ->
  forall fuel n st start st',
    P st ->
    getConnectedNodes fuel n key st sg start jsonArray planJsonObj = Ok st' ->
    P st'.
Proof.
  intros Habsorb.
  induction fuel as [|fuel IH]; intros n st start st' Hinv Hrun;
    [discriminate|].
  simpl in Hrun. revert st st' Hinv Hrun. apply forEachM_invariant.
  intros edge s s' _ Hs Hstep.
  destruct (examineEdge_cases key sg start jsonArray planJsonObj edge s)
    as [H|[H|(cp & g & newNode & Hcp & Hkind & Hg & Hp & Hf & H)]];
    rewrite H in Hstep; [congruence|discriminate|].
  apply find_some in Hf as [Hin Hid]. apply String.eqb_eq in Hid.
  apply bind_Ok_inv in Hstep as (s1 & H1 & H2).
  apply IH in H2; [exact H2|]. apply IH in H1; [exact H1|].
  eapply Habsorb; eauto.
  unfold groupableId. rewrite Hcp. exact Hkind.
Qed.

Lemma expandGroups_invariant (P : GroupMap -> Prop) (fuel : nat)
  (model : RootGraphModel) (jsonArray : Table) (planJsonObj : option Plan) :
  (forall sg key s g newNode centralPart edgeToId,
      hd_error (subgraphs model) = Some sg ->
      P s -> map_get key s = Some g ->
      isNodePresent s edgeToId = false ->
      NodeModel.id newNode = edgeToId ->
      In newNode (nodes sg) ->
      nth_error (split space edgeToId) 1 = Some centralPart ->
      groupableId edgeToId = true ->
      P (map_mutate key
           (absorb newNode (changesOf planJsonObj centralPart) planJsonObj) s)) ->
  forall st st',
    P st -> expandGroups fuel model jsonArray planJsonObj st = Ok st' -> P st'.
Proof.
  intros Habsorb st st'. unfold expandGroups.
  destruct (subgraphs model) as [|sg ?].
  - intros H E. injection E as <-. exact H.
  - apply forEachM_invariant. intros key s s' _ Hs. unfold expandGroup.
    destruct (map_get key s) as [g|]; [|congruence].
    intros Hrun. apply bind_Ok_inv in Hrun as (s1 & H1 & H2).
    assert (Hstep : forall fuel n st start st',
               P st ->
               getConnectedNodes fuel n key st sg start jsonArray planJsonObj
               = Ok st' -> P st').
    { apply getConnectedNodes_invariant. intros.
      eapply Habsorb; eauto. reflexivity. }
    eapply Hstep; [|exact H2]. eapply Hstep; [exact Hs|exact H1].
Qed.

Lemma isNodePresent_delete (k i : string) (s : GroupMap) :
  isNodePresent (map_delete k s) i = true -> isNodePresent s i = true.
Proof.
  rewrite !isNodePresent_In. unfold memberIds, values, map_delete.
  rewrite !in_flat_map. intros (g & Hg & Hi). exists g. split; [|exact Hi].
  apply in_map_iff in Hg as (e & <- & He). apply filter_In in He as [He _].
  apply in_map. exact He.
Qed.

Lemma map_delete_set (k : string) (g : NodeGroup.t) (s : GroupMap) :
  map_delete k (map_set k g s) = map_delete k s.
Proof.
  unfold map_delete. induction s as [|[k' g'] s IH]; simpl.
  - rewrite String.eqb_refl. reflexivity.
  - destruct (k' =? k) eqn:E; simpl.
    + rewrite String.eqb_refl. reflexivity.
    + rewrite E. simpl. rewrite IH. reflexivity.
Qed.

(** Among seeded groups a node can only sit under its own block
    reference. *)
Lemma seeded_elsewhere_absent (n : NodeModel.t) (centralPart : string)
  (s : GroupMap) :
  Forall seeded s ->
  nth_error (split space (NodeModel.id n)) 1 = Some centralPart ->
  isNodePresent (map_delete centralPart s) (NodeModel.id n) = false.
Proof.
  intros Hall Hcp. apply not_true_is_false. intros Hp.
  apply isNodePresent_In in Hp.
  assert (Hall' : Forall seeded (map_delete centralPart s))
    by (apply Forall_filter; exact Hall).
  destruct (seeded_members _ _ Hall' Hp) as (k & Hk & Hin & _).
  rewrite Hcp in Hk. injection Hk as <-.
  unfold keys, map_delete in Hin. apply in_map_iff in Hin as (e & E & He).
  apply filter_In in He as [_ He]. rewrite E, String.eqb_refl in He.
  discriminate.
Qed.

(** The same for the whole grouping phase, detailed mode included: when a
    group is stored for [n], no group under another key holds [n]. *)
Lemma groupPhase_invariant (P : GroupMap -> Prop) (model : RootGraphModel)
  (jsonArray : Table) (planJsonObj : option Plan) (ambient : Ambient) :
  P [] ->
  (forall n centralPart resourceType resourceName row name s,
      nth_error (split space (NodeModel.id n)) 1 = Some centralPart ->
      Block.isResourceWithName (checkHclBlockType centralPart) = true ->
      getResourceNameAndType
        (Block.processedBlockId (checkHclBlockType centralPart))
      = Ok (Some resourceType, Some resourceName) ->
      isNodePresent (map_delete centralPart s) (NodeModel.id n) = false ->
      P s ->
      P (map_set centralPart
           (NodeGroup.mk
              [ {| nodeModel := n;
                   resourceChanges := changesOf planJsonObj centralPart |} ]
              centralPart n [] [] name resourceType
              (Row.simplifiedCategory row) (trim (Row.iconPath row))
              (Row.serviceName row)
              (Block.moduleName (checkHclBlockType centralPart))
              (if Nat.ltb 0 (List.length (changesOf planJsonObj centralPart))
               then generalStateMain (changesOf planJsonObj centralPart)
               else "no-op"))
           s)) ->
  (forall sg key s g newNode centralPart edgeToId,
      hd_error (subgraphs model) = Some sg ->
      P s -> map_get key s = Some g ->
      isNodePresent s edgeToId = false ->
      NodeModel.id newNode = edgeToId ->
      In newNode (nodes sg) ->
      nth_error (split space edgeToId) 1 = Some centralPart ->
      groupableId edgeToId = true ->
      P (map_mutate key
           (absorb newNode (changesOf planJsonObj centralPart) planJsonObj) s)) ->
  forall st,
    groupPhase model jsonArray planJsonObj ambient = Ok st -> P st.
Proof.
  intros Hnil Hset Habsorb st Hrun. unfold groupPhase in Hrun.
  apply bind_Ok_inv in Hrun as (s1 & Hgroup & Hrun).
  assert (H1 : P s1).
  { unfold groupNodes in Hgroup.
    apply bind_Ok_inv in Hgroup as (s0 & Hseed & Hexp).
    eapply (expandGroups_invariant P); [exact Habsorb| |exact Hexp].
    assert (Hboth : P s0 /\ Forall seeded s0); [|apply Hboth].
    revert Hseed. unfold seedGroups.
    apply (forEachM_invariant (fun s => P s /\ Forall seeded s));
      [|split; [exact Hnil|constructor]].
    intros sg s s' _ Hs.
    apply (forEachM_invariant (fun s => P s /\ Forall seeded s)); [|exact Hs].
    intros n t t' _.
    apply (addNodeToGroup_invariant (fun u => P u /\ Forall seeded u)).
    intros cp rt rn row name u Hcp Hres Hnt [Hu Hseeded]. split.
    - eapply Hset; eauto. apply seeded_elsewhere_absent; assumption.
    - apply Forall_map_set; [exact Hseeded|].
      split; [|split]; simpl; eauto. }
  destruct (detailed ambient); [|injection Hrun as <-; exact H1].
  destruct (subgraphs model) as [|sg ?]; [discriminate|].
  revert Hrun. unfold addOrphans. apply forEachM_invariant; [|exact H1].
  intros n s s' _ Hs.
  destruct (isNodePresent s (NodeModel.id n)) eqn:Hp; simpl; [congruence|].
  intros Hadd.
  assert (Hboth :
            P s' /\
            forall cp, nth_error (split space (NodeModel.id n)) 1 = Some cp ->
                       isNodePresent (map_delete cp s') (NodeModel.id n) = false);
    [|apply Hboth].
  revert Hadd.
  apply (addNodeToGroup_invariant
           (fun u => P u /\
                     forall cp,
                       nth_error (split space (NodeModel.id n)) 1 = Some cp ->
                       isNodePresent (map_delete cp u) (NodeModel.id n) = false)
           n false jsonArray planJsonObj).
  - intros cp rt rn row name u Hcp Hres Hnt [Hu Habsent]. split.
    + eapply Hset; eauto.
    + intros cp' Hcp'. rewrite Hcp in Hcp'. injection Hcp' as <-.
      rewrite map_delete_set. auto.
  - split; [exact Hs|]. intros cp _. apply not_true_is_false. intros H.
    apply isNodePresent_delete in H. congruence.
Qed.

(** Records after the grouping phase. *)
Lemma groupPhase_recordOk
  (model : RootGraphModel) (jsonArray : Table) (planJsonObj : option Plan)
  (ambient : Ambient) (st : GroupMap)
  (Hrun : groupPhase model jsonArray planJsonObj ambient = Ok st) :
  Forall recordOk st.
Proof.
  revert st Hrun. apply groupPhase_invariant.
  - constructor.
  - intros n cp rt rn row name s Hcp Hres Hnt _ Hs.
    apply Forall_map_set; [exact Hs|].
    destruct (getResourceNameAndType_on_resource cp Hres)
      as (rt' & second & others & Hsplit & _ & Hnt').
    rewrite Hnt' in Hnt. injection Hnt as <- _.
    unfold recordOk. simpl. rewrite Hsplit. auto 10.
  - intros sg key s g newNode cp i _ Hs _ _ _ _ _ _.
    apply Forall_map_mutate; [|exact Hs].
    intros g0 H. exact H.
Qed.

(** X8: a group record agrees with its key.  After the grouping phase, in
    either mode, every group has its key as id, the block reference of its
    main node as key, the module name and the first segment of the residual
    id that the classifier gives for that key as module name and type, and
    no connection yet. *)
Theorem groupPhase_records
  (model : RootGraphModel) (jsonArray : Table) (planJsonObj : option Plan)
  (ambient : Ambient) (st : GroupMap)
  (Hrun : groupPhase model jsonArray planJsonObj ambient = Ok st) :
  Forall recordOk st.
Proof. exact (groupPhase_recordOk model jsonArray planJsonObj ambient st Hrun). Qed.

Lemma groupPhase_records_witness :
  exists st,
    groupPhase sampleGraph [instanceRow] (Some createPlan)
      {| detailed := true; showInactive := false;
         deselectedCategories := []; selectedTags := [] |} = Ok st
    /\ Forall recordOk st.
Proof.
  eexists. split; [vm_compute; reflexivity|].
  apply (groupPhase_records sampleGraph [instanceRow] (Some createPlan)
           {| detailed := true; showInactive := false;
              deselectedCategories := []; selectedTags := [] |}).
  vm_compute. reflexivity.
Defined.

(** X9: without a plan nothing is marked.  After the grouping phase of a
    run without a plan, every group has state [no-op] and no member carries
    a change record. *)
Theorem groupPhase_without_plan
  (model : RootGraphModel) (jsonArray : Table) (ambient : Ambient)
  (st : GroupMap)
  (Hrun : groupPhase model jsonArray None ambient = Ok st) :
  Forall planless st.
Proof.
  revert st Hrun. apply groupPhase_invariant.
  - constructor.
  - intros n cp rt rn row name s _ _ _ _ Hs.
    apply Forall_map_set; [exact Hs|].
    split; simpl; [reflexivity|]. repeat constructor.
  - intros sg key s g newNode cp i _ Hs _ _ _ _ _ _.
    apply Forall_map_mutate; [|exact Hs].
    intros g0 [Hstate Hnodes]. split; simpl in *.
    + rewrite orb_true_r. exact Hstate.
    + apply Forall_app. split; [exact Hnodes|]. repeat constructor.
Qed.

Lemma groupPhase_without_plan_witness :
  exists st,
    groupPhase sampleGraph [instanceRow] None
      {| detailed := false; showInactive := false;
         deselectedCategories := []; selectedTags := [] |} = Ok st
    /\ Forall planless st.
Proof.
  eexists. split; [vm_compute; reflexivity|].
  apply (groupPhase_without_plan sampleGraph [instanceRow]
           {| detailed := false; showInactive := false;
              deselectedCategories := []; selectedTags := [] |}).
  vm_compute. reflexivity.
Defined.

(** ** The partition invariant in the detailed mode *)

Lemma map_delete_absent (k : string) (s : GroupMap) :
  ~ In k (keys s) -> map_delete k s = s.
Proof.
  unfold map_delete. induction s as [|[k' g] s IH]; simpl; intros H;
    [reflexivity|].
  destruct (k' =? k) eqn:E.
  - apply String.eqb_eq in E. tauto.
  - simpl. f_equal. apply IH. tauto.
Qed.

Lemma memberIds_map_set (k : string) (g : NodeGroup.t) (s : GroupMap) :
  NoDup (keys s) ->
  Permutation (memberIds (map_set k g s))
              (memberIdsOf g ++ memberIds (map_delete k s)).
Proof.
  induction s as [|[k' g'] s IH]; simpl; intros Hnd.
  - reflexivity.
  - inversion Hnd as [|? ? Hnotin Hnd']; subst.
    unfold map_delete. simpl. destruct (k' =? k) eqn:E; simpl.
    + apply String.eqb_eq in E. subst k'.
      fold (map_delete k s). rewrite (map_delete_absent k s Hnotin).
      reflexivity.
    + fold (map_delete k s). rewrite !memberIds_cons, (IH Hnd').
      apply Permutation_app_swap_app.
Qed.

Lemma memberIds_delete_NoDup (k : string) (s : GroupMap) :
  NoDup (memberIds s) -> NoDup (memberIds (map_delete k s)).
Proof.
  unfold map_delete. induction s as [|[k' g] s IH]; simpl; intros Hnd;
    [constructor|].
  rewrite memberIds_cons in Hnd.
  pose proof (NoDup_app_remove_l _ _ Hnd) as Hrest.
  destruct (negb (k' =? k)); [|auto].
  rewrite memberIds_cons. apply NoDup_app.
  - exact (NoDup_app_remove_r _ _ Hnd).
  - auto.
  - intros i Hi Hin.
    assert (Hin' : In i (memberIds s)).
    { apply isNodePresent_In. apply (isNodePresent_delete k).
      apply isNodePresent_In. exact Hin. }
    clear -Hnd Hi Hin'. induction (memberIdsOf g) as [|a l IHl]; [tauto|].
    simpl in Hnd. inversion Hnd as [|? ? Hna Hnd']; subst.
    destruct Hi as [->|Hi]; [|auto].
    apply Hna. apply in_or_app. auto.
Qed.

Lemma GroupsInv_set (n : NodeModel.t) (centralPart : string)
  (g : NodeGroup.t) (rcs : list ResourceChange) (s : GroupMap) :
  GroupsInv s ->
  nth_error (split space (NodeModel.id n)) 1 = Some centralPart ->
  Block.isResourceWithName (checkHclBlockType centralPart) = true ->
  isNodePresent (map_delete centralPart s) (NodeModel.id n) = false ->
  NodeGroup.nodes g = [ {| nodeModel := n; resourceChanges := rcs |} ] ->
  NodeGroup.mainNode g = n ->
  GroupsInv (map_set centralPart g s).
Proof.
  intros (Hk & Hnd & Hkind & Hmain) Hcp Hres Habsent Hnodes Hmn.
  pose proof (memberIds_map_set centralPart g s Hk) as Hperm.
  assert (Hids : memberIdsOf g = [NodeModel.id n])
    by (unfold memberIdsOf; rewrite Hnodes; reflexivity).
  rewrite Hids in Hperm. simpl in Hperm.
  repeat split.
  - apply keys_map_set_NoDup. exact Hk.
  - apply (Permutation_NoDup (Permutation_sym Hperm)).
    constructor; [|apply memberIds_delete_NoDup; exact Hnd].
    intros Hin. apply isNodePresent_In in Hin. congruence.
  - apply (Permutation_Forall (Permutation_sym Hperm)).
    constructor.
    + unfold groupableId. rewrite Hcp, Hres. reflexivity.
    + apply Forall_forall. intros i Hi.
      rewrite Forall_forall in Hkind. apply Hkind.
      apply isNodePresent_In. apply (isNodePresent_delete centralPart).
      apply isNodePresent_In. exact Hi.
  - apply Forall_map_set; [exact Hmain|].
    exists rcs, []. simpl. rewrite Hnodes, Hmn. reflexivity.
Qed.

(** The partition after the grouping phase. *)
Lemma groupPhase_partition_holds
  (model : RootGraphModel) (jsonArray : Table) (planJsonObj : option Plan)
  (ambient : Ambient) (st : GroupMap)
  (Hrun : groupPhase model jsonArray planJsonObj ambient = Ok st) :
  NoDup (keys st)
  /\ NoDup (memberIds st)
  /\ Forall (fun i => groupableId i = true) (memberIds st)
  /\ Forall mainFirst st.
Proof.
  change (GroupsInv st). revert st Hrun. apply groupPhase_invariant.
  - repeat split; constructor.
  - intros n cp rt rn row name s Hcp Hres _ Habsent Hs.
    eapply GroupsInv_set; eauto; reflexivity.
  - intros sg key s g newNode cp i _ Hs Hg Hp Hid _ Hcp Hkind.
    apply (GroupsInv_absorb key newNode _ planJsonObj s g); auto.
    + rewrite Hid. exact Hp.
    + rewrite Hid. exact Hkind.
Qed.

(** X10: the partition holds in the detailed mode too.  After the grouping
    phase, with or without orphan groups, keys are distinct, no node id is a
    member twice over the whole map, every member is a resource with a name
    or a data block, and every group starts with its main node. *)
Theorem groupPhase_partition
  (model : RootGraphModel) (jsonArray : Table) (planJsonObj : option Plan)
  (ambient : Ambient) (st : GroupMap)
  (Hrun : groupPhase model jsonArray planJsonObj ambient = Ok st) :
  NoDup (keys st)
  /\ NoDup (memberIds st)
  /\ Forall (fun i => groupableId i = true) (memberIds st)
  /\ Forall mainFirst st.
Proof. exact (groupPhase_partition_holds model jsonArray planJsonObj ambient st Hrun). Qed.

Lemma groupPhase_partition_witness :
  exists st,
    groupPhase sampleGraph [instanceRow] (Some createPlan)
      {| detailed := true; showInactive := false;
         deselectedCategories := []; selectedTags := [] |} = Ok st
    /\ NoDup (keys st)
    /\ NoDup (memberIds st)
    /\ Forall (fun i => groupableId i = true) (memberIds st)
    /\ Forall mainFirst st.
Proof.
  eexists. split; [vm_compute; reflexivity|].
  apply (groupPhase_partition sampleGraph [instanceRow] (Some createPlan)
           {| detailed := true; showInactive := false;
              deselectedCategories := []; selectedTags := [] |}).
  vm_compute. reflexivity.
Defined.

(** ** What expansion changes *)

Lemma foldSatellite_noop (g : string) (rc : ResourceChange) :
  (foldSatellite g rc =? "no-op") = (g =? "no-op") && (tagOf rc =? "no-op").
Proof.
  unfold foldSatellite. fold (tagOf rc).
  destruct (tagOf rc =? g) eqn:E; simpl.
  - apply String.eqb_eq in E. rewrite E.
    destruct (g =? "no-op"); reflexivity.
  - destruct (lowState (tagOf rc) && lowState g); simpl.
    + destruct (g =? "no-op") eqn:Eg; [|reflexivity].
      destruct (tagOf rc =? "no-op") eqn:Et; [|reflexivity].
      apply String.eqb_eq in Eg, Et. subst g. rewrite Et in E.
      discriminate.
    + destruct (g =? "no-op") eqn:Eg; [|reflexivity].
      destruct (tagOf rc =? "no-op") eqn:Et; [|reflexivity].
      apply String.eqb_eq in Eg, Et. subst g. rewrite Et in E.
      discriminate.
Qed.

(** The fold of expansion gives [no-op] exactly when every record is
    [no-op]. *)
Lemma generalStateSatellite_noop (rcs : list ResourceChange) :
  (generalStateSatellite rcs =? "no-op")
  = negb (existsb (fun rc => negb (tagOf rc =? "no-op")) rcs).
Proof.
  unfold generalStateSatellite.
  assert (H : forall g,
             (fold_left foldSatellite rcs g =? "no-op")
             = (g =? "no-op") &&
               negb (existsb (fun rc => negb (tagOf rc =? "no-op")) rcs)).
  { induction rcs as [|rc rcs IH]; intros g; simpl.
    - rewrite andb_true_r. reflexivity.
    - rewrite IH, foldSatellite_noop.
      destruct (g =? "no-op"), (tagOf rc =? "no-op"); reflexivity. }
  rewrite H. reflexivity.
Qed.

Lemma extendsBy_refl (sg : SubgraphModel) (g : NodeGroup.t) :
  extendsBy sg [] g g.
Proof.
  unfold extendsBy. rewrite app_nil_r. simpl. rewrite andb_false_r.
  repeat split. constructor.
Qed.

(** The state that an absorption leaves. *)
Lemma absorb_state (newNode : NodeModel.t) (planJsonObj : option Plan)
  (centralPart : string) (g : NodeGroup.t) :
  NodeGroup.state
    (absorb newNode (changesOf planJsonObj centralPart) planJsonObj g)
  = if (NodeGroup.state g =? "no-op") &&
       existsb (fun rc => negb (tagOf rc =? "no-op"))
               (changesOf planJsonObj centralPart)
    then "update" else NodeGroup.state g.
Proof.
  unfold absorb. cbn [NodeGroup.state NodeGroup.with_state].
  destruct (NodeGroup.state g =? "no-op") eqn:Eg; cbn [negb orb andb];
    [|reflexivity].
  destruct planJsonObj as [p|]; [|reflexivity].
  pose proof (generalStateSatellite_noop (changesOf (Some p) centralPart)) as H.
  destruct (existsb _ (changesOf (Some p) centralPart)); cbn [negb] in H;
    rewrite H; cbn [negb]; [reflexivity|].
  apply String.eqb_eq in H, Eg. congruence.
Qed.

Lemma extendsBy_absorb (sg : SubgraphModel) (added : list Member)
  (g g' : NodeGroup.t) (newNode : NodeModel.t) (planJsonObj : option Plan)
  (centralPart : string) :
  extendsBy sg added g g' ->
  In newNode (nodes sg) ->
  extendsBy sg
    (added ++ [ {| nodeModel := newNode;
                   resourceChanges := changesOf planJsonObj centralPart |} ])
    g (absorb newNode (changesOf planJsonObj centralPart) planJsonObj g').
Proof.
  intros (Hn & Hin & Hid & Hm & Hna & Ht & Hc & Hi & Hs & Hmo & Ho & Hci & Hst)
         Hnew.
  unfold extendsBy. rewrite absorb_state.
  unfold absorb. cbn [NodeGroup.nodes NodeGroup.id NodeGroup.mainNode
                      NodeGroup.name NodeGroup.type NodeGroup.category
                      NodeGroup.iconPath NodeGroup.serviceName
                      NodeGroup.moduleName NodeGroup.connectionsOut
                      NodeGroup.connectionsIn NodeGroup.with_state
                      NodeGroup.with_nodes].
  rewrite Hn, app_assoc.
  repeat split; auto.
  - apply Forall_app. split; [exact Hin|]. repeat constructor. exact Hnew.
  - rewrite existsb_app. cbn [existsb]. rewrite orb_false_r.
    unfold memberChanged at 2. cbn [resourceChanges].
    rewrite Hst.
    destruct (NodeGroup.state g =? "no-op") eqn:Eg; cbn [andb].
    + destruct (existsb memberChanged added); cbn [orb]; [reflexivity|].
      rewrite Eg. reflexivity.
    + rewrite Eg. reflexivity.
Qed.

Lemma expansionOf_refl (sg : SubgraphModel) (st : GroupMap) :
  expansionOf sg st st.
Proof.
  split; [reflexivity|]. intros k g Hg. exists [], g.
  split; [exact Hg|apply extendsBy_refl].
Qed.

Lemma expandGroups_expansionOf (fuel : nat) (model : RootGraphModel)
  (jsonArray : Table) (planJsonObj : option Plan) (sg : SubgraphModel)
  (st st' : GroupMap) :
  hd_error (subgraphs model) = Some sg ->
  expandGroups fuel model jsonArray planJsonObj st = Ok st' ->
  expansionOf sg st st'.
Proof.
  intros Hsg.
  apply (expandGroups_invariant (fun s => expansionOf sg st s));
    [|apply expansionOf_refl].
  intros sg0 key s g newNode cp i Hsg0 [Hkeys Hall] Hg _ _ Hin _ _.
  rewrite Hsg in Hsg0. injection Hsg0 as <-.
  split; [rewrite keys_map_mutate; exact Hkeys|].
  intros k g0 Hg0. destruct (Hall k g0 Hg0) as (added & g' & Hg' & Hext).
  rewrite map_get_mutate, Hg'.
  destruct (k =? key).
  - eexists. eexists. split; [reflexivity|].
    apply extendsBy_absorb; eassumption.
  - exists added, g'. auto.
Qed.

(** X11: expansion only appends.  When the expansion completes, the map has
    the keys it had, and every group keeps its members as a prefix of its
    member list, followed by nodes of the first subgraph; its id, main node,
    name, type, category, icon, service name, module name and connections
    are untouched. *)
Theorem expandGroups_only_appends (fuel : nat) (model : RootGraphModel)
  (jsonArray : Table) (planJsonObj : option Plan) (sg : SubgraphModel)
  (st st' : GroupMap)
  (Hsg : hd_error (subgraphs model) = Some sg)
  (Hrun : expandGroups fuel model jsonArray planJsonObj st = Ok st') :
  keys st' = keys st
  /\ forall k g,
       map_get k st = Some g ->
       exists added g',
         map_get k st' = Some g'
         /\ NodeGroup.nodes g' = NodeGroup.nodes g ++ added
         /\ Forall (fun m => In (nodeModel m) (nodes sg)) added
         /\ NodeGroup.with_state (NodeGroup.state g)
              (NodeGroup.with_nodes (fun _ => NodeGroup.nodes g) g') = g.
Proof.
  destruct (expandGroups_expansionOf fuel model jsonArray planJsonObj sg st st'
              Hsg Hrun) as [Hkeys Hall].
  split; [exact Hkeys|]. intros k g Hg.
  destruct (Hall k g Hg)
    as (added & g' & Hg' & Hn & Hin & Hid & Hm & Hna & Ht & Hc & Hi & Hs
        & Hmo & Ho & Hci & _).
  exists added, g'. repeat split; auto.
  destruct g, g'. unfold NodeGroup.with_state, NodeGroup.with_nodes.
  simpl in *. congruence.
Qed.

(** X12: the state of a group after expansion.  A group seeded with a state
    other than [no-op] keeps it; a group seeded [no-op] becomes [update]
    exactly when one of the members it absorbed has a change record whose
    tag is not [no-op], and stays [no-op] otherwise. *)
Theorem expandGroups_state (fuel : nat) (model : RootGraphModel)
  (jsonArray : Table) (planJsonObj : option Plan) (sg : SubgraphModel)
  (st st' : GroupMap) (k : string) (g : NodeGroup.t)
  (Hsg : hd_error (subgraphs model) = Some sg)
  (Hrun : expandGroups fuel model jsonArray planJsonObj st = Ok st')
  (Hget : map_get k st = Some g) :
  exists added g',
    map_get k st' = Some g'
    /\ NodeGroup.nodes g' = NodeGroup.nodes g ++ added
    /\ NodeGroup.state g' =
       if (NodeGroup.state g =? "no-op") && existsb memberChanged added
       then "update" else NodeGroup.state g.
Proof.
  destruct (expandGroups_expansionOf fuel model jsonArray planJsonObj sg st st'
              Hsg Hrun) as [_ Hall].
  destruct (Hall k g Hget) as (added & g' & Hg' & Hn & Hrest).
  exists added, g'. split; [exact Hg'|]. split; [exact Hn|].
  apply Hrest.
Qed.

(** ** Pruning, once more *)

Lemma pruneSpec_cons (k : string) (g : NodeGroup.t) (st : GroupMap)
  (rcs : list ResourceChange) (others : list Member) :
  NodeGroup.nodes g =
  {| nodeModel := NodeGroup.mainNode g; resourceChanges := rcs |} :: others ->
  pruneSpec ((k, g) :: st) =
  match rcs with
  | [] => pruneSpec st
  | _ :: _ =>
      (k, NodeGroup.with_nodes
            (fun _ => {| nodeModel := NodeGroup.mainNode g;
                         resourceChanges := rcs |}
                        :: filter hasChanges others) g)
        :: pruneSpec st
  end.
Proof.
  intros Hn. unfold pruneSpec. cbn [filter snd].
  unfold mainHasChanges at 1. rewrite Hn.
  destruct rcs as [|rc rcs]; [reflexivity|].
  cbn [resourceChanges List.length Nat.eqb negb map fst snd].
  f_equal. f_equal. unfold NodeGroup.with_nodes. rewrite Hn. reflexivity.
Qed.

Lemma pruneSpec_mainFirst (st : GroupMap) :
  Forall mainFirst st -> Forall mainFirst (pruneSpec st).
Proof.
  induction 1 as [|[k g] st (rcs & others & Hn) _ IH]; [constructor|].
  cbn [snd] in Hn. rewrite (pruneSpec_cons k g st rcs others Hn).
  destruct rcs as [|rc rcs]; [exact IH|].
  constructor; [|exact IH]. eexists. eexists. reflexivity.
Qed.

Lemma pruneSpec_members (st : GroupMap) :
  Forall (fun e => Forall (fun m => resourceChanges m <> [])
                          (NodeGroup.nodes (snd e)))
         (pruneSpec st).
Proof.
  unfold pruneSpec. apply Forall_forall. intros e He.
  apply in_map_iff in He as (e0 & <- & _). simpl.
  apply Forall_forall. intros m Hm. apply filter_In in Hm as [_ Hm].
  unfold hasChanges in Hm. destruct (resourceChanges m); [discriminate|].
  discriminate.
Qed.

Lemma keys_pruneSpec (st : GroupMap) :
  keys (pruneSpec st) = keys (filter (fun e => mainHasChanges (snd e)) st).
Proof. unfold pruneSpec, keys. rewrite map_map. reflexivity. Qed.

Lemma filter_idem {A} (p : A -> bool) (l : list A) :
  filter p (filter p l) = filter p l.
Proof.
  induction l as [|x l IH]; simpl; [reflexivity|].
  destruct (p x) eqn:E; simpl; [rewrite E, IH|]; auto.
Qed.

Lemma pruneSpec_idem (st : GroupMap) :
  Forall mainFirst st -> pruneSpec (pruneSpec st) = pruneSpec st.
Proof.
  induction 1 as [|[k g] st (rcs & others & Hn) _ IH]; [reflexivity|].
  cbn [snd] in Hn. rewrite (pruneSpec_cons k g st rcs others Hn).
  destruct rcs as [|rc rcs]; [exact IH|].
  rewrite (pruneSpec_cons k _ (pruneSpec st) (rc :: rcs)
             (filter hasChanges others)) by reflexivity.
  rewrite IH. f_equal. f_equal.
  unfold NodeGroup.with_nodes. cbn. rewrite filter_idem. reflexivity.
Qed.

(** X13: pruning settles.  On a map with distinct keys whose groups start
    with their main node, pruning completes; in its result every group is
    non-empty and starts with its main node, no member is without a change
    record, keys are distinct, and pruning the result again changes
    nothing. *)
Theorem pruneInactive_settles (st : GroupMap)
  (Hkeys : NoDup (keys st)) (Hmain : Forall mainFirst st) :
  exists st',
    pruneInactive st = Ok st'
    /\ pruneInactive st' = Ok st'
    /\ NoDup (keys st')
    /\ Forall mainFirst st'
    /\ Forall (fun e => Forall (fun m => resourceChanges m <> [])
                               (NodeGroup.nodes (snd e))) st'.
Proof.
  exists (pruneSpec st).
  assert (Hk' : NoDup (keys (pruneSpec st)))
    by (rewrite keys_pruneSpec; apply keys_filter_NoDup; exact Hkeys).
  assert (Hm' : Forall mainFirst (pruneSpec st))
    by (apply pruneSpec_mainFirst; exact Hmain).
  split; [apply pruneInactive_pruneSpec; assumption|].
  split.
  - rewrite (pruneInactive_pruneSpec _ Hk' Hm'), (pruneSpec_idem st Hmain).
    reflexivity.
  - split; [exact Hk'|]. split; [exact Hm'|]. apply pruneSpec_members.
Qed.

Lemma pruneInactive_settles_witness :
  exists st',
    pruneInactive plannedGroups = Ok st'
    /\ pruneInactive st' = Ok st'
    /\ NoDup (keys st')
    /\ Forall mainFirst st'
    /\ Forall (fun e => Forall (fun m => resourceChanges m <> [])
                               (NodeGroup.nodes (snd e))) st'.
Proof.
  apply (pruneInactive_settles plannedGroups).
  - repeat constructor; simpl; intuition discriminate.
  - repeat constructor; eexists; eexists; reflexivity.
Defined.

(** ** The category and tag filters *)

Lemma deleteWhere_step (drop : NodeGroup.t -> bool) (key : string)
  (s : GroupMap) :
  NoDup (keys s) ->
  match map_get key s with
  | Some g => if drop g then map_delete key s else s
  | None => s
  end
  = filter (fun e => negb (fst e =? key) || negb (drop (snd e))) s.
Proof.
  intros Hnd. destruct (map_get key s) as [g|] eqn:Hget.
  - assert (Hsame : forall e, In e s -> fst e = key -> snd e = g).
    { intros [k' g'] Hin E. simpl in *. subst k'.
      apply (map_get_In _ _ _ Hnd) in Hin. congruence. }
    destruct (drop g) eqn:Ed.
    + unfold map_delete. apply filter_ext_in. intros e He.
      destruct (fst e =? key) eqn:E; simpl; [|reflexivity].
      apply String.eqb_eq in E. rewrite (Hsame e He E), Ed. reflexivity.
    + symmetry. apply forallb_filter_id. apply forallb_forall. intros e He.
      destruct (fst e =? key) eqn:E; simpl; [|reflexivity].
      apply String.eqb_eq in E. rewrite (Hsame e He E), Ed. reflexivity.
  - symmetry. apply forallb_filter_id. apply forallb_forall.
    intros e He. destruct (fst e =? key) eqn:E; simpl; [|reflexivity].
    apply String.eqb_eq in E. exfalso.
    apply (map_get_absent _ _ Hget). unfold keys. apply in_map_iff. eauto.
Qed.

(** The sweep over the keys deletes exactly the groups that [drop] picks. *)
Lemma deleteWhere_filter (drop : NodeGroup.t -> bool) (st : GroupMap) :
  NoDup (keys st) ->
  deleteWhere drop st = filter (fun e => negb (drop (snd e))) st.
Proof.
  intros Hnd. unfold deleteWhere.
  assert (Hsweep : forall ks s,
             NoDup (keys s) ->
             fold_left
               (fun s key =>
                  match map_get key s with
                  | Some g => if drop g then map_delete key s else s
                  | None => s
                  end) ks s
             = filter (fun e =>
                         forallb (fun k => negb (fst e =? k)
                                           || negb (drop (snd e))) ks) s).
  { induction ks as [|k ks IH]; intros s Hs; simpl.
    - symmetry. apply forallb_filter_id. apply forallb_forall. auto.
    - rewrite (deleteWhere_step drop k s Hs).
      rewrite IH by (apply keys_filter_NoDup; exact Hs).
      rewrite filter_filter. reflexivity. }
  rewrite (Hsweep (keys st) st Hnd). apply filter_ext_in. intros e He.
  destruct (drop (snd e)) eqn:Ed; simpl.
  - apply not_true_is_false. intros Hall. rewrite forallb_forall in Hall.
    specialize (Hall (fst e)). rewrite String.eqb_refl in Hall. simpl in Hall.
    assert (false = true); [|discriminate].
    apply Hall. unfold keys. apply in_map. exact He.
  - apply forallb_forall. intros k _. apply orb_true_r.
Qed.

Lemma map_get_filter (p : NodeGroup.t -> bool) (k : string) (st : GroupMap) :
  NoDup (keys st) ->
  map_get k (filter (fun e => p (snd e)) st) =
  match map_get k st with
  | Some g => if p g then Some g else None
  | None => None
  end.
Proof.
  induction st as [|[k' g'] st IH]; simpl; intros Hnd; [reflexivity|].
  inversion Hnd as [|? ? Hnotin Hnd']; subst.
  destruct (p g') eqn:Ep; simpl.
  - destruct (k' =? k); [rewrite Ep; reflexivity|auto].
  - rewrite (IH Hnd'). destruct (k' =? k) eqn:E; [|reflexivity].
    rewrite Ep. apply String.eqb_eq in E. subst k'.
    destruct (map_get k st) as [g|] eqn:Hget; [|reflexivity].
    apply map_get_in_keys in Hget. contradiction.
Qed.

(** X14: the category filter is exact.  On a map with distinct keys it
    removes the groups whose category is deselected and no other, keeps the
    order and the content of the rest, and filtering again changes
    nothing. *)
Theorem filterCategories_exact (deselected : list string) (st : GroupMap)
  (Hkeys : NoDup (keys st)) :
  filterCategories deselected st
    = filter (fun e => negb (includes (NodeGroup.category (snd e)) deselected))
             st
  /\ (forall k,
         map_get k (filterCategories deselected st) =
         match map_get k st with
         | Some g => if includes (NodeGroup.category g) deselected
                     then None else Some g
         | None => None
         end)
  /\ filterCategories deselected (filterCategories deselected st)
     = filterCategories deselected st.
Proof.
  unfold filterCategories.
  rewrite (deleteWhere_filter _ st Hkeys).
  split; [reflexivity|]. split.
  - intros k.
    rewrite (map_get_filter
               (fun g => negb (includes (NodeGroup.category g) deselected))
               k st Hkeys).
    destruct (map_get k st) as [g|]; [|reflexivity].
    destruct (includes _ _); reflexivity.
  - rewrite deleteWhere_filter by (apply keys_filter_NoDup; exact Hkeys).
    apply filter_idem.
Qed.

Lemma filterCategories_exact_witness :
  filterCategories ["Storage"] plannedGroups
  = filter (fun e => negb (includes (NodeGroup.category (snd e)) ["Storage"]))
           plannedGroups
  /\ keys (filterCategories ["Storage"] plannedGroups) = ["aws_instance.web"].
Proof.
  assert (Hkeys : NoDup (keys plannedGroups)).
  { repeat constructor; simpl; intuition discriminate. }
  destruct (filterCategories_exact ["Storage"] plannedGroups Hkeys) as (H & _).
  split; [exact H|]. rewrite H. reflexivity.
Defined.

Lemma existsb_flat_map {A B} (p : B -> bool) (f : A -> list B) (l : list A) :
  existsb p (flat_map f l) = existsb (fun x => existsb p (f x)) l.
Proof.
  induction l as [|x l IH]; simpl; [reflexivity|].
  rewrite existsb_app, IH. reflexivity.
Qed.

Lemma existsb_pointwise {A} (p q : A -> bool) (l : list A) :
  (forall x, p x = q x) -> existsb p l = existsb q l.
Proof.
  intros H. induction l as [|x l IH]; simpl; [|rewrite H, IH]; reflexivity.
Qed.

Lemma existsb_map {A B} (p : B -> bool) (f : A -> B) (l : list A) :
  existsb p (map f l) = existsb (fun x => p (f x)) l.
Proof. induction l as [|x l IH]; simpl; [|rewrite IH]; reflexivity. Qed.

(** The test of the tag filter looks at the tags that [findAndSetTags]
    collects. *)
Lemma hasSelectedTag_tags (selected : list string) (g : NodeGroup.t) :
  hasSelectedTag selected g
  = existsb (fun t => includes (Tag.name t) selected) (tagsOfGroup g).
Proof.
  unfold hasSelectedTag, tagsOfGroup.
  rewrite existsb_flat_map. apply existsb_pointwise. intros n.
  rewrite existsb_flat_map. apply existsb_pointwise. intros rc.
  rewrite existsb_map. simpl. unfold tagEntries.
  destruct (truthy (tagsAllOf rc)); reflexivity.
Qed.

(** X15: the tag filter agrees with the tag list.  With no tag selected the
    map is kept as it is; otherwise, on a map with distinct keys, a group
    survives exactly when one of the tags that [findAndSetTags] collects
    from it has a selected name. *)
Theorem filterTags_exact (selected : list string) (st : GroupMap)
  (Hkeys : NoDup (keys st)) :
  filterTags selected st =
  match selected with
  | [] => st
  | _ :: _ =>
      filter (fun e => existsb (fun t => includes (Tag.name t) selected)
                               (tagsOfGroup (snd e))) st
  end.
Proof.
  unfold filterTags. destruct selected as [|t sel]; [reflexivity|].
  cbn [List.length Nat.ltb Nat.leb].
  rewrite (deleteWhere_filter _ st Hkeys).
  apply filter_ext. intros e.
  rewrite negb_involutive. apply hasSelectedTag_tags.
Qed.

Lemma filterTags_exact_witness :
  filterTags ["team"] taggedGroups
  = filter (fun e => existsb (fun t => includes (Tag.name t) ["team"])
                             (tagsOfGroup (snd e))) taggedGroups
  /\ keys (filterTags ["team"] taggedGroups) = ["aws_instance.web"]
  /\ map Tag.name (findAndSetTags taggedGroups) = ["env"; "team"; "env"].
Proof.
  assert (Hkeys : NoDup (keys taggedGroups)).
  { repeat constructor; simpl; intuition discriminate. }
  pose proof (filterTags_exact ["team"] taggedGroups Hkeys) as H.
  split; [exact H|]. split; reflexivity.
Defined.

(** ** The category list *)

Lemma collectCategories_spec (l : list NodeGroup.t) :
  forall acc,
    NoDup acc ->
    let result :=
      fold_left
        (fun catList nodeGroup =>
           if includes (NodeGroup.category nodeGroup) catList then catList
           else catList ++ [NodeGroup.category nodeGroup]) l acc in
    NoDup result
    /\ forall c, In c result <-> In c acc \/ In c (map NodeGroup.category l).
Proof.
  induction l as [|g l IH]; intros acc Hacc; simpl.
  - split; [exact Hacc|]. intros c. tauto.
  - destruct (includes (NodeGroup.category g) acc) eqn:E.
    + destruct (IH acc Hacc) as [Hnd Hin]. split; [exact Hnd|].
      intros c. rewrite Hin. apply includes_In in E.
      split; [tauto|]. intros [H|[<-|H]]; auto.
    + assert (Hacc' : NoDup (acc ++ [NodeGroup.category g])).
      { apply (Permutation_NoDup (Permutation_cons_append _ _)).
        constructor; [|exact Hacc]. intros Hin.
        apply includes_In in Hin. congruence. }
      destruct (IH _ Hacc') as [Hnd Hin]. split; [exact Hnd|].
      intros c. rewrite Hin, in_app_iff. simpl. tauto.
Qed.

Lemma insertSorted_perm (x : string) (l : list string) :
  Permutation (insertSorted x l) (x :: l).
Proof.
  induction l as [|y l IH]; simpl; [reflexivity|].
  destruct (String.ltb x y); [reflexivity|].
  rewrite IH. apply perm_swap.
Qed.

Lemma sortStrings_perm (l : list string) : Permutation (sortStrings l) l.
Proof.
  unfold sortStrings.
  assert (H : forall acc,
             Permutation (fold_left (fun sorted x => insertSorted x sorted) l acc)
                         (acc ++ l)).
  { induction l as [|x l IH]; intros acc; simpl.
    - rewrite app_nil_r. reflexivity.
    - rewrite IH, insertSorted_perm. apply Permutation_middle. }
  apply (H []).
Qed.

Lemma ltb_asym (a b : string) : String.ltb a b = true -> String.ltb b a = false.
Proof.
  unfold String.ltb. rewrite (String.compare_antisym b a).
  destruct (String.compare a b); simpl; congruence.
Qed.

Lemma ltb_total (a b : string) :
  a <> b -> String.ltb b a = false -> String.ltb a b = true.
Proof.
  unfold String.ltb. rewrite (String.compare_antisym b a).
  destruct (String.compare a b) eqn:E; simpl; try congruence.
  apply String.compare_eq_iff in E. congruence.
Qed.

Lemma insertSorted_sorted (x : string) (l : list string) :
  Sorted (fun a b => String.ltb b a = false) l ->
  Sorted (fun a b => String.ltb b a = false) (insertSorted x l).
Proof.
  induction 1 as [|y l Hs IH Hhd]; simpl; [repeat constructor|].
  destruct (String.ltb x y) eqn:E.
  - constructor; [constructor; assumption|]. constructor.
    apply ltb_asym. exact E.
  - constructor; [exact IH|].
    destruct l as [|z l]; simpl.
    + constructor. exact E.
    + destruct (String.ltb x z); constructor; [exact E|].
      inversion Hhd; assumption.
Qed.

Lemma sortStrings_sorted (l : list string) :
  Sorted (fun a b => String.ltb b a = false) (sortStrings l).
Proof.
  unfold sortStrings.
  assert (H : forall acc,
             Sorted (fun a b => String.ltb b a = false) acc ->
             Sorted (fun a b => String.ltb b a = false)
                    (fold_left (fun sorted x => insertSorted x sorted) l acc)).
  { induction l as [|x l IH]; intros acc Hacc; simpl; [exact Hacc|].
    apply IH. apply insertSorted_sorted. exact Hacc. }
  apply H. constructor.
Qed.

Lemma Sorted_strict (l : list string) :
  NoDup l -> Sorted (fun a b => String.ltb b a = false) l ->
  Sorted (fun a b => String.ltb a b = true) l.
Proof.
  induction l as [|a l IH]; intros Hnd Hs; [constructor|].
  inversion Hnd as [|? ? Hnotin Hnd']; subst.
  inversion Hs as [|? ? Hs' Hhd]; subst.
  constructor; [auto|].
  destruct l as [|b l]; constructor.
  inversion Hhd; subst. apply ltb_total; [|assumption].
  intros ->. apply Hnotin. left. reflexivity.
Qed.

(** X16: the category list is the sorted set of the categories in use.
    [findAndSetCategories] lists exactly the categories of the groups of the
    map, each once, in strictly increasing order. *)
Theorem findAndSetCategories_sorted_set (st : GroupMap) :
  NoDup (findAndSetCategories st)
  /\ Sorted (fun a b => String.ltb a b = true) (findAndSetCategories st)
  /\ forall c,
       In c (findAndSetCategories st)
       <-> exists g, In g (values st) /\ NodeGroup.category g = c.
Proof.
  unfold findAndSetCategories, collectCategories.
  destruct (collectCategories_spec (values st) [] (NoDup_nil _)) as [Hnd Hin].
  cbv zeta in *.
  set (collected := fold_left _ (values st) []) in *.
  assert (Hsorted_nd : NoDup (sortStrings collected))
    by (apply (Permutation_NoDup (Permutation_sym (sortStrings_perm _)));
        exact Hnd).
  split; [exact Hsorted_nd|]. split.
  - apply Sorted_strict; [exact Hsorted_nd|apply sortStrings_sorted].
  - intros c. split.
    + intros H. apply (Permutation_in _ (sortStrings_perm _)) in H.
      apply Hin in H as [[]|H].
      apply in_map_iff in H as (g & E & Hg). eauto.
    + intros (g & Hg & E).
      apply (Permutation_in _ (Permutation_sym (sortStrings_perm _))).
      apply Hin. right. apply in_map_iff. eauto.
Qed.

(** ** Selections *)

(** X17: a toggle flips one entry.  On a selection without duplicates,
    [toggleCategory]/[toggleTag] of [x] changes the membership of [x], keeps
    the membership of every other entry, keeps the selection free of
    duplicates, and toggling an absent entry twice restores the
    selection. *)
Theorem toggle_flips (x : string) (selection : list string)
  (Hnd : NoDup selection) :
  (In x (toggle x selection) <-> ~ In x selection)
  /\ (forall y, y <> x -> (In y (toggle x selection) <-> In y selection))
  /\ NoDup (toggle x selection)
  /\ (~ In x selection -> toggle x (toggle x selection) = selection).
Proof.
  destruct (includes x selection) eqn:E.
  - assert (Ht : toggle x selection = filter (fun y => negb (y =? x)) selection)
      by (unfold toggle; rewrite E; reflexivity).
    rewrite Ht. clear Ht.
    apply includes_In in E. split; [|split; [|split]].
    + split; [|tauto]. intros H. apply filter_In in H as [_ H].
      rewrite String.eqb_refl in H. discriminate.
    + intros y Hy. rewrite filter_In. split; [tauto|].
      intros H. split; [exact H|].
      apply negb_true_iff. apply String.eqb_neq. exact Hy.
    + apply NoDup_filter. exact Hnd.
    + tauto.
  - assert (Ht : toggle x selection = selection ++ [x])
      by (unfold toggle; rewrite E; reflexivity).
    rewrite Ht. clear Ht.
    assert (Hnotin : ~ In x selection).
    { intros H. apply includes_In in H. congruence. }
    split; [|split; [|split]].
    + split; [tauto|]. intros _. apply in_or_app. right. left. reflexivity.
    + intros y Hy. rewrite in_app_iff. simpl. split; [|tauto].
      intros [H|[H|[]]]; [exact H|congruence].
    + apply (Permutation_NoDup (Permutation_cons_append _ _)).
      constructor; assumption.
    + intros _. unfold toggle.
      assert (Hin : includes x (selection ++ [x]) = true).
      { apply includes_In. apply in_or_app. right. left. reflexivity. }
      rewrite Hin, filter_app. simpl. rewrite String.eqb_refl. simpl.
      rewrite app_nil_r. apply forallb_filter_id. apply forallb_forall.
      intros y Hy. apply negb_true_iff. apply String.eqb_neq.
      intros ->. contradiction.
Qed.

Lemma toggle_flips_witness :
  (In "Storage" (toggle "Storage" ["Compute"]) <-> ~ In "Storage" ["Compute"])
  /\ toggle "Storage" (toggle "Storage" ["Compute"]) = ["Compute"]
  /\ toggle "Compute" ["Compute"; "Storage"] = ["Storage"].
Proof.
  assert (Hnd : NoDup ["Compute"]) by (repeat constructor; simpl; tauto).
  destruct (toggle_flips "Storage" ["Compute"] Hnd) as (H1 & _ & _ & H4).
  split; [exact H1|]. split; [|reflexivity].
  apply H4. simpl. intuition discriminate.
Defined.

Lemma indexOf_in_prefix (x : string) (pre l : list string) :
  In x pre -> exists i, indexOf x (pre ++ l) = Some i /\ i < List.length pre.
Proof.
  induction pre as [|y pre IH]; simpl; [tauto|].
  intros Hin. destruct (y =? x) eqn:E.
  - exists 0. split; [reflexivity|lia].
  - destruct Hin as [->|Hin]; [rewrite String.eqb_refl in E; discriminate|].
    destruct (IH Hin) as (i & -> & Hi). exists (S i). split; [reflexivity|lia].
Qed.

Lemma indexOf_after_prefix (x : string) (pre l : list string) :
  ~ In x pre -> indexOf x (pre ++ x :: l) = Some (List.length pre).
Proof.
  induction pre as [|y pre IH]; simpl; intros Hnotin.
  - rewrite String.eqb_refl. reflexivity.
  - destruct (y =? x) eqn:E.
    + apply String.eqb_eq in E. tauto.
    + rewrite IH by tauto. reflexivity.
Qed.

(** Keeping the entries that stand at their first index keeps the first
    occurrence of every entry. *)
Lemma first_occurrences (self : list string) :
  forall l pre,
    self = pre ++ l ->
    let kept :=
      filteri_from (List.length pre)
        (fun tag index =>
           match indexOf tag self with
           | Some i => Nat.eqb i index
           | None => false
           end) l in
    NoDup kept /\ forall x, In x kept <-> In x l /\ ~ In x pre.
Proof.
  induction l as [|x l IH]; intros pre Hself; simpl.
  - split; [constructor|]. intros y. tauto.
  - assert (Hself' : self = (pre ++ [x]) ++ l)
      by (rewrite <- app_assoc; exact Hself).
    specialize (IH (pre ++ [x]) Hself'). cbv zeta in IH.
    rewrite length_app in IH. simpl in IH.
    replace (List.length pre + 1) with (S (List.length pre)) in IH by lia.
    destruct IH as [Hnd Hin].
    destruct (in_dec string_dec x pre) as [Hx|Hx].
    + destruct (indexOf_in_prefix x pre (x :: l) Hx) as (i & Hi & Hlt).
      rewrite Hself, Hi. rewrite <- Hself.
      replace (Nat.eqb i (List.length pre)) with false
        by (symmetry; apply Nat.eqb_neq; lia).
      split; [exact Hnd|]. intros y. rewrite Hin, in_app_iff. simpl.
      split.
      * intros [H1 H2]. split; [auto|]. tauto.
      * intros [[<-|H1] H2]; [contradiction|]. split; [exact H1|].
        intros [H|[<-|[]]]; contradiction.
    + rewrite Hself, (indexOf_after_prefix x pre l Hx), Nat.eqb_refl.
      rewrite <- Hself. split.
      * constructor; [|exact Hnd]. rewrite Hin, in_app_iff. simpl. tauto.
      * intros y. simpl. rewrite Hin, in_app_iff. simpl.
        destruct (string_dec x y) as [<-|Hne]; [tauto|]. tauto.
Qed.

(** X18: the tag menu lists every tag name once.  The names offered are
    exactly the names of the collected tags, without duplicates. *)
Theorem tagNames_distinct (tags : list Tag.t) :
  NoDup (tagNames tags)
  /\ forall x, In x (tagNames tags) <-> In x (map Tag.name tags).
Proof.
  unfold tagNames, filteri.
  destruct (first_occurrences (map Tag.name tags) (map Tag.name tags) []
              eq_refl) as [Hnd Hin].
  split; [exact Hnd|]. intros x. rewrite (Hin x). simpl. tauto.
Qed.

(** ** Shape ids *)

(** The group id of a shape id. *)
Lemma groupIdOfShape_roundtrip (groupId date : string)
  (Hcolon : contains colon groupId = false) :
  groupIdOfShape (shapeIdOf groupId date) = Some groupId
  /\ forall tail,
       groupIdOfShape (shapeIdOf (groupId ++ ":" ++ tail)%string date)
       = Some groupId.
Proof.
  unfold groupIdOfShape, shapeIdOf. split.
  - change ("shape:" ++ groupId ++ ":" ++ date)%string
      with ("shape" ++ String colon (groupId ++ String colon date))%string.
    rewrite split_app_sep by reflexivity.
    rewrite split_app_sep by exact Hcolon. reflexivity.
  - intros tail.
    change ("shape:" ++ (groupId ++ ":" ++ tail) ++ ":" ++ date)%string
      with ("shape" ++ String colon ((groupId ++ String colon tail) ++
                                     String colon date))%string.
    rewrite split_app_sep by reflexivity.
    replace ((groupId ++ String colon tail) ++ String colon date)%string
      with (groupId ++ String colon (tail ++ String colon date))%string.
    + rewrite split_app_sep by exact Hcolon. reflexivity.
    + clear. induction groupId as [|c s IH]; simpl; [reflexivity|].
      rewrite IH. reflexivity.
Qed.

(** X19: a shape id gives its group id back, up to the first colon.  For an
    id without a colon, the selection handler recovers it from the shape id
    that the layout builds; a colon in the id cuts the recovered id
    short. *)
Theorem groupIdOfShape_shapeIdOf (groupId date : string)
  (Hcolon : contains colon groupId = false) :
  groupIdOfShape (shapeIdOf groupId date) = Some groupId
  /\ forall tail,
       groupIdOfShape (shapeIdOf (groupId ++ ":" ++ tail)%string date)
       = Some groupId.
Proof. exact (groupIdOfShape_roundtrip groupId date Hcolon). Qed.

Lemma groupIdOfShape_shapeIdOf_witness :
  groupIdOfShape (shapeIdOf "module.vpc.aws_subnet.this" "1700000000000")
  = Some "module.vpc.aws_subnet.this".
Proof.
  exact (proj1 (groupIdOfShape_shapeIdOf "module.vpc.aws_subnet.this"
                  "1700000000000" eq_refl)).
Defined.

Lemma filter_none {A} (p : A -> bool) (l : list A) :
  Forall (fun x => p x = false) l -> filter p l = [].
Proof.
  induction 1 as [|x l Hx _ IH]; simpl; [reflexivity|].
  rewrite Hx. exact IH.
Qed.

Lemma module_id_not_resource (m : string) :
  contains dot m = false ->
  Block.isResourceWithName (checkHclBlockType ("module." ++ m)%string) = false.
Proof.
  intros Hm. unfold checkHclBlockType.
  replace (startsWith "module." ("module." ++ m)%string) with true
    by (symmetry; apply startsWith_app).
  change ("module." ++ m)%string with ("module" ++ String dot m)%string.
  rewrite split_app_sep by reflexivity.
  rewrite (split_no_sep dot m Hm). reflexivity.
Qed.

Lemma selectedChanges_no_group
  (storedNodeGroups : list NodeGroup.t) (m date : string)
  (Hstored : Forall groupIdOk storedNodeGroups)
  (Hdot : contains dot m = false)
  (Hcolon : contains colon m = false) :
  selectedChanges storedNodeGroups (shapeIdOf ("module." ++ m)%string date)
  = TypeError.
Proof.
  unfold selectedChanges.
  assert (Hc : contains colon ("module." ++ m)%string = false)
    by (simpl; exact Hcolon).
  rewrite (proj1 (groupIdOfShape_roundtrip _ date Hc)).
  rewrite filter_none; [reflexivity|].
  eapply Forall_impl; [|exact Hstored].
  intros g Hg. apply String.eqb_neq. intros E.
  unfold groupIdOk in Hg. rewrite E, (module_id_not_resource m Hdot) in Hg.
  discriminate.
Qed.

Lemma selectedChanges_first_group
  (before rest : list NodeGroup.t) (g : NodeGroup.t) (date : string)
  (Hcolon : contains colon (NodeGroup.id g) = false)
  (Hfirst : Forall (fun g' => NodeGroup.id g' <> NodeGroup.id g) before) :
  selectedChanges (before ++ g :: rest) (shapeIdOf (NodeGroup.id g) date)
  = Ok (flat_map resourceChanges (NodeGroup.nodes g)).
Proof.
  unfold selectedChanges.
  rewrite (proj1 (groupIdOfShape_roundtrip _ date Hcolon)).
  rewrite filter_app, filter_none.
  - simpl. rewrite String.eqb_refl. reflexivity.
  - eapply Forall_impl; [|exact Hfirst].
    intros g' Hg'. apply String.eqb_neq. exact Hg'.
Qed.

Lemma shapeIdOf_not_empty (groupId date : string) :
  (shapeIdOf groupId date =? "") = false.
Proof. reflexivity. Qed.

(** X20: selecting a module frame throws when a plan is stored.  The frame
    of module [m] has the shape id of ["module." + m], which is the id of no
    stored group, because group ids classify as resources with a name.
    Without a stored plan the handler hides the sidebar; with one it reads
    [.nodes] of [undefined]. *)
Theorem handleShapeSelectionChange_module_frame
  (planJson : option Plan) (storedNodeGroups : list NodeGroup.t)
  (m date : string)
  (Hstored : Forall groupIdOk storedNodeGroups)
  (Hdot : contains dot m = false)
  (Hcolon : contains colon m = false) :
  handleShapeSelectionChange planJson (Some storedNodeGroups)
    (shapeIdOf ("module." ++ m)%string date)
  = match planJson with
    | Some _ => TypeError
    | None => Ok Hidden
    end.
Proof.
  unfold handleShapeSelectionChange. rewrite shapeIdOf_not_empty.
  destruct planJson as [plan|]; [|reflexivity]. simpl orb. cbv iota.
  rewrite (selectedChanges_no_group storedNodeGroups m date Hstored Hdot Hcolon).
  reflexivity.
Qed.

Lemma handleShapeSelectionChange_module_frame_witness :
  handleShapeSelectionChange (Some createPlan) (Some (values plannedGroups))
    (shapeIdOf ("module." ++ "vpc")%string "1700000000000") = TypeError
  /\ handleShapeSelectionChange None (Some (values plannedGroups))
       (shapeIdOf ("module." ++ "vpc")%string "1700000000000") = Ok Hidden.
Proof.
  split.
  - apply (handleShapeSelectionChange_module_frame (Some createPlan)
             (values plannedGroups) "vpc").
    + repeat constructor.
    + reflexivity.
    + reflexivity.
  - apply (handleShapeSelectionChange_module_frame None
             (values plannedGroups) "vpc").
    + repeat constructor.
    + reflexivity.
    + reflexivity.
Defined.

(** X21: selecting a group shows the changes of all its members when a plan
    is stored.  For a stored group whose id has no colon and that is the
    first with its id, the handler shows the change records of its members,
    in member order; without a stored plan it hides the sidebar. *)
Theorem handleShapeSelectionChange_group
  (planJson : option Plan) (before rest : list NodeGroup.t) (g : NodeGroup.t)
  (date : string)
  (Hcolon : contains colon (NodeGroup.id g) = false)
  (Hfirst : Forall (fun g' => NodeGroup.id g' <> NodeGroup.id g) before) :
  handleShapeSelectionChange planJson (Some (before ++ g :: rest))
    (shapeIdOf (NodeGroup.id g) date)
  = Ok match planJson with
       | Some _ => Changes (flat_map resourceChanges (NodeGroup.nodes g))
       | None => Hidden
       end.
Proof.
  unfold handleShapeSelectionChange. rewrite shapeIdOf_not_empty.
  destruct planJson as [plan|]; [|reflexivity]. simpl orb. cbv iota.
  rewrite (selectedChanges_first_group before rest g date Hcolon Hfirst).
  reflexivity.
Qed.

Lemma handleShapeSelectionChange_group_witness :
  handleShapeSelectionChange (Some createPlan)
    (Some ([] ++ NodeGroup.mk
                   [ {| nodeModel := node "n1 aws_instance.web";
                        resourceChanges := resource_changes createPlan |} ]
                   "aws_instance.web" (node "n1 aws_instance.web") [] []
                   (JStr "web-1") "aws_instance" "Compute" "icons/ec2.png"
                   "EC2" "" "create" :: []))
    (shapeIdOf "aws_instance.web" "1700000000000")
  = Ok (Changes (resource_changes createPlan ++ [])).
Proof.
  exact (handleShapeSelectionChange_group (Some createPlan) [] []
           (NodeGroup.mk
              [ {| nodeModel := node "n1 aws_instance.web";
                   resourceChanges := resource_changes createPlan |} ]
              "aws_instance.web" (node "n1 aws_instance.web") [] []
              (JStr "web-1") "aws_instance" "Compute" "icons/ec2.png" "EC2" ""
              "create")
           "1700000000000" eq_refl (Forall_nil _)).
Defined.

(** ** What the connectivity resolver records *)

Lemma frameOf_mutate (k : string) (f : NodeGroup.t -> NodeGroup.t)
  (st : GroupMap) :
  (forall g, sansConnections (f g) = sansConnections g) ->
  frameOf (map_mutate k f st) = frameOf st.
Proof.
  intros Hf. unfold frameOf, map_mutate. rewrite map_map. apply map_ext.
  intros [k' g]. simpl. destruct (k' =? k); simpl; [rewrite Hf|]; reflexivity.
Qed.

Lemma frameOf_connectEdge (edge : EdgeModel) (st : GroupMap) :
  frameOf (connectEdge edge st) = frameOf st.
Proof.
  unfold connectEdge.
  destruct (ownerOf st (targets0 edge)) as [[fk fg]|]; [|reflexivity].
  destruct (ownerOf st (targets1 edge)) as [[tk tg]|]; [|reflexivity].
  destruct (_ && _); [|reflexivity].
  rewrite !frameOf_mutate; reflexivity.
Qed.

Lemma keys_frameOf (st : GroupMap) : keys (frameOf st) = keys st.
Proof. unfold keys, frameOf. rewrite map_map. reflexivity. Qed.

Lemma memberIds_frameOf (st : GroupMap) : memberIds (frameOf st) = memberIds st.
Proof.
  induction st as [|[k g] st IH]; [reflexivity|].
  change (frameOf ((k, g) :: st)) with ((k, sansConnections g) :: frameOf st).
  rewrite !memberIds_cons, IH. reflexivity.
Qed.

Lemma map_get_frameOf (k : string) (st : GroupMap) :
  map_get k (frameOf st) = option_map sansConnections (map_get k st).
Proof.
  induction st as [|[k' g] st IH]; simpl; [reflexivity|].
  destruct (k' =? k); [reflexivity|exact IH].
Qed.

Lemma ownerKey_frameOf (st : GroupMap) (i : string) :
  ownerKey (frameOf st) i = ownerKey st i.
Proof.
  unfold ownerKey, ownerOf, frameOf.
  induction st as [|[k g] st IH]; simpl; [reflexivity|].
  destruct (existsb _ (NodeGroup.nodes g)); simpl; [reflexivity|exact IH].
Qed.

Lemma ownerKey_map_get (st : GroupMap) (i k : string) :
  NoDup (keys st) -> ownerKey st i = Some k ->
  exists g, ownerOf st i = Some (k, g) /\ map_get k st = Some g.
Proof.
  unfold ownerKey. intros Hnd H.
  destruct (ownerOf st i) as [[k' g]|] eqn:Ho; [|discriminate].
  simpl in H. injection H as ->. exists g. split; [reflexivity|].
  apply map_get_In; [exact Hnd|]. apply (ownerOf_In _ _ _ Ho).
Qed.

Lemma linkedBy_snoc (st0 : GroupMap) (done : list EdgeModel) (e : EdgeModel)
  (a b : string) :
  linkedBy st0 (done ++ [e]) a b
  <-> linkedBy st0 done a b
      \/ (ownerKey st0 (targets0 e) = Some a
          /\ ownerKey st0 (targets1 e) = Some b).
Proof.
  unfold linkedBy. split.
  - intros (e' & Hin & H). apply in_app_or in Hin as [Hin|[<-|[]]]; eauto.
  - intros [(e' & Hin & H)|H].
    + exists e'. split; [apply in_or_app; auto|exact H].
    + exists e. split; [apply in_or_app; right; left; reflexivity|exact H].
Qed.

(** One more edge: the connections follow the links. *)
Lemma connectEdge_connectedAs (st0 : GroupMap) (done : list EdgeModel)
  (e : EdgeModel) (s : GroupMap) :
  NoDup (keys st0) ->
  connectedAs st0 done s -> connectedAs st0 (done ++ [e]) (connectEdge e s).
Proof.
  intros Hnd0 [Hframe Hinv].
  assert (Hnd : NoDup (keys s))
    by (rewrite <- keys_frameOf, Hframe, keys_frameOf; exact Hnd0).
  assert (Hown : forall i, ownerKey st0 i = ownerKey s i)
    by (intros i; rewrite <- (ownerKey_frameOf s), Hframe;
        symmetry; apply ownerKey_frameOf).
  split; [rewrite frameOf_connectEdge; exact Hframe|].
  intros a ga' Hget b. rewrite !linkedBy_snoc, !Hown.
  unfold connectEdge in Hget. unfold ownerKey.
  destruct (ownerOf s (targets0 e)) as [[fk fg]|] eqn:Hfrom;
    [|destruct (Hinv a ga' Hget b) as [H1 H2]; simpl; split;
      [rewrite H1|rewrite H2]; intuition discriminate].
  destruct (ownerOf s (targets1 e)) as [[tk tg]|] eqn:Hto;
    [|destruct (Hinv a ga' Hget b) as [H1 H2]; simpl; split;
      [rewrite H1|rewrite H2]; intuition discriminate].
  assert (Hfg : map_get fk s = Some fg)
    by (apply map_get_In; [exact Hnd|apply (ownerOf_In _ _ _ Hfrom)]).
  assert (Htg : map_get tk s = Some tg)
    by (apply map_get_In; [exact Hnd|apply (ownerOf_In _ _ _ Hto)]).
  cbn [fst snd option_map] in *.
  destruct (Hinv fk fg Hfg tk) as [Hout_f _].
  destruct (Hinv tk tg Htg fk) as [_ Hin_t].
  destruct (includes tk (NodeGroup.connectionsOut fg)) eqn:Eout.
  - (* already listed *)
    cbn [negb andb] in Hget. apply includes_In in Eout.
    destruct (Hinv a ga' Hget b) as [H1 H2]. split.
    + rewrite <- H1. split; [auto|]. intros [H|[E1 E2]]; [exact H|].
      injection E1 as <-. injection E2 as <-. congruence.
    + rewrite <- H2. split; [auto|]. intros [H|[E1 E2]]; [exact H|].
      injection E1 as <-. injection E2 as <-.
      assert (ga' = tg) by congruence. subst ga'.
      apply Hin_t. apply Hout_f. exact Eout.
  - destruct (includes fk (NodeGroup.connectionsIn tg)) eqn:Ein.
    + cbn [negb andb] in Hget. apply includes_In in Ein.
      destruct (Hinv a ga' Hget b) as [H1 H2]. split.
      * rewrite <- H1. split; [auto|]. intros [H|[E1 E2]]; [exact H|].
        injection E1 as <-. injection E2 as <-.
        assert (ga' = fg) by congruence. subst ga'.
        apply Hout_f. apply Hin_t. exact Ein.
      * rewrite <- H2. split; [auto|]. intros [H|[E1 E2]]; [exact H|].
        injection E1 as <-. injection E2 as <-. congruence.
    + cbn [negb andb] in Hget. rewrite !map_get_mutate in Hget.
      destruct (map_get a s) as [ga|] eqn:Ha; [|discriminate].
      injection Hget as <-.
      destruct (Hinv a ga Ha b) as [H1 H2]. split.
      * rewrite <- H1.
        destruct (String.eqb_spec a fk) as [Hf|Hf];
          destruct (String.eqb_spec a tk) as [Ht|Ht];
          cbn [NodeGroup.connectionsOut NodeGroup.push_in NodeGroup.push_out];
          try rewrite in_app_iff; cbn [In];
          intuition congruence.
      * rewrite <- H2.
        destruct (String.eqb_spec a fk) as [Hf|Hf];
          destruct (String.eqb_spec a tk) as [Ht|Ht];
          cbn [NodeGroup.connectionsIn NodeGroup.push_in NodeGroup.push_out];
          try rewrite in_app_iff; cbn [In];
          intuition congruence.
Qed.

Lemma computeConnections_connectedAs (sg : SubgraphModel) (st : GroupMap) :
  NoDup (keys st) -> unconnected st ->
  connectedAs st (edges sg) (computeConnections sg st).
Proof.
  intros Hnd Hun. unfold computeConnections.
  assert (Hfold : forall es done s,
             connectedAs st done s ->
             connectedAs st (done ++ es)
                         (fold_left (fun st edge => connectEdge edge st) es s)).
  { induction es as [|e es IH]; intros done s Hs; simpl.
    - rewrite app_nil_r. exact Hs.
    - replace (done ++ e :: es) with ((done ++ [e]) ++ es)
        by (rewrite <- app_assoc; reflexivity).
      apply IH. apply connectEdge_connectedAs; assumption. }
  apply (Hfold (edges sg) [] st).
  split; [reflexivity|]. intros a ga Hget b.
  assert (Hin : In (a, ga) st).
  { clear -Hget. induction st as [|[k g] st IH]; simpl in *; [discriminate|].
    destruct (k =? a) eqn:E; [|auto].
    apply String.eqb_eq in E. injection Hget as ->. subst. auto. }
  unfold unconnected in Hun. rewrite Forall_forall in Hun.
  destruct (Hun _ Hin) as [Ho Hi]. simpl in Ho, Hi. rewrite Ho, Hi.
  unfold linkedBy. simpl. split; split; try tauto; intros (e & [] & _).
Qed.


Lemma map_get_same_keys (st st' : GroupMap) (k : string) (g : NodeGroup.t) :
  keys st' = keys st -> map_get k st = Some g ->
  exists g', map_get k st' = Some g'.
Proof.
  revert st'. induction st as [|[k0 g0] st IH]; intros [|[k1 g1] st'];
    simpl; intros Hk Hget; try discriminate.
  injection Hk as -> Hk. destruct (k0 =? k); eauto.
Qed.

Lemma connectedAs_mutual (st : GroupMap) (done : list EdgeModel)
  (s : GroupMap) :
  NoDup (keys st) -> connectedAs st done s ->
  forall a ga b,
    map_get a s = Some ga ->
    (In b (NodeGroup.connectionsOut ga) ->
     exists gb, map_get b s = Some gb /\ In a (NodeGroup.connectionsIn gb))
    /\ (In b (NodeGroup.connectionsIn ga) ->
        exists gb, map_get b s = Some gb /\ In a (NodeGroup.connectionsOut gb)).
Proof.
  intros Hkeys [Hframe Hinv].
  assert (Hk : keys s = keys st)
    by (rewrite <- keys_frameOf, Hframe; apply keys_frameOf).
  intros a ga b Hget. split; intros Hin.
  - apply (Hinv a ga Hget b) in Hin. pose proof Hin as (e & _ & _ & Hb).
    destruct (ownerKey_map_get st _ b Hkeys Hb) as (g0 & _ & Hg0).
    destruct (map_get_same_keys st _ b g0 Hk Hg0) as (gb & Hgb).
    exists gb. split; [exact Hgb|]. apply (Hinv b gb Hgb a). exact Hin.
  - apply (Hinv a ga Hget b) in Hin. pose proof Hin as (e & _ & Hb & _).
    destruct (ownerKey_map_get st _ b Hkeys Hb) as (g0 & _ & Hg0).
    destruct (map_get_same_keys st _ b g0 Hk Hg0) as (gb & Hgb).
    exists gb. split; [exact Hgb|]. apply (Hinv b gb Hgb a). exact Hin.
Qed.

(** X23: connections are mutual and never dangle.  After the resolver has
    run on a map with distinct keys and no connection, every key listed in a
    [connectionsOut] is the key of a group of the map that lists the source
    in its [connectionsIn], and conversely. *)
Theorem computeConnections_mutual (sg : SubgraphModel) (st : GroupMap)
  (Hkeys : NoDup (keys st)) (Hun : unconnected st) :
  forall a ga b,
    map_get a (computeConnections sg st) = Some ga ->
    (In b (NodeGroup.connectionsOut ga) ->
     exists gb, map_get b (computeConnections sg st) = Some gb
                /\ In a (NodeGroup.connectionsIn gb))
    /\ (In b (NodeGroup.connectionsIn ga) ->
        exists gb, map_get b (computeConnections sg st) = Some gb
                   /\ In a (NodeGroup.connectionsOut gb)).
Proof.
  apply (connectedAs_mutual st (edges sg)); [exact Hkeys|].
  apply computeConnections_connectedAs; assumption.
Qed.

Lemma connectEdge_singleIn (edge : EdgeModel) (st : GroupMap) :
  NoDup (keys st) ->
  (forall k g, map_get k st = Some g -> NoDup (NodeGroup.connectionsIn g)) ->
  forall k g, map_get k (connectEdge edge st) = Some g ->
              NoDup (NodeGroup.connectionsIn g).
Proof.
  intros Hnd Hsingle. unfold connectEdge.
  destruct (ownerOf st (targets0 edge)) as [[fk fg]|] eqn:Hfrom; [|exact Hsingle].
  destruct (ownerOf st (targets1 edge)) as [[tk tg]|] eqn:Hto; [|exact Hsingle].
  simpl.
  destruct (includes tk (NodeGroup.connectionsOut fg)); simpl; [exact Hsingle|].
  destruct (includes fk (NodeGroup.connectionsIn tg)) eqn:Hin; simpl;
    [exact Hsingle|].
  intros k g. rewrite !map_get_mutate.
  destruct (map_get k st) as [g0|] eqn:Hget; [|discriminate].
  intros E. injection E as <-.
  assert (Hg0 := Hsingle k g0 Hget).
  assert (Hown : k = tk -> g0 = tg).
  { intros ->. apply ownerOf_In in Hto.
    apply (map_get_In _ _ _ Hnd) in Hto. congruence. }
  destruct (String.eqb_spec k tk) as [Et|Et].
  - specialize (Hown Et). subst g0.
    assert (Hnew : NoDup (NodeGroup.connectionsIn tg ++ [fk])).
    { apply (Permutation_NoDup (Permutation_cons_append _ fk)).
      constructor; [|exact Hg0]. intros H.
      apply includes_In in H. congruence. }
    destruct (k =? fk); exact Hnew.
  - destruct (k =? fk); exact Hg0.
Qed.

Lemma unconnected_get (st : GroupMap) (k : string) (g : NodeGroup.t) :
  unconnected st -> map_get k st = Some g ->
  NodeGroup.connectionsOut g = [] /\ NodeGroup.connectionsIn g = [].
Proof.
  intros Hun Hget. unfold unconnected in Hun. rewrite Forall_forall in Hun.
  apply (Hun (k, g)).
  clear -Hget. induction st as [|[k' g'] st IH]; simpl in *; [discriminate|].
  destruct (k' =? k) eqn:E; [|auto].
  apply String.eqb_eq in E. injection Hget as ->. subst. auto.
Qed.

(** X24: no connection is listed twice.  After the resolver has run on a
    map with distinct keys and no connection, no [connectionsOut] and no
    [connectionsIn] holds a key twice, however many edges join two
    groups. *)
Theorem computeConnections_no_multi_edges (sg : SubgraphModel) (st : GroupMap)
  (Hkeys : NoDup (keys st)) (Hun : unconnected st) :
  forall k g,
    map_get k (computeConnections sg st) = Some g ->
    NoDup (NodeGroup.connectionsOut g) /\ NoDup (NodeGroup.connectionsIn g).
Proof.
  intros k g Hget. split.
  - revert k g Hget. apply computeConnections_singleEdges; [exact Hkeys|].
    intros k g Hg. destruct (unconnected_get st k g Hun Hg) as [-> _].
    constructor.
  - revert k g Hget. unfold computeConnections.
    assert (Hfold : forall es s,
               NoDup (keys s) ->
               (forall k g, map_get k s = Some g ->
                            NoDup (NodeGroup.connectionsIn g)) ->
               forall k g,
                 map_get k (fold_left (fun st edge => connectEdge edge st) es s)
                 = Some g ->
                 NoDup (NodeGroup.connectionsIn g)).
    { induction es as [|e es IH]; intros s Hs Hsingle; simpl; [exact Hsingle|].
      apply IH; [rewrite keys_connectEdge; exact Hs|].
      apply connectEdge_singleIn; assumption. }
    apply Hfold; [exact Hkeys|].
    intros k g Hg. destruct (unconnected_get st k g Hun Hg) as [_ ->].
    constructor.
Qed.

(** ** The whole pass *)

(** X25: a graph without a subgraph aborts the pass.  Whatever the table,
    the plan and the flags, [parseModel] throws on a model without
    subgraphs, when it reads [.nodes] or [.edges] of
    [model.subgraphs[0]]. *)
Theorem parseModel_no_subgraph (jsonArray : Table) (planJsonObj : option Plan)
  (ambient : Ambient) :
  parseModel {| subgraphs := [] |} jsonArray planJsonObj ambient = TypeError.
Proof.
  unfold parseModel, groupPhase, prunePhase. simpl.
  destruct (detailed ambient); simpl; [reflexivity|].
  destruct (negb (showInactive ambient) && _); reflexivity.
Qed.

Lemma memberIds_filter_incl (p : string * NodeGroup.t -> bool) (st : GroupMap)
  (i : string) :
  In i (memberIds (filter p st)) -> In i (memberIds st).
Proof.
  unfold memberIds, values. rewrite !in_flat_map.
  intros (g & Hg & Hi). exists g. split; [|exact Hi].
  apply in_map_iff in Hg as (e & <- & He). apply filter_In in He as [He _].
  apply in_map. exact He.
Qed.

Lemma NoDup_app_disjoint {A} (l1 l2 : list A) (a : A) :
  NoDup (l1 ++ l2) -> In a l1 -> ~ In a l2.
Proof.
  induction l1 as [|x l1 IH]; simpl; intros Hnd Hin; [tauto|].
  inversion Hnd as [|? ? Hnotin Hnd']; subst.
  destruct Hin as [->|Hin]; [|auto].
  intros H. apply Hnotin. apply in_or_app. auto.
Qed.

Lemma memberIds_filter_NoDup (p : string * NodeGroup.t -> bool) (st : GroupMap) :
  NoDup (memberIds st) -> NoDup (memberIds (filter p st)).
Proof.
  induction st as [|[k g] st IH]; simpl; intros Hnd; [constructor|].
  rewrite memberIds_cons in Hnd.
  pose proof (NoDup_app_remove_l _ _ Hnd) as Hrest.
  destruct (p (k, g)); [|auto].
  rewrite memberIds_cons. apply NoDup_app.
  - exact (NoDup_app_remove_r _ _ Hnd).
  - auto.
  - intros i Hi Hin. apply memberIds_filter_incl in Hin.
    exact (NoDup_app_disjoint _ _ i Hnd Hi Hin).
Qed.

Lemma kept_ids_NoDup {A B} (idOf : A -> B) (keep : A -> bool) :
  forall members,
    NoDup (map idOf members) -> NoDup (map idOf (filter keep members)).
Proof.
  intros members Hnd. induction members as [|m members IH]; [exact Hnd|].
  cbn in Hnd |- *. apply NoDup_cons_iff in Hnd as [Hm Hrest].
  destruct (keep m); [|exact (IH Hrest)].
  cbn. apply NoDup_cons; [|exact (IH Hrest)].
  rewrite in_map_iff in *. intros (y & E & Hy). apply Hm.
  exists y. split; [exact E|]. apply filter_In in Hy. tauto.
Qed.

Lemma memberIds_prune_members (p : Member -> bool) (st : GroupMap) :
  NoDup (memberIds st) ->
  NoDup (memberIds
           (map (fun e => (fst e, NodeGroup.with_nodes (filter p) (snd e))) st)).
Proof.
  induction st as [|[k g] st IH]; simpl; intros Hnd; [constructor|].
  rewrite memberIds_cons in *.
  pose proof (NoDup_app_remove_l _ _ Hnd) as Hrest.
  apply NoDup_app.
  - unfold memberIdsOf. simpl. apply kept_ids_NoDup.
    exact (NoDup_app_remove_r _ _ Hnd).
  - auto.
  - intros i Hi Hin.
    assert (Hi' : In i (memberIdsOf g)).
    { unfold memberIdsOf in *. simpl in Hi.
      apply in_map_iff in Hi as (m & E & Hm). apply filter_In in Hm as [Hm _].
      apply in_map_iff. eauto. }
    assert (Hin' : In i (memberIds st)).
    { clear -Hin. unfold memberIds, values in *. rewrite in_flat_map in *.
      destruct Hin as (g' & Hg' & Hi).
      apply in_map_iff in Hg' as (e' & <- & He').
      apply in_map_iff in He' as (e0 & <- & He0). simpl in Hi.
      exists (snd e0). split; [apply in_map; exact He0|].
      unfold memberIdsOf in *. simpl in Hi.
      apply in_map_iff in Hi as (m & E & Hm). apply filter_In in Hm as [Hm _].
      apply in_map_iff. eauto. }
    exact (NoDup_app_disjoint _ _ i Hnd Hi' Hin').
Qed.


Lemma recordOk_with_nodes (k : string) (g : NodeGroup.t)
  (f : list Member -> list Member) :
  recordOk (k, g) -> recordOk (k, NodeGroup.with_nodes f g).
Proof. intros H. exact H. Qed.

Lemma pruneSpec_preConnected (st : GroupMap) :
  preConnected st -> preConnected (pruneSpec st).
Proof.
  intros (Hk & Hnd & Hrec). split; [|split].
  - rewrite keys_pruneSpec. apply keys_filter_NoDup. exact Hk.
  - unfold pruneSpec. apply memberIds_prune_members.
    apply memberIds_filter_NoDup. exact Hnd.
  - unfold pruneSpec. apply Forall_forall. intros e He.
    apply in_map_iff in He as (e0 & <- & He0).
    apply filter_In in He0 as [He0 _].
    rewrite Forall_forall in Hrec. specialize (Hrec e0 He0).
    destruct e0 as [k g]. apply recordOk_with_nodes. exact Hrec.
Qed.

Lemma filter_preConnected (p : string * NodeGroup.t -> bool) (st : GroupMap) :
  preConnected st -> preConnected (filter p st).
Proof.
  intros (Hk & Hnd & Hrec). split; [|split].
  - apply keys_filter_NoDup. exact Hk.
  - apply memberIds_filter_NoDup. exact Hnd.
  - apply Forall_filter. exact Hrec.
Qed.

Lemma groupPhase_preConnected (model : RootGraphModel) (jsonArray : Table)
  (planJsonObj : option Plan) (ambient : Ambient) (st : GroupMap) :
  groupPhase model jsonArray planJsonObj ambient = Ok st ->
  preConnected st /\ Forall mainFirst st.
Proof.
  intros Hrun.
  destruct (groupPhase_partition_holds model jsonArray planJsonObj ambient st Hrun)
    as (Hk & Hnd & _ & Hmain).
  repeat split; auto.
  apply (groupPhase_recordOk model jsonArray planJsonObj ambient st Hrun).
Qed.

(** X26: what a completed pass guarantees.  When [parseModel] completes,
    the groups it hands to the layout have distinct keys and pairwise
    disjoint member lists; every group has its key as id, an id that
    classifies as a resource with a name, and a category that is not
    deselected; and every connection is mutual and names a group that
    survived the filters. *)
Theorem parseModel_guarantees
  (model : RootGraphModel) (jsonArray : Table) (planJsonObj : option Plan)
  (ambient : Ambient) (out : Parsed)
  (Hrun : parseModel model jsonArray planJsonObj ambient = Ok out) :
  NoDup (keys (groups out))
  /\ NoDup (memberIds (groups out))
  /\ Forall (fun e => presentable (deselectedCategories ambient)
                                  (fst e) (snd e))
            (groups out)
  /\ forall a ga b,
       map_get a (groups out) = Some ga ->
       (In b (NodeGroup.connectionsOut ga) ->
        exists gb, map_get b (groups out) = Some gb
                   /\ In a (NodeGroup.connectionsIn gb))
       /\ (In b (NodeGroup.connectionsIn ga) ->
           exists gb, map_get b (groups out) = Some gb
                      /\ In a (NodeGroup.connectionsOut gb)).
Proof.
  unfold parseModel in Hrun.
  apply bind_Ok_inv in Hrun as (grouped & Hgroup & Hrun).
  apply bind_Ok_inv in Hrun as (pruned & Hprune & Hrun).
  destruct (subgraphs model) as [|sg rest]; [discriminate|].
  injection Hrun as <-. cbn [groups].
  destruct (groupPhase_preConnected _ _ _ _ _ Hgroup) as [Hpre Hmain].
  assert (Hpruned : preConnected pruned).
  { unfold prunePhase in Hprune.
    destruct (negb (showInactive ambient) && _).
    - destruct Hpre as (Hk & Hpre').
      rewrite (pruneInactive_pruneSpec grouped Hk Hmain) in Hprune.
      injection Hprune as <-. apply pruneSpec_preConnected.
      split; assumption.
    - injection Hprune as <-. exact Hpre. }
  set (des := deselectedCategories ambient).
  assert (Hcat : filterCategories des pruned
                 = filter (fun e => negb (includes (NodeGroup.category (snd e))
                                                   des)) pruned).
  { unfold filterCategories. apply deleteWhere_filter. apply Hpruned. }
  assert (Hf1 : preConnected (filterCategories des pruned)
                /\ Forall (fun e => ~ In (NodeGroup.category (snd e)) des)
                          (filterCategories des pruned)).
  { rewrite Hcat. split; [apply filter_preConnected; exact Hpruned|].
    apply Forall_forall. intros e He. apply filter_In in He as [_ He].
    intros Hin. apply includes_In in Hin. rewrite Hin in He. discriminate. }
  destruct Hf1 as [Hpre1 Hdes1].
  set (f1 := filterCategories des pruned) in *.
  assert (Hf2 : preConnected (filterTags (selectedTags ambient) f1)
                /\ Forall (fun e => ~ In (NodeGroup.category (snd e)) des)
                          (filterTags (selectedTags ambient) f1)).
  { unfold filterTags. destruct (Nat.ltb 0 _); [|auto].
    rewrite deleteWhere_filter by apply Hpre1.
    split; [apply filter_preConnected; exact Hpre1|].
    apply Forall_filter. exact Hdes1. }
  destruct Hf2 as [(Hk2 & Hnd2 & Hrec2) Hdes2].
  set (f2 := filterTags (selectedTags ambient) f1) in *.
  assert (Hun : unconnected f2).
  { eapply Forall_impl; [|exact Hrec2].
    intros e (_ & _ & _ & _ & _ & Ho & Hi). auto. }
  pose proof (computeConnections_connectedAs sg f2 Hk2 Hun) as Hconn.
  pose proof Hconn as [Hframe _].
  split; [rewrite <- keys_frameOf, Hframe, keys_frameOf; exact Hk2|].
  split; [rewrite <- memberIds_frameOf, Hframe, memberIds_frameOf; exact Hnd2|].
  split; [|apply (connectedAs_mutual f2 (edges sg)); assumption].
  assert (Hframed :
            Forall (fun e => presentable des (fst e) (snd e)) (frameOf f2)).
  { unfold frameOf. apply Forall_map. apply Forall_forall. intros e He.
    rewrite Forall_forall in Hrec2, Hdes2.
    destruct (Hrec2 e He) as (Hid & _ & Hres & _).
    unfold presentable, groupIdOk. cbn. rewrite Hid. auto. }
  rewrite <- Hframe in Hframed. unfold frameOf in Hframed.
  apply Forall_map in Hframed.
  eapply Forall_impl; [|exact Hframed].
  intros [k g] H. exact H.
Qed.

(** ** Runs of the sample inputs *)

Lemma expandGroups_only_appends_witness :
  keys expandedSample = keys seededSample
  /\ forall k g,
       map_get k seededSample = Some g ->
       exists added g',
         map_get k expandedSample = Some g'
         /\ NodeGroup.nodes g' = NodeGroup.nodes g ++ added
         /\ Forall (fun m => In (nodeModel m) (nodes sampleSubgraph)) added
         /\ NodeGroup.with_state (NodeGroup.state g)
              (NodeGroup.with_nodes (fun _ => NodeGroup.nodes g) g') = g.
Proof.
  apply (expandGroups_only_appends (fuelFor sampleGraph) sampleGraph
           [instanceRow] (Some satellitePlan) sampleSubgraph
           seededSample expandedSample).
  - reflexivity.
  - vm_compute. reflexivity.
Defined.

Lemma expandGroups_state_witness :
  exists added g',
    map_get "aws_instance.web" expandedSample = Some g'
    /\ NodeGroup.nodes g' = NodeGroup.nodes seededInstance ++ added
    /\ NodeGroup.state g' =
       if (NodeGroup.state seededInstance =? "no-op")
          && existsb memberChanged added
       then "update" else NodeGroup.state seededInstance.
Proof.
  apply (expandGroups_state (fuelFor sampleGraph) sampleGraph
           [instanceRow] (Some satellitePlan) sampleSubgraph
           seededSample expandedSample "aws_instance.web" seededInstance).
  - reflexivity.
  - vm_compute. reflexivity.
  - reflexivity.
Defined.

Example expanded_state :
  map (fun e => (fst e, NodeGroup.state (snd e))) seededSample
    = [("aws_instance.web", "no-op")]
  /\ map (fun e => (fst e, NodeGroup.state (snd e), memberIdsOf (snd e)))
         expandedSample
     = [("aws_instance.web", "update",
         [ "n1 aws_instance.web"; "n2 aws_security_group.sg";
           "n3 data.aws_ami.ubuntu" ])].
Proof. split; reflexivity. Qed.

Lemma pairGroups_keys : NoDup (keys pairGroups).
Proof. repeat constructor; simpl; intuition discriminate. Defined.

Lemma pairGroups_unconnected : unconnected pairGroups.
Proof. repeat constructor. Defined.


Lemma computeConnections_mutual_witness :
  exists gb,
    map_get "aws_instance.db" (computeConnections pairGraph pairGroups)
    = Some gb
    /\ In "aws_instance.web" (NodeGroup.connectionsIn gb).
Proof.
  destruct (map_get "aws_instance.web" (computeConnections pairGraph pairGroups))
    as [ga|] eqn:E; [|vm_compute in E; discriminate E].
  destruct (computeConnections_mutual pairGraph pairGroups
              pairGroups_keys pairGroups_unconnected
              "aws_instance.web" ga "aws_instance.db" E) as [H _].
  apply H. vm_compute in E. injection E as <-. left. reflexivity.
Defined.

Lemma computeConnections_no_multi_edges_witness :
  exists g,
    map_get "aws_instance.web" (computeConnections pairGraph pairGroups)
    = Some g
    /\ NoDup (NodeGroup.connectionsOut g) /\ NoDup (NodeGroup.connectionsIn g).
Proof.
  destruct (map_get "aws_instance.web" (computeConnections pairGraph pairGroups))
    as [g|] eqn:E; [|vm_compute in E; discriminate E].
  exists g. split; [reflexivity|].
  exact (computeConnections_no_multi_edges pairGraph pairGroups
           pairGroups_keys pairGroups_unconnected "aws_instance.web" g E).
Defined.

Example pair_connections :
  connections (computeConnections pairGraph pairGroups)
  = [ ("aws_instance.web", ["aws_instance.db"], ["aws_instance.db"]);
      ("aws_instance.db", ["aws_instance.web"], ["aws_instance.web"]);
      ("aws_s3_bucket.logs", [], []) ].
Proof. reflexivity. Qed.

Lemma parseModel_guarantees_witness :
  exists out,
    parseModel orphanGraph [instanceRow] (Some satellitePlan)
      {| detailed := true; showInactive := true;
         deselectedCategories := ["Storage"]; selectedTags := [] |} = Ok out
    /\ NoDup (keys (groups out))
    /\ NoDup (memberIds (groups out))
    /\ Forall (fun e => presentable ["Storage"] (fst e) (snd e)) (groups out)
    /\ forall a ga b,
         map_get a (groups out) = Some ga ->
         (In b (NodeGroup.connectionsOut ga) ->
          exists gb, map_get b (groups out) = Some gb
                     /\ In a (NodeGroup.connectionsIn gb))
         /\ (In b (NodeGroup.connectionsIn ga) ->
             exists gb, map_get b (groups out) = Some gb
                        /\ In a (NodeGroup.connectionsOut gb)).
Proof.
  eexists. split; [vm_compute; reflexivity|].
  apply (parseModel_guarantees orphanGraph [instanceRow] (Some satellitePlan)
           {| detailed := true; showInactive := true;
              deselectedCategories := ["Storage"]; selectedTags := [] |}).
  vm_compute. reflexivity.
Defined.

Example detailed_pass :
  match parseModel orphanGraph [instanceRow] (Some satellitePlan)
          {| detailed := true; showInactive := true;
             deselectedCategories := []; selectedTags := [] |} with
  | Ok out =>
      map (fun e => (fst e, NodeGroup.state (snd e), memberIdsOf (snd e)))
          (groups out)
      = [ ("aws_instance.web", "update",
           [ "n1 aws_instance.web"; "n2 aws_security_group.sg";
             "n3 data.aws_ami.ubuntu" ]);
          ("aws_security_group.spare", "no-op",
           [ "n5 aws_security_group.spare" ]) ]
      /\ categories out = ["Compute"]
  | _ => False
  end.
Proof. vm_compute. split; reflexivity. Qed.

Example pruned_pass :
  match parseModel orphanGraph [instanceRow] (Some satellitePlan)
          {| detailed := true; showInactive := false;
             deselectedCategories := []; selectedTags := [] |} with
  | Ok out =>
      map (fun e => (fst e, memberIdsOf (snd e))) (groups out)
      = [ ("aws_instance.web",
           [ "n1 aws_instance.web"; "n2 aws_security_group.sg" ]) ]
  | _ => False
  end.
Proof. vm_compute. reflexivity. Qed.

(** ** Grouping does not depend on the plan *)

Lemma forEachM_simulation {A S T} (R : S -> T -> Prop)
  (f : A -> S -> result S) (g : A -> T -> result T) (l : list A) :
  (forall x s t s', R s t -> f x s = Ok s' ->
                    exists t', g x t = Ok t' /\ R s' t') ->
  forall s t s', R s t -> forEachM f l s = Ok s' ->
                 exists t', forEachM g l t = Ok t' /\ R s' t'.
Proof.
  intros Hstep. induction l as [|x l IH]; intros s t s' Hr Hrun; simpl in *.
  - injection Hrun as <-. eauto.
  - apply bind_Ok_inv in Hrun as (s1 & H1 & H2).
    destruct (Hstep x s t s1 Hr H1) as (t1 & -> & Hr1). simpl. eauto.
Qed.

Lemma planFree_keys (s t : GroupMap) : planFree s = planFree t -> keys s = keys t.
Proof.
  intros H. unfold keys.
  assert (E : forall u, map fst u = map fst (planFree u))
    by (intros u; unfold planFree; rewrite map_map; reflexivity).
  rewrite (E s), (E t), H. reflexivity.
Qed.

Lemma planFree_get (k : string) (s : GroupMap) :
  map_get k (planFree s) = option_map erasePlan (map_get k s).
Proof.
  induction s as [|[k' g] s IH]; simpl; [reflexivity|].
  destruct (k' =? k); [reflexivity|exact IH].
Qed.

Lemma planFree_get_related (k : string) (s t : GroupMap) (g : NodeGroup.t) :
  planFree s = planFree t -> map_get k s = Some g ->
  exists g', map_get k t = Some g' /\ erasePlan g = erasePlan g'.
Proof.
  intros H Hg. pose proof (planFree_get k s) as Hs.
  rewrite H, planFree_get, Hg in Hs. simpl in Hs.
  destruct (map_get k t) as [g'|]; [|discriminate].
  simpl in Hs. exists g'. split; [reflexivity|].
  apply (f_equal (fun o => match o with Some x => x | None => erasePlan g end))
    in Hs.
  symmetry. exact Hs.
Qed.

Lemma planFree_present (s : GroupMap) (i : string) :
  isNodePresent (planFree s) i = isNodePresent s i.
Proof.
  unfold isNodePresent, values, planFree.
  induction s as [|[k g] s IH]; [reflexivity|].
  cbn [map existsb fst snd] in *. rewrite IH. f_equal.
  unfold erasePlan. cbn [NodeGroup.nodes]. rewrite existsb_map. reflexivity.
Qed.

Lemma planFree_set (k : string) (g : NodeGroup.t) (s : GroupMap) :
  planFree (map_set k g s) = map_set k (erasePlan g) (planFree s).
Proof.
  induction s as [|[k' g'] s IH]; simpl; [reflexivity|].
  destruct (k' =? k); simpl; [reflexivity|]. rewrite IH. reflexivity.
Qed.

Lemma planFree_absorb (k : string) (n : NodeModel.t)
  (rcs : list ResourceChange) (p : option Plan) (s : GroupMap) :
  planFree (map_mutate k (absorb n rcs p) s)
  = map_mutate k
      (NodeGroup.with_nodes
         (fun ns => ns ++ [ {| nodeModel := n; resourceChanges := [] |} ]))
      (planFree s).
Proof.
  unfold planFree, map_mutate. rewrite !map_map. apply map_ext.
  intros [k' g]. simpl. destruct (k' =? k); [|reflexivity].
  simpl. f_equal. unfold erasePlan, absorb, NodeGroup.with_nodes. simpl.
  rewrite map_app. reflexivity.
Qed.

Lemma erasePlan_type (g g' : NodeGroup.t) :
  erasePlan g = erasePlan g' ->
  NodeGroup.type g = NodeGroup.type g'
  /\ NodeGroup.mainNode g = NodeGroup.mainNode g'.
Proof.
  intros H. split.
  - exact (f_equal NodeGroup.type H).
  - exact (f_equal NodeGroup.mainNode H).
Qed.

Lemma addNodeToGroup_plan_free (n : NodeModel.t) (mainBlock : bool)
  (jsonArray : Table) (planJsonObj : option Plan) (s t s' : GroupMap) :
  planFree s = planFree t ->
  addNodeToGroup n s mainBlock jsonArray planJsonObj = Ok s' ->
  exists t', addNodeToGroup n t mainBlock jsonArray None = Ok t'
             /\ planFree s' = planFree t'.
Proof.
  unfold addNodeToGroup.
  destruct (nth_error _ 1) as [centralPart|];
    [|intros Hr E; injection E as <-; eauto].
  destruct (centralPart =? ""); [intros Hr E; injection E as <-; eauto|].
  destruct (Block.isResourceWithName _);
    [|intros Hr E; injection E as <-; eauto].
  destruct (getResourceNameAndType _) as [[[rt|] [rn|]]| |]; simpl;
    try (intros Hr E; injection E as <-; eauto; fail);
    try discriminate.
  destruct (rn =? ""); [intros Hr E; injection E as <-; eauto|].
  apply (forEachM_simulation (fun u v => planFree u = planFree v)).
  intros row u v u' Hr.
  destruct (rowMatches _ _ _); [|intros E; injection E as <-; eauto].
  intros Hrun. apply bind_Ok_inv in Hrun as (name & _ & E).
  injection E as <-. simpl. eexists. split; [reflexivity|].
  rewrite !planFree_set, Hr. reflexivity.
Qed.

Lemma examineEdge_plan_free
  (recP recN : NodeModel.t -> GroupMap -> bool -> result GroupMap)
  (key : string) (sg : SubgraphModel) (start : bool) (jsonArray : Table)
  (planJsonObj : option Plan) (edge : EdgeModel) (s t s' : GroupMap) :
  (forall n u v st u', planFree u = planFree v -> recP n u st = Ok u' ->
                       exists v', recN n v st = Ok v'
                                  /\ planFree u' = planFree v') ->
  planFree s = planFree t ->
  examineEdge recP key sg start jsonArray planJsonObj edge s = Ok s' ->
  exists t', examineEdge recN key sg start jsonArray None edge t = Ok t'
             /\ planFree s' = planFree t'.
Proof.
  intros Hrec Hr. unfold examineEdge.
  destruct (nth_error _ 1) as [centralPart|];
    [|intros E; injection E as <-; eauto].
  destruct (centralPart =? ""); [intros E; injection E as <-; eauto|].
  destruct (_ || _); [|intros E; injection E as <-; eauto].
  destruct (getResourceNameAndType _) as [[[rt|] [rn|]]| |]; simpl;
    try discriminate.
  - destruct (map_get key s) as [g|] eqn:Hg.
    + destruct (planFree_get_related key s t g Hr Hg) as (g' & -> & Hgg).
      destruct (erasePlan_type g g' Hgg) as [<- _].
      rewrite <- (planFree_present s), Hr, planFree_present.
      destruct (_ && _ && _); [|intros E; injection E as <-; eauto].
      destruct (find _ (nodes sg)) as [newNode|];
        [|intros E; injection E as <-; eauto].
      intros Hrun. apply bind_Ok_inv in Hrun as (s1 & H1 & H2).
      destruct (Hrec newNode
                  (map_mutate key
                     (absorb newNode (changesOf planJsonObj centralPart)
                             planJsonObj) s)
                  (map_mutate key (absorb newNode [] None) t)
                  start s1) as (t1 & Ht1 & Hr1); [|exact H1|].
      * rewrite !planFree_absorb, Hr. reflexivity.
      * change (changesOf None centralPart) with (@nil ResourceChange).
        rewrite Ht1. simpl. eapply Hrec; eauto.
    + assert (Ht : map_get key t = None).
      { pose proof (planFree_get key t) as H.
        rewrite <- Hr, planFree_get, Hg in H. simpl in H.
        destruct (map_get key t); [discriminate|reflexivity]. }
      rewrite Ht. intros E. injection E as <-. eauto.
  - destruct (map_get key s), (map_get key t);
      intros E; injection E as <-; eauto.
  - intros E. injection E as <-. eauto.
  - intros E. injection E as <-. eauto.
Qed.

Lemma getConnectedNodes_plan_free (sg : SubgraphModel) (key : string)
  (jsonArray : Table) (planJsonObj : option Plan) :
  forall fuel n s t start s',
    planFree s = planFree t ->
    getConnectedNodes fuel n key s sg start jsonArray planJsonObj = Ok s' ->
    exists t',
      getConnectedNodes fuel n key t sg start jsonArray None = Ok t'
      /\ planFree s' = planFree t'.
Proof.
  induction fuel as [|fuel IH]; intros n s t start s' Hr Hrun;
    [discriminate|].
  simpl in *. revert s t s' Hr Hrun.
  apply (forEachM_simulation (fun u v => planFree u = planFree v)).
  intros edge u v u' Hr.
  apply examineEdge_plan_free; [|exact Hr].
  intros n' a b st a' Hab. apply IH. exact Hab.
Qed.

(** X27: the plan never changes what is grouped.  When the grouping phase
    completes with a plan, it also completes without one, and the two maps
    agree on everything but what the plan contributes: the same keys in the
    same order, the same members in the same order, the same types,
    categories, icons, service and module names. *)
Theorem groupPhase_ignores_plan
  (model : RootGraphModel) (jsonArray : Table) (planJsonObj : option Plan)
  (ambient : Ambient) (st : GroupMap)
  (Hrun : groupPhase model jsonArray planJsonObj ambient = Ok st) :
  exists st0,
    groupPhase model jsonArray None ambient = Ok st0
    /\ planFree st0 = planFree st.
Proof.
  unfold groupPhase in *.
  apply bind_Ok_inv in Hrun as (s1 & Hgroup & Hrun).
  assert (H1 : exists t1, groupNodes model jsonArray None = Ok t1
                          /\ planFree s1 = planFree t1).
  { unfold groupNodes in *.
    apply bind_Ok_inv in Hgroup as (s0 & Hseed & Hexp).
    assert (H0 : exists t0, seedGroups model jsonArray None = Ok t0
                            /\ planFree s0 = planFree t0).
    { revert Hseed. unfold seedGroups.
      apply (forEachM_simulation (fun u v => planFree u = planFree v));
        [|reflexivity].
      intros sg u v u' Hr.
      apply (forEachM_simulation (fun u v => planFree u = planFree v));
        [|exact Hr].
      intros n a b a' Hab. apply addNodeToGroup_plan_free. exact Hab. }
    destruct H0 as (t0 & -> & Hr0). simpl.
    revert Hexp. unfold expandGroups.
    destruct (subgraphs model) as [|sg ?];
      [intros E; injection E as <-; eauto|].
    rewrite (planFree_keys s0 t0 Hr0).
    apply (forEachM_simulation (fun u v => planFree u = planFree v));
      [|exact Hr0].
    intros key u v u' Hr. unfold expandGroup.
    destruct (map_get key u) as [g|] eqn:Hg.
    - destruct (planFree_get_related key u v g Hr Hg) as (g' & -> & Hgg).
      destruct (erasePlan_type g g' Hgg) as [_ <-].
      intros Hrun'. apply bind_Ok_inv in Hrun' as (u1 & Hu1 & Hu2).
      destruct (getConnectedNodes_plan_free sg key jsonArray planJsonObj
                  _ _ u v true u1 Hr Hu1) as (v1 & -> & Hr1).
      simpl. eapply getConnectedNodes_plan_free; eauto.
    - assert (Hv : map_get key v = None).
      { pose proof (planFree_get key v) as H.
        rewrite <- Hr, planFree_get, Hg in H. simpl in H.
        destruct (map_get key v); [discriminate|reflexivity]. }
      rewrite Hv. intros E. injection E as <-. eauto. }
  destruct H1 as (t1 & -> & Hr1). simpl.
  destruct (detailed ambient);
    [|injection Hrun as <-; exists t1; split; [reflexivity|auto]].
  destruct (subgraphs model) as [|sg ?]; [discriminate|].
  assert (H2 : exists t', addOrphans sg jsonArray None t1 = Ok t'
                          /\ planFree st = planFree t').
  { revert Hrun. unfold addOrphans.
    apply (forEachM_simulation (fun u v => planFree u = planFree v));
      [|exact Hr1].
    intros n u v u' Hr.
    rewrite <- (planFree_present u), Hr, planFree_present.
    destruct (negb _); [|intros E; injection E as <-; eauto].
    apply addNodeToGroup_plan_free. exact Hr. }
  destruct H2 as (t' & -> & Hr'). eauto.
Qed.

Lemma groupPhase_ignores_plan_witness :
  exists st st0,
    groupPhase orphanGraph [instanceRow] (Some satellitePlan)
      {| detailed := true; showInactive := false;
         deselectedCategories := []; selectedTags := [] |} = Ok st
    /\ groupPhase orphanGraph [instanceRow] None
         {| detailed := true; showInactive := false;
            deselectedCategories := []; selectedTags := [] |} = Ok st0
    /\ planFree st0 = planFree st.
Proof.
  eexists. 
  assert (Hrun : groupPhase orphanGraph [instanceRow] (Some satellitePlan)
                   {| detailed := true; showInactive := false;
                      deselectedCategories := []; selectedTags := [] |}
                 = Ok _) by (vm_compute; reflexivity).
  destruct (groupPhase_ignores_plan _ _ _ _ _ Hrun) as (st0 & H0 & Hfree).
  exists st0. split; [exact Hrun|]. split; [exact H0|exact Hfree].
Defined.
